(** * The link checker's crawl engine: a shallow embedding

    Sources embedded here:
    - the coordinator ([LinkChecker.check], [LinkChecker.crawl],
      [LinkChecker.shouldRetryAfter], [isHtml]);
    - the link extractor of [src/links.ts] ([getLinks], [normalizeLink]);
    - the options of a check ([LinkChecker.processOptions] and the head of
      [LinkChecker.check]);
    - the configuration file ([getConfig], [parseConfigFile],
      [getTypeOfConfig]).

    JavaScript is single threaded: the code between two [await]s runs
    atomically.  A crawl is therefore embedded as a program of a small free
    monad whose nodes are the effects of the source; the [await] nodes are the
    only scheduling points.  The platform (the WHATWG [URL] class, [Number],
    [Date], [RegExp], the HTML parser, the HTTP client) is an interface. *)

From Stdlib Require Import ZArith String Ascii List Bool Lia.
From stdpp Require Import base option gmap strings list pretty.

Local Open Scope string_scope.
Local Open Scope Z_scope.

(* ===================================================================== *)
(** * JavaScript values the code computes with *)
(* ===================================================================== *)

Module Js.

(** The numbers the code manipulates are millisecond time stamps, second
    counts and HTTP statuses: integers, and [NaN] as produced by a failed
    [Number(...)] or by [getTime()] of an invalid date. *)
Inductive num : Type :=
| NaN
| Num (z : Z).

#[global] Instance num_eq_dec : EqDecision num.
Proof. solve_decision. Defined.

Definition add (a b : num) : num :=
  match a, b with
  | Num x, Num y => Num (x + y)
  | _, _ => NaN
  end.

Definition sub (a b : num) : num :=
  match a, b with
  | Num x, Num y => Num (x - y)
  | _, _ => NaN
  end.

Definition mul (a b : num) : num :=
  match a, b with
  | Num x, Num y => Num (x * y)
  | _, _ => NaN
  end.

(** [a > b]: false as soon as one side is [NaN]. *)
Definition gt (a b : num) : bool :=
  match a, b with
  | Num x, Num y => y <? x
  | _, _ => false
  end.

Definition isNaN (a : num) : bool :=
  match a with NaN => true | Num _ => false end.

(** ToNumber on the result of [Map.get]: [undefined] becomes [NaN]. *)
Definition toNumber (o : option num) : num := default NaN o.

(** ToBoolean on a number: [0] and [NaN] are falsy. *)
Definition truthy (a : num) : bool :=
  match a with
  | NaN => false
  | Num z => negb (z =? 0)
  end.

(** ToBoolean on a string or [undefined]: only the non-empty string is
    truthy. *)
Definition truthy_str (s : option string) : bool :=
  match s with
  | Some (String _ _) => true
  | _ => false
  end.

(** [s.startsWith(p)]. *)
Definition startsWith (s p : string) : bool := String.prefix p s.

(** [!!s.match(/p/g)] for a pattern [p] made of literal characters only:
    true when [p] occurs in [s]; no flag makes the match case-insensitive. *)
Fixpoint matches_literal (p s : string) : bool :=
  String.prefix p s ||
  match s with
  | EmptyString => false
  | String _ s' => matches_literal p s'
  end.

End Js.

(* ===================================================================== *)
(** * The URL class *)
(* ===================================================================== *)

Module Url.

(** The components of a parsed URL that the code reads or writes.
    [protocol] ends with its colon; [authority] is [None] for URLs without
    [//] (such as [mailto:]); [fragment] is [None] when the URL has no
    fragment. *)
Record URL : Type := mkURL {
  protocol : string;
  authority : option string;
  pathname : string;
  search : string;
  fragment : option string;
}.

#[global] Instance URL_eq_dec : EqDecision URL.
Proof. solve_decision. Defined.

(** The [host] getter. *)
Definition host (u : URL) : string := default "" (authority u).

(** The [hash] getter: empty for an absent or empty fragment. *)
Definition hash (u : URL) : string :=
  match fragment u with
  | Some (String c f) => "#" +:+ String c f
  | _ => ""
  end.

(** The [hash] setter.  Assigning the empty string removes the fragment;
    a leading [#] of the assigned value is dropped. *)
Definition set_hash (u : URL) (h : string) : URL :=
  let frag :=
    match h with
    | EmptyString => None
    | String c h' => if Ascii.eqb c "#" then Some h' else Some h
    end in
  {| protocol := protocol u; authority := authority u;
     pathname := pathname u; search := search u; fragment := frag |}.

(** The [href] getter (the URL serializer). *)
Definition href (u : URL) : string :=
  protocol u
  +:+ match authority u with Some a => "//" +:+ a | None => "" end
  +:+ pathname u +:+ search u
  +:+ match fragment u with Some f => "#" +:+ f | None => "" end.

End Url.

(* ===================================================================== *)
(** * The platform *)
(* ===================================================================== *)

Module Dom.

(** An element of a parsed document: its tag name and its attributes. *)
Record Element : Type := mkElement {
  tag : string;
  attribs : list (string * string);
}.

(** [element.attribs[name]]: [None] stands for [undefined]. *)
Fixpoint attr (name : string) (l : list (string * string)) : option string :=
  match l with
  | [] => None
  | (k, v) :: l' => if String.eqb k name then Some v else attr name l'
  end.

End Dom.

(** What the code asks of the JavaScript runtime and of its libraries.  None
    of these is code of the repository.  The patterns of [linksToSkip] are
    taken to compile and the skip predicate to resolve: a [SyntaxError] of
    [new RegExp] or a rejection of the predicate is outside the model. *)
Class Platform : Type := {
  (** [Number(s)] *)
  Number : string -> Js.num;
  (** [new Date(s).getTime()]; an invalid date yields [NaN], the constructor
      does not throw on a string. *)
  Date_getTime : string -> Js.num;
  (** [new RegExp(p).test(s)] *)
  RegExp_test : string -> string -> bool;
  (** [new URL(s)] and [new URL(s, base)]; [None] when the constructor
      throws. *)
  URL_new : string -> option string -> option Url.URL;
  (** [cheerio.load(source)]: the elements of the document, in document
      order. *)
  cheerio_load : string -> list Dom.Element;
}.

(** An item of the extractor as the coordinator reads it: [link] is the text
    found in the document, [url] the resolved URL, absent when resolution
    failed.  (The specification calls the two fields [originalHref] and
    [url].) *)
Module ParsedUrl.
Record t : Type := mk {
  link : string;
  url : option Url.URL;
}.
End ParsedUrl.

(* ===================================================================== *)
(** * The link extractor ([src/links.ts]) *)
(* ===================================================================== *)

Module Links.
Import Url Dom.

(** [linksAttr]: attribute name, then the tags that carry it; the order is
    the insertion order that [Object.keys] enumerates. *)
Definition linksAttr : list (string * list string) :=
  [ ("background", ["body"]);
    ("cite", ["blockquote"; "del"; "ins"; "q"]);
    ("data", ["object"]);
    ("href", ["a"; "area"; "embed"; "link"]);
    ("icon", ["command"]);
    ("longdesc", ["frame"; "iframe"]);
    ("manifest", ["html"]);
    ("poster", ["video"]);
    ("pluginspage", ["embed"]);
    ("pluginurl", ["embed"]);
    ("src", ["audio"; "embed"; "frame"; "iframe"; "img"; "input"; "script";
             "source"; "track"; "video"]) ].

(** An element matches the selector [t1[a],t2[a],...] when its tag is one
    of the [t]s and it has the attribute [a]. *)
Definition selected (a : string) (tags : list string) (e : Element) : bool :=
  existsb (String.eqb (tag e)) tags && bool_decide (is_Some (attr a (attribs e))).

(** The array [links] after the [forEach] over the keys: for each
    attribute, the value of that attribute on each selected element. *)
Definition collect (doc : list Element) : list (option string) :=
  flat_map
    (fun '(a, tags) => map (fun e => attr a (attribs e)) (List.filter (selected a tags) doc))
    linksAttr.

(** [links.filter(link => !!link)] *)
Definition nonempty (links : list (option string)) : list string :=
  omap (fun l => if Js.truthy_str l then l else None) links.

Section WithPlatform.
Context `{Platform}.

Definition normalizeLink (link baseUrl : string) : string :=
  match URL_new link (Some baseUrl) with
  | Some slink => href (set_hash slink "")
  | None => link
  end.

Definition getLinks (source baseUrl : string) : list string :=
  let links := collect (cheerio_load source) in
  map (fun link => normalizeLink link baseUrl) (nonempty links).

End WithPlatform.

Section Spec.
Context `{Platform}.

(** Modelled from the spec: the item of the extractor that yields pairs,
    which the coordinator consumes and which is not among the sources.
    "Resolve each non-empty value against the base URL; clear the fragment.
    If resolution fails, emit [{ originalHref, url: none }]." *)
Definition normalizeLink_spec (link baseUrl : string) : ParsedUrl.t :=
  {| ParsedUrl.link := link;
     ParsedUrl.url := (fun u => set_hash u "") <$> URL_new link (Some baseUrl) |}.

(** Modelled from the spec: the extractor that yields pairs, over the same
    table and the same selection as [getLinks]. *)
Definition getLinks_spec (source baseUrl : string) : list ParsedUrl.t :=
  map (fun link => normalizeLink_spec link baseUrl)
      (nonempty (collect (cheerio_load source))).

End Spec.

End Links.

(* ===================================================================== *)
(** * The coordinator: data model *)
(* ===================================================================== *)

(** The HTTP client ([gaxios]). *)
Module Gaxios.

Inductive Method : Type := GET | HEAD.
Inductive ResponseType : Type := text | stream.

(** The options of one [request(...)] call that vary between calls; the
    [headers] and [validateStatus: () => true] are the same in all. *)
Record Options : Type := mkOptions {
  method : Method;
  url : string;
  responseType : ResponseType;
  timeout : option Z;
}.

(** [res.data].  For a request with response type [text] it is the text of
    the body.  For a request with response type [stream] it is a stream
    object: the text of the body is not in it. *)
Inductive Body : Type :=
| Text (source : string)
| Stream.

(** A response.  Header names are lower case. *)
Record Response : Type := mkResponse {
  status : Z;
  headers : gmap string string;
  data : Body;
}.

(** What [request(config)] resolves with when the server answers with
    [status], [headers] and the body [body]: the body is handed over as the
    response type of the request says.  The runs of the coordinator below
    let any response answer a request, also a text where a stream was asked
    for: what holds of all of them holds of those the client can deliver. *)
Definition delivered (config : Options) (status : Z) (headers : gmap string string)
    (body : string) : Response :=
  {| status := status;
     headers := headers;
     data := match responseType config with
             | text => Text body
             | stream => Stream
             end |}.

(** What awaiting a request gives: the response, or the thrown error. *)
Inductive Outcome : Type :=
| Resolved (res : Response)
| Rejected (err : string).

#[global] Instance Method_eq_dec : EqDecision Method.
Proof. solve_decision. Defined.
#[global] Instance ResponseType_eq_dec : EqDecision ResponseType.
Proof. solve_decision. Defined.
#[global] Instance Options_eq_dec : EqDecision Options.
Proof. solve_decision. Defined.
#[global] Instance Body_eq_dec : EqDecision Body.
Proof. solve_decision. Defined.
#[global] Instance Response_eq_dec : EqDecision Response.
Proof. solve_decision. Defined.

End Gaxios.

(** A text where a body is expected is the body with that text. *)
Coercion Gaxios.Text : string >-> Gaxios.Body.

Inductive LinkState : Type := OK | BROKEN | SKIPPED.

#[global] Instance LinkState_eq_dec : EqDecision LinkState.
Proof. solve_decision. Defined.

(** An entry of [failureDetails]: a caught error, or the value of [res]
    pushed for a non-2xx status ([None] when [res] is [undefined]). *)
Inductive Failure : Type :=
| Thrown (err : string)
| Details (res : option Gaxios.Response).

#[global] Instance Failure_eq_dec : EqDecision Failure.
Proof. solve_decision. Defined.

Module LinkResult.
(** [None] in [status], [parent] or [failureDetails] is an absent
    (optional) field. *)
Record t : Type := mk {
  url : string;
  status : option Z;
  state : LinkState;
  parent : option string;
  failureDetails : option (list Failure);
}.

#[global] Instance eq_dec : EqDecision t.
Proof. solve_decision. Defined.
End LinkResult.

Module CrawlResult.
Record t : Type := mk {
  passed : bool;
  links : list LinkResult.t;
}.
End CrawlResult.

(** [CheckOptions.linksToSkip]: a list of patterns or an asynchronous
    predicate (whose answers come from the caller). *)
Inductive LinksToSkip : Type :=
| SkipPatterns (patterns : list string)
| SkipFunction.

Module CheckOptions.
(** The options [crawl] reads, after [check] has normalised them: an absent
    [recurse] is [false], an absent [linksToSkip] is the empty list. *)
Record t : Type := mk {
  concurrency : option nat;
  recurse : bool;
  timeout : option Z;
  linksToSkip : LinksToSkip;
}.
End CheckOptions.

Module CrawlOptions.
(** The fields of [CrawlOptions] that differ between tasks.  The others
    ([results], [cache], [delayCache], [queue], [checkOptions]) are
    references to the objects of the run, the same in every task: they
    live in [Shared] below. *)
Record t : Type := mk {
  url : Url.URL;
  parent : option string;
  crawl : bool;
  rootPath : string;
}.

#[global] Instance eq_dec : EqDecision t.
Proof. solve_decision. Defined.
End CrawlOptions.

(** The events of the [EventEmitter]. *)
Inductive Event : Type :=
| Link (r : LinkResult.t)
| PageStart (u : Url.URL).

#[global] Instance Event_eq_dec : EqDecision Event.
Proof. solve_decision. Defined.

(** The objects shared by all tasks of a run.  [queue] holds the tasks added
    and not yet started, each with the [delay] it was added with; [events]
    is the log of what was emitted. *)
Record Shared : Type := mkShared {
  results : list LinkResult.t;
  cache : gset string;
  delayCache : gmap string Js.num;
  queue : list (CrawlOptions.t * option Js.num);
  events : list Event;
}.

(** The extractor as [crawl] calls it.  The coordinator reads the fields
    [link] and [url] of each item; [src/links.ts] (module [Links]) yields
    bare strings.  [crawl] is embedded against this interface. *)
Class Extractor : Type := {
  getLinks : string -> string -> list ParsedUrl.t;
}.

Definition spec_extractor `{Platform} : Extractor :=
  {| getLinks := Links.getLinks_spec |}.

(* ===================================================================== *)
(** * Programs: the effects of a task *)
(* ===================================================================== *)

(** A task is a tree of the effects the source performs.  [Await_request]
    and [Await_skip] are the [await]s: the task is suspended there and the
    answer comes from outside.  All other nodes are synchronous. *)
Inductive Prog (A : Type) : Type :=
| Ret (a : A)
| Await_request (rq : Gaxios.Options) (k : Gaxios.Outcome -> Prog A)
| Await_skip (href : string) (k : bool -> Prog A)
| Date_now (k : Z -> Prog A)
| Results_push (r : LinkResult.t) (k : Prog A)
| Emit (e : Event) (k : Prog A)
| Cache_has (s : string) (k : bool -> Prog A)
| Cache_add (s : string) (k : Prog A)
| Delay_has (h : string) (k : bool -> Prog A)
| Delay_get (h : string) (k : option Js.num -> Prog A)
| Delay_set (h : string) (v : Js.num) (k : Prog A)
| Delay_delete (h : string) (k : Prog A)
| Queue_add (t : CrawlOptions.t) (delay : option Js.num) (k : Prog A).

Arguments Ret {A} a.
Arguments Await_request {A} rq k.
Arguments Await_skip {A} href k.
Arguments Date_now {A} k.
Arguments Results_push {A} r k.
Arguments Emit {A} e k.
Arguments Cache_has {A} s k.
Arguments Cache_add {A} s k.
Arguments Delay_has {A} h k.
Arguments Delay_get {A} h k.
Arguments Delay_set {A} h v k.
Arguments Delay_delete {A} h k.
Arguments Queue_add {A} t delay k.

Fixpoint bind {A B : Type} (m : Prog A) (f : A -> Prog B) : Prog B :=
  match m with
  | Ret a => f a
  | Await_request rq k => Await_request rq (fun o => bind (k o) f)
  | Await_skip h k => Await_skip h (fun b => bind (k b) f)
  | Date_now k => Date_now (fun n => bind (k n) f)
  | Results_push r k => Results_push r (bind k f)
  | Emit e k => Emit e (bind k f)
  | Cache_has s k => Cache_has s (fun b => bind (k b) f)
  | Cache_add s k => Cache_add s (bind k f)
  | Delay_has h k => Delay_has h (fun b => bind (k b) f)
  | Delay_get h k => Delay_get h (fun o => bind (k o) f)
  | Delay_set h v k => Delay_set h v (bind k f)
  | Delay_delete h k => Delay_delete h (bind k f)
  | Queue_add t d k => Queue_add t d (bind k f)
  end.

#[global] Instance Prog_ret : MRet Prog := fun A a => Ret a.
#[global] Instance Prog_bind : MBind Prog := fun A B f m => bind m f.

(** The statements of the source, one effect each. *)
Module Op.
Definition request (rq : Gaxios.Options) : Prog Gaxios.Outcome := Await_request rq Ret.
Definition linksToSkip (href : string) : Prog bool := Await_skip href Ret.
Definition now : Prog Z := Date_now Ret.
Definition push (r : LinkResult.t) : Prog unit := Results_push r (Ret tt).
Definition emit (e : Event) : Prog unit := Emit e (Ret tt).
Definition cache_has (s : string) : Prog bool := Cache_has s Ret.
Definition cache_add (s : string) : Prog unit := Cache_add s (Ret tt).
Definition delay_has (h : string) : Prog bool := Delay_has h Ret.
Definition delay_get (h : string) : Prog (option Js.num) := Delay_get h Ret.
Definition delay_set (h : string) (v : Js.num) : Prog unit := Delay_set h v (Ret tt).
Definition delay_delete (h : string) : Prog unit := Delay_delete h (Ret tt).
Definition queue_add (t : CrawlOptions.t) (delay : option Js.num) : Prog unit :=
  Queue_add t delay (Ret tt).
End Op.

(** [for (const x of l) body]; a [continue] ends the body. *)
Fixpoint forOf {A : Type} (l : list A) (body : A -> Prog unit) : Prog unit :=
  match l with
  | [] => Ret tt
  | x :: l' => body x ;; forOf l' body
  end.

(** ** Running the synchronous part of a task

    [run_sync p clk i sh] runs [p] on the shared objects [sh] up to its next
    [await] (or its end) and gives the objects as it leaves them and the
    rest of the program.  [clk] is the clock: its [i]-th reading answers the
    [i]-th [Date.now()] of this stretch. *)
Fixpoint run_sync {A : Type} (p : Prog A) (clk : nat -> Z) (i : nat) (sh : Shared)
  : Shared * Prog A :=
  match p with
  | Ret _ | Await_request _ _ | Await_skip _ _ => (sh, p)
  | Date_now k => run_sync (k (clk i)) clk (S i) sh
  | Results_push r k =>
      run_sync k clk i
        {| results := results sh ++ [r]; cache := cache sh; delayCache := delayCache sh;
           queue := queue sh; events := events sh |}
  | Emit e k =>
      run_sync k clk i
        {| results := results sh; cache := cache sh; delayCache := delayCache sh;
           queue := queue sh; events := events sh ++ [e] |}
  | Cache_has s k => run_sync (k (bool_decide (s ∈ cache sh))) clk i sh
  | Cache_add s k =>
      run_sync k clk i
        {| results := results sh; cache := {[ s ]} ∪ cache sh; delayCache := delayCache sh;
           queue := queue sh; events := events sh |}
  | Delay_has h k => run_sync (k (bool_decide (is_Some (delayCache sh !! h)))) clk i sh
  | Delay_get h k => run_sync (k (delayCache sh !! h)) clk i sh
  | Delay_set h v k =>
      run_sync k clk i
        {| results := results sh; cache := cache sh; delayCache := <[ h := v ]> (delayCache sh);
           queue := queue sh; events := events sh |}
  | Delay_delete h k =>
      run_sync k clk i
        {| results := results sh; cache := cache sh; delayCache := delete h (delayCache sh);
           queue := queue sh; events := events sh |}
  | Queue_add t d k =>
      run_sync k clk i
        {| results := results sh; cache := cache sh; delayCache := delayCache sh;
           queue := queue sh ++ [(t, d)]; events := events sh |}
  end.

(* ===================================================================== *)
(** * The coordinator: [isHtml], [shouldRetryAfter], [crawl], [check] *)
(* ===================================================================== *)

Section Coordinator.
Context `{Platform} `{Extractor}.
Import Url.

(** The [checkOptions] of the run. *)
Variable checkOptions : CheckOptions.t.

(** [isHtml].  The two patterns are [/text\/html/g] and
    [/application\/xhtml\+xml/g]: literal text, no [i] flag. *)
Definition isHtml (response : Gaxios.Response) : bool :=
  let contentType := default "" (Gaxios.headers response !! "content-type") in
  Js.matches_literal "text/html" contentType
  || Js.matches_literal "application/xhtml+xml" contentType.

(** [shouldRetryAfter].  The [catch] around [new Date(...)], which would
    [return 0], is never entered: the constructor does not throw on a
    string, it yields an invalid date whose time is [NaN]. *)
Definition shouldRetryAfter (res : option Gaxios.Response) (opts : CrawlOptions.t)
  : Prog Js.num :=
  match res with
  | None => mret (Js.Num 0)
  | Some res =>
    let retryAfterRaw := Gaxios.headers res !! "retry-after" in
    if negb (Gaxios.status res =? 429) || negb (Js.truthy_str retryAfterRaw)
    then mret (Js.Num 0)
    else
      let raw := default "" retryAfterRaw in
      now ← Op.now;
      let retryAfter0 := Js.add (Js.mul (Number raw) (Js.Num 1000)) (Js.Num now) in
      let retryAfter :=
        if Js.isNaN retryAfter0 then Date_getTime raw else retryAfter0 in
      let host := host (CrawlOptions.url opts) in
      has ← Op.delay_has host;
      (if has : bool then
         currentTimeout ← Op.delay_get host;
         if Js.gt retryAfter (Js.toNumber currentTimeout)
         then Op.delay_set host retryAfter
         else mret tt
       else Op.delay_set host retryAfter);;
      (if Js.truthy retryAfter then
         now' ← Op.now;
         Op.queue_add opts (Some (Js.sub retryAfter (Js.Num now')))
       else mret tt);;
      mret retryAfter
  end.

(** The body of the [for] loop over the extracted links; a [continue] is
    the end of the body. *)
Definition crawl_link (opts : CrawlOptions.t) (result : ParsedUrl.t) : Prog unit :=
  match ParsedUrl.url result with
  | None =>
      let r := {| LinkResult.url := ParsedUrl.link result;
                  LinkResult.status := Some 0;
                  LinkResult.state := BROKEN;
                  LinkResult.parent := Some (href (CrawlOptions.url opts));
                  LinkResult.failureDetails := None |} in
      Op.push r;;
      Op.emit (Link r)
  | Some url =>
      let crawl0 :=
        CheckOptions.recurse checkOptions
        && Js.startsWith (href url) (CrawlOptions.rootPath opts) in
      let crawl :=
        if crawl0 then
          match URL_new (CrawlOptions.rootPath opts) None with
          | Some pathUrl => String.eqb (host url) (host pathUrl)
          | None => crawl0
          end
        else crawl0 in
      seen ← Op.cache_has (href url);
      if seen : bool then mret tt
      else
        Op.cache_add (href url);;
        Op.queue_add
          {| CrawlOptions.url := url;
             CrawlOptions.crawl := crawl;
             CrawlOptions.parent := Some (href (CrawlOptions.url opts));
             CrawlOptions.rootPath := CrawlOptions.rootPath opts |}
          None
  end.

(** [crawl], from [if (res !== undefined)] to the end: classify, record
    the result, recurse.  [getLinks(data, ...)] parses [data]: the page when
    [data] is its text; when [data] is a stream object, which is the case
    for the response kept after a 405, the parser is handed no markup and
    finds no element. *)
Definition crawl_report (opts : CrawlOptions.t) (res : option Gaxios.Response)
    (failures : list Failure) : Prog unit :=
  let status := match res with Some r => Gaxios.status r | None => 0 end in
  let data := match res with Some r => Gaxios.data r | None => Gaxios.Text "" end in
  let shouldRecurse := match res with Some r => isHtml r | None => false end in
  let ok := (200 <=? status) && (status <? 300) in
  let state := if ok then OK else BROKEN in
  let failures := if ok then failures else (failures ++ [Details res])%list in
  let result := {| LinkResult.url := href (CrawlOptions.url opts);
                   LinkResult.status := Some status;
                   LinkResult.state := state;
                   LinkResult.parent := CrawlOptions.parent opts;
                   LinkResult.failureDetails := Some failures |} in
  Op.push result;;
  Op.emit (Link result);;
  if CrawlOptions.crawl opts && shouldRecurse then
    Op.emit (PageStart (CrawlOptions.url opts));;
    forOf (match data with
           | Gaxios.Text source => getLinks source (href (CrawlOptions.url opts))
           | Gaxios.Stream => []
           end)
          (crawl_link opts)
  else mret tt.

Definition request_options (opts : CrawlOptions.t) (m : Gaxios.Method)
    (rt : Gaxios.ResponseType) : Gaxios.Options :=
  {| Gaxios.method := m;
     Gaxios.url := href (CrawlOptions.url opts);
     Gaxios.responseType := rt;
     Gaxios.timeout := CheckOptions.timeout checkOptions |}.

(** [crawl], what follows the [GET] of the second [try]. *)
Definition crawl_retried (opts : CrawlOptions.t) (res : option Gaxios.Response)
    (failures : list Failure) (o : Gaxios.Outcome) : Prog unit :=
  match o with
  | Gaxios.Rejected ex => crawl_report opts res (failures ++ [Thrown ex])%list
  | Gaxios.Resolved res' =>
      retry ← shouldRetryAfter (Some res') opts;
      if Js.truthy retry then mret tt
      else crawl_report opts (Some res') failures
  end.

(** [crawl], the second [try]: a [GET] with a text response when there is
    no 2xx response yet and the task does not crawl. *)
Definition crawl_retry (opts : CrawlOptions.t) (res : option Gaxios.Response)
    (failures : list Failure) : Prog unit :=
  let no2xx :=
    match res with
    | None => true
    | Some r => (Gaxios.status r <? 200) || (300 <=? Gaxios.status r)
    end in
  if no2xx && negb (CrawlOptions.crawl opts) then
    o ← Op.request (request_options opts Gaxios.GET Gaxios.text);
    crawl_retried opts res failures o
  else crawl_report opts res failures.

(** [crawl], what follows the [GET] issued on HTTP 405; [res] is the
    response to the first request. *)
Definition crawl_fallback (opts : CrawlOptions.t) (res : Gaxios.Response)
    (o : Gaxios.Outcome) : Prog unit :=
  match o with
  | Gaxios.Rejected err => crawl_retry opts (Some res) [Thrown err]
  | Gaxios.Resolved res' =>
      retry ← shouldRetryAfter (Some res') opts;
      if Js.truthy retry then mret tt
      else crawl_retry opts (Some res') []
  end.

(** [crawl], what follows the first request. *)
Definition crawl_requested (opts : CrawlOptions.t) (o : Gaxios.Outcome) : Prog unit :=
  match o with
  | Gaxios.Rejected err => crawl_retry opts None [Thrown err]
  | Gaxios.Resolved res =>
      retry ← shouldRetryAfter (Some res) opts;
      if Js.truthy retry then mret tt
      else if Gaxios.status res =? 405 then
        o' ← Op.request (request_options opts Gaxios.GET Gaxios.stream);
        crawl_fallback opts res o'
      else crawl_retry opts (Some res) []
  end.

(** [crawl], the first [try]: the [HEAD] or [GET] request. *)
Definition crawl_request (opts : CrawlOptions.t) : Prog unit :=
  let crawl := CrawlOptions.crawl opts in
  o ← Op.request
        (request_options opts
           (if crawl then Gaxios.GET else Gaxios.HEAD)
           (if crawl then Gaxios.text else Gaxios.stream));
  crawl_requested opts o.

(** [crawl], the delay gate: a host marked by an earlier 429. *)
Definition crawl_delay (opts : CrawlOptions.t) : Prog unit :=
  let host := host (CrawlOptions.url opts) in
  has ← Op.delay_has host;
  if has : bool then
    timeout ← Op.delay_get host;
    now ← Op.now;
    if Js.gt (Js.toNumber timeout) (Js.Num now) then
      now' ← Op.now;
      Op.queue_add opts (Some (Js.sub (Js.toNumber timeout) (Js.Num now')))
    else
      Op.delay_delete host;;
      crawl_request opts
  else crawl_request opts.

(** The result recorded by the gates on the skip predicate and on the
    skip patterns: it has no [status] field. *)
Definition skipped_result (opts : CrawlOptions.t) : LinkResult.t :=
  {| LinkResult.url := href (CrawlOptions.url opts);
     LinkResult.status := None;
     LinkResult.state := SKIPPED;
     LinkResult.parent := CrawlOptions.parent opts;
     LinkResult.failureDetails := None |}.

(** The patterns of [linksToSkip] that match: [map] then [filter]. *)
Definition skips (patterns : list string) (href : string) : list bool :=
  List.filter (fun m => m) (map (fun linkToSkip => RegExp_test linkToSkip href) patterns).

(** [crawl], from the test of the skip predicate on; [skip] is the value
    of [typeof linksToSkip === 'function' && (await linksToSkip(href))]. *)
Definition crawl_filtered (opts : CrawlOptions.t) (skip : bool) : Prog unit :=
  if skip then
    let result := skipped_result opts in
    Op.push result;;
    Op.emit (Link result)
  else
    let matched :=
      match CheckOptions.linksToSkip checkOptions with
      | SkipPatterns patterns =>
          (0 <? length (skips patterns (href (CrawlOptions.url opts))))%nat
      | SkipFunction => false
      end in
    if matched then
      let result := skipped_result opts in
      Op.push result;;
      Op.emit (Link result)
    else crawl_delay opts.

(** [crawl]: the gate on the scheme, then the rest. *)
Definition crawl (opts : CrawlOptions.t) : Prog unit :=
  let proto := protocol (CrawlOptions.url opts) in
  if negb (String.eqb proto "http:") && negb (String.eqb proto "https:") then
    let r := {| LinkResult.url := href (CrawlOptions.url opts);
                LinkResult.status := Some 0;
                LinkResult.state := SKIPPED;
                LinkResult.parent := CrawlOptions.parent opts;
                LinkResult.failureDetails := None |} in
    Op.push r;;
    Op.emit (Link r)
  else
    match CheckOptions.linksToSkip checkOptions with
    | SkipFunction =>
        skip ← Op.linksToSkip (href (CrawlOptions.url opts));
        crawl_filtered opts skip
    | SkipPatterns _ => crawl_filtered opts false
    end.

(** ** [check]

    [check] is embedded from the point where [options.path] is the list of
    HTTP URLs to start from (after [processOptions] and, for file system
    paths, after the rewriting to [http://localhost:port/...]). *)

(** The [for] loop over [options.path], started on empty objects.  [None]
    when [new URL(path)] throws: [check] then rejects. *)
Fixpoint check_enqueue (paths : list string) (sh : Shared) : option Shared :=
  match paths with
  | [] => Some sh
  | path :: paths' =>
      match URL_new path None with
      | None => None
      | Some url =>
          check_enqueue paths'
            {| results := results sh;
               cache := {[ href url ]} ∪ cache sh;
               delayCache := delayCache sh;
               queue := (queue sh ++
                         [({| CrawlOptions.url := url;
                              CrawlOptions.crawl := true;
                              CrawlOptions.parent := None;
                              CrawlOptions.rootPath := path |}, None)])%list;
               events := events sh |}
      end
  end.

Definition empty_shared : Shared :=
  {| results := []; cache := ∅; delayCache := ∅; queue := []; events := [] |}.

(** The value [check] returns once the queue is idle. *)
Definition check_result (results : list LinkResult.t) : CrawlResult.t :=
  {| CrawlResult.links := results;
     CrawlResult.passed :=
       (length (List.filter
                  (fun x => bool_decide (LinkResult.state x = BROKEN)) results)
        =? 0)%nat |}.

(** ** The queue and the event loop *)

(** A started task: its options and what is left of its program, which is
    suspended at an [await]. *)
Definition Thread : Type := CrawlOptions.t * Prog unit.

Record Config : Type := mkConfig {
  shared : Shared;
  running : list Thread;
}.

(** One turn of the event loop. *)
Inductive Action : Type :=
| Start (i : nat) (clk : nat -> Z)
    (** the queue starts its [i]-th pending task *)
| Respond (j : nat) (o : Gaxios.Outcome) (clk : nat -> Z)
    (** the request of the [j]-th running task settles *)
| Answer (j : nat) (b : bool) (clk : nat -> Z)
    (** the skip predicate called by the [j]-th running task resolves *).

Definition the_concurrency : nat :=
  match CheckOptions.concurrency checkOptions with
  | Some (S n) => S n
  | _ => 100%nat
  end.

Definition with_queue (sh : Shared) (q : list (CrawlOptions.t * option Js.num)) : Shared :=
  {| results := results sh; cache := cache sh; delayCache := delayCache sh;
     queue := q; events := events sh |}.

(** A task whose program has ended leaves the list of running tasks. *)
Definition started (rs : list Thread) (t : CrawlOptions.t) (p : Prog unit) : list Thread :=
  match p with
  | Ret _ => rs
  | _ => (rs ++ [(t, p)])%list
  end.

Definition resumed (rs : list Thread) (j : nat) (t : CrawlOptions.t) (p : Prog unit)
  : list Thread :=
  match p with
  | Ret _ => delete j rs
  | _ => <[ j := (t, p) ]> rs
  end.

(** Modelled from the spec: the work queue ([./queue]), which is not among
    the sources.  "A bounded-concurrency task scheduler": [add] enqueues a
    unit of work, at most [concurrency] tasks execute simultaneously, and
    [onIdle] resolves once nothing is pending and nothing runs.  The model
    lets the queue start any pending task at any moment: the [delay] of a
    task is recorded, the moment it elapses is the scheduler's choice, so
    every schedule of the real queue is one of the model.  A task runs from
    one [await] to the next without interruption. *)
Definition step (c : Config) (a : Action) : option Config :=
  match a with
  | Start i clk =>
      if bool_decide (length (running c) < the_concurrency)%nat then
        match queue (shared c) !! i with
        | Some (t, _) =>
            let '(sh, p) :=
              run_sync (crawl t) clk 0 (with_queue (shared c) (delete i (queue (shared c)))) in
            Some {| shared := sh; running := started (running c) t p |}
        | None => None
        end
      else None
  | Respond j o clk =>
      match running c !! j with
      | Some (t, Await_request _ k) =>
          let '(sh, p) := run_sync (k o) clk 0 (shared c) in
          Some {| shared := sh; running := resumed (running c) j t p |}
      | _ => None
      end
  | Answer j b clk =>
      match running c !! j with
      | Some (t, Await_skip _ k) =>
          let '(sh, p) := run_sync (k b) clk 0 (shared c) in
          Some {| shared := sh; running := resumed (running c) j t p |}
      | _ => None
      end
  end.

Fixpoint run (acts : list Action) (c : Config) : option Config :=
  match acts with
  | [] => Some c
  | a :: acts' =>
      match step c a with
      | Some c' => run acts' c'
      | None => None
      end
  end.

(** [queue.onIdle()] has resolved. *)
Definition idle (c : Config) : bool :=
  match queue (shared c), running c with
  | [], [] => true
  | _, _ => false
  end.

(** [check] on the starting URLs [paths], the event loop taking the turns
    [acts]: the value returned, if these turns lead to an idle queue. *)
Definition check (paths : list string) (acts : list Action) : option CrawlResult.t :=
  match check_enqueue paths empty_shared with
  | None => None
  | Some sh =>
      match run acts {| shared := sh; running := [] |} with
      | Some c => if idle c then Some (check_result (results (shared c))) else None
      | None => None
      end
  end.

End Coordinator.

(* ===================================================================== *)
(** * A platform for the examples *)
(* ===================================================================== *)

(** An instance of the platform on which the definitions above evaluate.  It
    covers the inputs the examples use: decimal digit strings for [Number],
    the fixed-length HTTP-date format for [Date], patterns without
    metacharacters for [RegExp], and absolute URLs and absolute-path
    references for [URL]. *)
Module Node.
Import Url.

Definition is_digit (c : ascii) : bool :=
  let n := nat_of_ascii c in ((48 <=? n) && (n <=? 57))%nat.

Definition is_alpha (c : ascii) : bool :=
  let n := nat_of_ascii c in
  (((65 <=? n) && (n <=? 90)) || ((97 <=? n) && (n <=? 122)))%nat.

Fixpoint digits_value (acc : Z) (s : string) : option Z :=
  match s with
  | EmptyString => Some acc
  | String c s' =>
      if is_digit c
      then digits_value (10 * acc + (Z.of_nat (nat_of_ascii c) - 48)) s'
      else None
  end.

(** [Number(s)] on a non-empty string of decimal digits; [NaN] otherwise. *)
Definition parse_number (s : string) : Js.num :=
  match s with
  | EmptyString => Js.NaN
  | _ => match digits_value 0 s with Some z => Js.Num z | None => Js.NaN end
  end.

Definition month_index (m : string) : option Z :=
  let names := ["Jan"; "Feb"; "Mar"; "Apr"; "May"; "Jun";
                "Jul"; "Aug"; "Sep"; "Oct"; "Nov"; "Dec"] in
  (fix find (l : list string) (i : Z) : option Z :=
     match l with
     | [] => None
     | n :: l' => if String.eqb n m then Some i else find l' (i + 1)
     end) names 1.

(** Days between 1970-01-01 and the given civil date. *)
Definition days_from_civil (y m d : Z) : Z :=
  let y' := if m <=? 2 then y - 1 else y in
  let era := y' / 400 in
  let yoe := y' - era * 400 in
  let mp := (m + 9) mod 12 in
  let doy := (153 * mp + 2) / 5 + d - 1 in
  let doe := yoe * 365 + yoe / 4 - yoe / 100 + doy in
  era * 146097 + doe - 719468.

(** [new Date(s).getTime()] on [Thu, 01 Jan 1970 00:00:00 GMT] and the
    like; [NaN] otherwise. *)
Definition parse_date (s : string) : Js.num :=
  let field i n := digits_value 0 (substring i n s) in
  if bool_decide (String.length s = 29%nat)
     && String.eqb (substring 3 2 s) ", "
     && String.eqb (substring 25 4 s) " GMT"
     && String.eqb (substring 19 1 s) ":"
     && String.eqb (substring 22 1 s) ":"
  then
    match field 5%nat 2%nat, month_index (substring 8 3 s), field 12%nat 4%nat,
          field 17%nat 2%nat, field 20%nat 2%nat, field 23%nat 2%nat with
    | Some d, Some m, Some y, Some hh, Some mm, Some ss =>
        Js.Num ((((days_from_civil y m d * 24 + hh) * 60 + mm) * 60 + ss) * 1000)
    | _, _, _, _, _, _ => Js.NaN
    end
  else Js.NaN.

(** [new RegExp(p).test(s)] for a pattern of literal characters. *)
Definition regexp_test (p s : string) : bool := Js.matches_literal p s.

(** The longest prefix of [s] without a character of [stops], and the
    rest. *)
Fixpoint until (stops : list ascii) (s : string) : string * string :=
  match s with
  | EmptyString => ("", "")
  | String c s' =>
      if existsb (Ascii.eqb c) stops then ("", s)
      else let '(a, b) := until stops s' in (String c a, b)
  end.

Fixpoint all_chars (p : ascii -> bool) (s : string) : bool :=
  match s with
  | EmptyString => true
  | String c s' => p c && all_chars p s'
  end.

Definition scheme_char (c : ascii) : bool :=
  is_alpha c || is_digit c || existsb (Ascii.eqb c) ["+"; "-"; "."]%char.

(** [Some (scheme, rest)] when [s] is [scheme:rest]. *)
Definition split_scheme (s : string) : option (string * string) :=
  match until [":"%char] s with
  | (String c sch, String _ rest) =>
      if is_alpha c && all_chars scheme_char sch then Some (String c sch, rest) else None
  | _ => None
  end.

Definition special (scheme : string) : bool :=
  existsb (String.eqb scheme) ["http"; "https"; "ftp"; "ws"; "wss"].

Fixpoint strip_slashes (s : string) : string :=
  match s with
  | String "/" s' => strip_slashes s'
  | _ => s
  end.

Definition fragment_of (s : string) : option string :=
  match s with
  | String _ f => Some f
  | EmptyString => None
  end.

(** Path, query and fragment of [s]. *)
Definition parse_tail (s : string) : string * string * option string :=
  let '(path, r) := until ["?"; "#"]%char s in
  let '(query, r') := until ["#"%char] r in
  (path, query, fragment_of r').

Definition parse_absolute (s : string) : option URL :=
  match split_scheme s with
  | None => None
  | Some (scheme, rest) =>
      if special scheme then
        let '(auth, r) := until ["/"; "?"; "#"]%char (strip_slashes rest) in
        let '(path, query, frag) := parse_tail r in
        match auth with
        | EmptyString => None
        | _ =>
            Some {| protocol := scheme +:+ ":"; authority := Some auth;
                    pathname := match path with EmptyString => "/" | _ => path end;
                    search := query; fragment := frag |}
        end
      else if String.prefix "//" rest then
        let '(auth, r) := until ["/"; "?"; "#"]%char (substring 2 (String.length rest) rest) in
        let '(path, query, frag) := parse_tail r in
        Some {| protocol := scheme +:+ ":"; authority := Some auth;
                pathname := path; search := query; fragment := frag |}
      else
        let '(path, query, frag) := parse_tail rest in
        Some {| protocol := scheme +:+ ":"; authority := None;
                pathname := path; search := query; fragment := frag |}
  end.

(** [new URL(s)] and [new URL(s, base)]: an input with a scheme is parsed
    on its own; a reference that starts with a slash takes the scheme (and,
    with a single slash, the authority) from the base. *)
Definition url_new (s : string) (base : option string) : option URL :=
  match split_scheme s with
  | Some _ => parse_absolute s
  | None =>
      match base ≫= parse_absolute, s with
      | Some b, String "/" _ =>
          let '(path, query, frag) := parse_tail s in
          if String.prefix "//" s then parse_absolute (protocol b +:+ s)
          else Some {| protocol := protocol b; authority := authority b;
                       pathname := path; search := query; fragment := frag |}
      | _, _ => None
      end
  end.

(** A lenient scanner for the documents of the examples: tags of the form
    [<name attr='value' ...>], everything else is skipped. *)
Inductive Scan : Type :=
| InText
| InTag (name : string)
| InAttrs (name : string) (attrs : list (string * string))
| InName (name : string) (attrs : list (string * string)) (a : string)
| InValue (name : string) (attrs : list (string * string)) (a v : string).

Definition snoc (s : string) (c : ascii) : string := s +:+ String c "".

Fixpoint scan (s : string) (q : Scan) : list Dom.Element :=
  match s with
  | EmptyString => []
  | String c s' =>
      match q with
      | InText => if Ascii.eqb c "<" then scan s' (InTag "") else scan s' InText
      | InTag n =>
          if Ascii.eqb c ">" then Dom.mkElement n [] :: scan s' InText
          else if Ascii.eqb c " " then scan s' (InAttrs n [])
          else scan s' (InTag (snoc n c))
      | InAttrs n l =>
          if Ascii.eqb c ">" then Dom.mkElement n l :: scan s' InText
          else if Ascii.eqb c " " then scan s' (InAttrs n l)
          else scan s' (InName n l (String c ""))
      | InName n l a =>
          if Ascii.eqb c "'" then scan s' (InValue n l a "")
          else if Ascii.eqb c ">" then Dom.mkElement n (l ++ [(a, "")])%list :: scan s' InText
          else if Ascii.eqb c "=" then scan s' (InName n l a)
          else scan s' (InName n l (snoc a c))
      | InValue n l a v =>
          if Ascii.eqb c "'" then scan s' (InAttrs n (l ++ [(a, v)])%list)
          else scan s' (InValue n l a (snoc v c))
      end
  end.

Definition load (source : string) : list Dom.Element := scan source InText.

Definition platform : Platform :=
  {| Number := parse_number;
     Date_getTime := parse_date;
     RegExp_test := regexp_test;
     URL_new := url_new;
     cheerio_load := load |}.

Definition extractor : Extractor := @spec_extractor platform.

End Node.

(* ===================================================================== *)
(** * Vocabulary of the properties *)
(* ===================================================================== *)

(** [p] occurs in [s], character for character. *)
Definition occurs (p s : string) : Prop := exists a b, s = a +:+ p +:+ b.

Definition to_lower (c : ascii) : ascii :=
  let n := nat_of_ascii c in
  if ((65 <=? n) && (n <=? 90))%nat then ascii_of_nat (n + 32) else c.

Fixpoint lowercase (s : string) : string :=
  match s with
  | EmptyString => EmptyString
  | String c s' => String (to_lower c) (lowercase s')
  end.

(** The value of the [Content-Type] header as [isHtml] reads it. *)
Definition contentType (response : Gaxios.Response) : string :=
  default "" (Gaxios.headers response !! "content-type").

(** [results.push(r); this.emit('link', r)]: what recording a result does to
    the shared objects. *)
Definition record (r : LinkResult.t) (sh : Shared) : Shared :=
  {| results := results sh ++ [r];
     cache := cache sh;
     delayCache := delayCache sh;
     queue := queue sh;
     events := events sh ++ [Link r] |}.

(** The URL has scheme [http] or [https]. *)
Definition is_http (u : Url.URL) : bool :=
  String.eqb (Url.protocol u) "http:" || String.eqb (Url.protocol u) "https:".

(** The result the gate on the scheme records. *)
Definition scheme_skipped (opts : CrawlOptions.t) : LinkResult.t :=
  {| LinkResult.url := Url.href (CrawlOptions.url opts);
     LinkResult.status := Some 0;
     LinkResult.state := SKIPPED;
     LinkResult.parent := CrawlOptions.parent opts;
     LinkResult.failureDetails := None |}.

(** The request a suspended task waits for, if any. *)
Definition awaited_request {A : Type} (p : Prog A) : option Gaxios.Options :=
  match p with
  | Await_request rq _ => Some rq
  | _ => None
  end.

(** The deadline [shouldRetryAfter] computes from the [retry-after] value
    [raw] when the clock reads [now]: [Number(raw) * 1000 + now], or the time
    of [new Date(raw)] when that is [NaN]. *)
Definition retry_deadline `{Platform} (raw : string) (now : Z) : Js.num :=
  let seconds := Js.add (Js.mul (Number raw) (Js.Num 1000)) (Js.Num now) in
  if Js.isNaN seconds then Date_getTime raw else seconds.

(** The entry of a host once [deadline] has been proposed for it: the entry
    it had stays unless [deadline > entry] holds. *)
Definition merged_deadline (entry : option Js.num) (deadline : Js.num) : Js.num :=
  match entry with
  | Some cur => if Js.gt deadline cur then deadline else cur
  | None => deadline
  end.

(** The shared objects after a task has been rescheduled on a 429: the
    delay cache holds the merged deadline for the host, the queue holds the
    task again, with the delay computed at time [now']; nothing else
    changes. *)
Definition rescheduled (opts : CrawlOptions.t) (deadline : Js.num) (now' : Z) (sh : Shared)
  : Shared :=
  let host := Url.host (CrawlOptions.url opts) in
  {| results := results sh;
     cache := cache sh;
     delayCache := <[ host := merged_deadline (delayCache sh !! host) deadline ]> (delayCache sh);
     queue := queue sh ++ [(opts, Some (Js.sub deadline (Js.Num now')))];
     events := events sh |}.

(** A result is classified: its state is OK exactly when it has a status
    and that status is in the range 200..299. *)
Definition classified (r : LinkResult.t) : Prop :=
  LinkResult.state r = OK <->
  exists s, LinkResult.status r = Some s /\ 200 <= s < 300.

(** The number of results whose state is BROKEN. *)
Fixpoint count_broken (l : list LinkResult.t) : nat :=
  match l with
  | [] => 0%nat
  | r :: l' =>
      match LinkResult.state r with
      | BROKEN => S (count_broken l')
      | _ => count_broken l'
      end
  end.

(** [Pushes P p]: whatever answers [p] gets, every result it appends to
    [results] satisfies [P]. *)
Inductive Pushes {A : Type} (P : LinkResult.t -> Prop) : Prog A -> Prop :=
| Pushes_Ret a : Pushes P (Ret a)
| Pushes_Await_request rq k : (forall o, Pushes P (k o)) -> Pushes P (Await_request rq k)
| Pushes_Await_skip h k : (forall b, Pushes P (k b)) -> Pushes P (Await_skip h k)
| Pushes_Date_now k : (forall n, Pushes P (k n)) -> Pushes P (Date_now k)
| Pushes_Results_push r k : P r -> Pushes P k -> Pushes P (Results_push r k)
| Pushes_Emit e k : Pushes P k -> Pushes P (Emit e k)
| Pushes_Cache_has s k : (forall b, Pushes P (k b)) -> Pushes P (Cache_has s k)
| Pushes_Cache_add s k : Pushes P k -> Pushes P (Cache_add s k)
| Pushes_Delay_has h k : (forall b, Pushes P (k b)) -> Pushes P (Delay_has h k)
| Pushes_Delay_get h k : (forall o, Pushes P (k o)) -> Pushes P (Delay_get h k)
| Pushes_Delay_set h v k : Pushes P k -> Pushes P (Delay_set h v k)
| Pushes_Delay_delete h k : Pushes P k -> Pushes P (Delay_delete h k)
| Pushes_Queue_add t d k : Pushes P k -> Pushes P (Queue_add t d k).

(** The invariant of a run: the results recorded so far are classified, and
    so is whatever the running tasks may still record. *)
Definition classified_config (c : Config) : Prop :=
  Forall classified (results (shared c))
  /\ Forall (fun th : Thread => Pushes classified (snd th)) (running c).

(** ** Counting results and tasks per URL *)

Definition count_if {A : Type} (f : A -> bool) (l : list A) : nat :=
  length (List.filter f l).

Definition one_if (b : bool) : nat := if b then 1%nat else 0%nat.

(** The result of a link that did not resolve: the loop over the extracted
    links records it at once, BROKEN and without [failureDetails]; its [url]
    is the text found in the document. *)
Definition unresolved (r : LinkResult.t) : bool :=
  bool_decide (LinkResult.state r = BROKEN /\ LinkResult.failureDetails r = None).

(** The number of results whose [url] is [s]. *)
Definition results_for (s : string) (l : list LinkResult.t) : nat :=
  count_if (fun r => String.eqb (LinkResult.url r) s) l.

(** Those among them that a task recorded for its own URL. *)
Definition settled (s : string) (l : list LinkResult.t) : nat :=
  count_if (fun r => String.eqb (LinkResult.url r) s && negb (unresolved r)) l.

(** The number of pending tasks for the URL [s]. *)
Definition queued (s : string) (q : list (CrawlOptions.t * option Js.num)) : nat :=
  count_if (fun e => String.eqb (Url.href (CrawlOptions.url (fst e))) s) q.

(** The number of running tasks for the URL [s]. *)
Definition in_flight (s : string) (rs : list Thread) : nat :=
  count_if (fun th => String.eqb (Url.href (CrawlOptions.url (fst th))) s) rs.

(** One more task for [u] than [extra] counts. *)
Definition bump (u : string) (extra : string -> nat) : string -> nat :=
  fun s => (extra s + one_if (String.eqb u s))%nat.

(** The books balance: for every string, the results recorded by a task for
    that URL, the pending tasks for it and the [extra] tasks counted apart
    add up to one when the string is in the visit cache, to none when it is
    not. *)
Definition balance (extra : string -> nat) (sh : Shared) : Prop :=
  forall s,
    (settled s (results sh) + queued s (queue sh) + extra s)%nat
    = one_if (bool_decide (s ∈ cache sh)).

(** The [href]s of the starting URLs. *)
Definition start_hrefs `{Platform} (paths : list string) : list string :=
  omap (fun path => Url.href <$> URL_new path None) paths.

(** [Done p]: [p] runs to its end without an [await]; the results it appends
    are those of unresolved links; it enqueues a task only for a URL that it
    finds missing from the visit cache and that it adds to the cache first,
    in the same stretch. *)
Inductive Done {A : Type} : Prog A -> Prop :=
| Done_Ret a : Done (Ret a)
| Done_Emit e k : Done k -> Done (Emit e k)
| Done_Results_push r k : unresolved r = true -> Done k -> Done (Results_push r k)
| Done_Cache_has v k child k' :
    Done (k true) ->
    k false = Cache_add v (Queue_add child None k') ->
    Url.href (CrawlOptions.url child) = v ->
    Done k' ->
    Done (Cache_has v k).

(** [Pending opts p]: [p] is what is left of a task for [opts] that has not
    yet accounted for its URL.  On every path it does so exactly once, by
    recording its own result or by adding [opts] to the queue again, and is
    [Done] from there. *)
Inductive Pending (opts : CrawlOptions.t) : Prog unit -> Prop :=
| Pending_own r k :
    LinkResult.url r = Url.href (CrawlOptions.url opts) ->
    unresolved r = false ->
    Done k ->
    Pending opts (Results_push r k)
| Pending_again d k : Done k -> Pending opts (Queue_add opts d k)
| Pending_Await_request rq k :
    (forall o, Pending opts (k o)) -> Pending opts (Await_request rq k)
| Pending_Await_skip h k : (forall b, Pending opts (k b)) -> Pending opts (Await_skip h k)
| Pending_Date_now k : (forall n, Pending opts (k n)) -> Pending opts (Date_now k)
| Pending_Delay_has h k : (forall b, Pending opts (k b)) -> Pending opts (Delay_has h k)
| Pending_Delay_get h k : (forall o, Pending opts (k o)) -> Pending opts (Delay_get h k)
| Pending_Delay_set h v k : Pending opts k -> Pending opts (Delay_set h v k)
| Pending_Delay_delete h k : Pending opts k -> Pending opts (Delay_delete h k).

(** The invariant of a run: every running task is pending, and the books
    balance with the running tasks counted apart. *)
Definition accounted (c : Config) : Prop :=
  Forall (fun th : Thread => Pending (fst th) (snd th)) (running c)
  /\ balance (fun s => in_flight s (running c)) (shared c).

(** The shared objects after [cache.add(href)] and [queue.add] of the
    child task, in this order. *)
Definition visited (child : CrawlOptions.t) (sh : Shared) : Shared :=
  {| results := results sh;
     cache := {[ Url.href (CrawlOptions.url child) ]} ∪ cache sh;
     delayCache := delayCache sh;
     queue := queue sh ++ [(child, None)];
     events := events sh |}.

(** ** Vocabulary of the further properties *)



(** The options of the first request of a task. *)
Definition first_request (co : CheckOptions.t) (opts : CrawlOptions.t) : Gaxios.Options :=
  {| Gaxios.method := if CrawlOptions.crawl opts then Gaxios.GET else Gaxios.HEAD;
     Gaxios.url := Url.href (CrawlOptions.url opts);
     Gaxios.responseType := if CrawlOptions.crawl opts then Gaxios.text else Gaxios.stream;
     Gaxios.timeout := CheckOptions.timeout co |}.

(** [Probes P n p]: on every path, [p] issues at most [n] requests, and each
    of them satisfies [P]. *)
Inductive Probes {A : Type} (P : Gaxios.Options -> Prop) : nat -> Prog A -> Prop :=
| Probes_Ret n a : Probes P n (Ret a)
| Probes_Await_request n rq k :
    P rq -> (forall o, Probes P n (k o)) -> Probes P (S n) (Await_request rq k)
| Probes_Await_skip n h k : (forall b, Probes P n (k b)) -> Probes P n (Await_skip h k)
| Probes_Date_now n k : (forall t, Probes P n (k t)) -> Probes P n (Date_now k)
| Probes_Results_push n r k : Probes P n k -> Probes P n (Results_push r k)
| Probes_Emit n e k : Probes P n k -> Probes P n (Emit e k)
| Probes_Cache_has n s k : (forall b, Probes P n (k b)) -> Probes P n (Cache_has s k)
| Probes_Cache_add n s k : Probes P n k -> Probes P n (Cache_add s k)
| Probes_Delay_has n h k : (forall b, Probes P n (k b)) -> Probes P n (Delay_has h k)
| Probes_Delay_get n h k : (forall o, Probes P n (k o)) -> Probes P n (Delay_get h k)
| Probes_Delay_set n h v k : Probes P n k -> Probes P n (Delay_set h v k)
| Probes_Delay_delete n h k : Probes P n k -> Probes P n (Delay_delete h k)
| Probes_Queue_add n t d k : Probes P n k -> Probes P n (Queue_add t d k).

(** A request of the task [opts]: it goes to the URL of the task, with the
    timeout of the options. *)
Definition own_request (co : CheckOptions.t) (opts : CrawlOptions.t) (rq : Gaxios.Options)
  : Prop :=
  Gaxios.url rq = Url.href (CrawlOptions.url opts)
  /\ Gaxios.timeout rq = CheckOptions.timeout co.

(** The result [crawl] records for a task once its requests are over: [res]
    is the response it settled on, if any, [failures] the errors caught. *)
Definition reported (opts : CrawlOptions.t) (res : option Gaxios.Response)
    (failures : list Failure) : LinkResult.t :=
  let status := match res with Some r => Gaxios.status r | None => 0 end in
  let ok := (200 <=? status) && (status <? 300) in
  {| LinkResult.url := Url.href (CrawlOptions.url opts);
     LinkResult.status := Some status;
     LinkResult.state := if ok then OK else BROKEN;
     LinkResult.parent := CrawlOptions.parent opts;
     LinkResult.failureDetails :=
       Some (if ok then failures else (failures ++ [Details res])%list) |}.

(** The response does not make [shouldRetryAfter] reschedule the task. *)
Definition final (res : Gaxios.Response) : Prop :=
  Gaxios.status res <> 429
  \/ Js.truthy_str (Gaxios.headers res !! "retry-after") = false.

(** The results carried by the [link] events, in the order of emission. *)
Definition link_events (es : list Event) : list LinkResult.t :=
  omap (fun e => match e with Link r => Some r | PageStart _ => None end) es.

(** The URLs carried by the [pagestart] events, in the order of emission. *)
Definition pagestart_events (es : list Event) : list Url.URL :=
  omap (fun e => match e with PageStart u => Some u | Link _ => None end) es.

(** [Paired p]: [p] fires a [link] event for a result right after it appends
    the result, and at no other moment. *)
Inductive Paired {A : Type} : Prog A -> Prop :=
| Paired_Ret a : Paired (Ret a)
| Paired_push r k : Paired k -> Paired (Results_push r (Emit (Link r) k))
| Paired_pagestart u k : Paired k -> Paired (Emit (PageStart u) k)
| Paired_Await_request rq k : (forall o, Paired (k o)) -> Paired (Await_request rq k)
| Paired_Await_skip h k : (forall b, Paired (k b)) -> Paired (Await_skip h k)
| Paired_Date_now k : (forall t, Paired (k t)) -> Paired (Date_now k)
| Paired_Cache_has s k : (forall b, Paired (k b)) -> Paired (Cache_has s k)
| Paired_Cache_add s k : Paired k -> Paired (Cache_add s k)
| Paired_Delay_has h k : (forall b, Paired (k b)) -> Paired (Delay_has h k)
| Paired_Delay_get h k : (forall o, Paired (k o)) -> Paired (Delay_get h k)
| Paired_Delay_set h v k : Paired k -> Paired (Delay_set h v k)
| Paired_Delay_delete h k : Paired k -> Paired (Delay_delete h k)
| Paired_Queue_add t d k : Paired k -> Paired (Queue_add t d k).

(** A configuration of a run keeps an invariant made of three parts: [J] on
    the shared objects, [K] on every pending or running task, [T] on what is
    left of every running task. *)
Definition keeps (T : CrawlOptions.t -> Prog unit -> Prop)
    (K : CrawlOptions.t -> Shared -> Prop) (J : Shared -> Prop) (c : Config) : Prop :=
  J (shared c)
  /\ Forall (fun e => K (fst e) (shared c)) (queue (shared c))
  /\ Forall (fun th : Thread => T (fst th) (snd th) /\ K (fst th) (shared c)) (running c).

(** [Obeys Pe Pq p]: every URL for which [p] fires [pagestart] satisfies
    [Pe], every task that [p] adds to the queue satisfies [Pq]. *)
Inductive Obeys {A : Type} (Pe : Url.URL -> Prop) (Pq : CrawlOptions.t -> Prop)
  : Prog A -> Prop :=
| Obeys_Ret a : Obeys Pe Pq (Ret a)
| Obeys_pagestart u k : Pe u -> Obeys Pe Pq k -> Obeys Pe Pq (Emit (PageStart u) k)
| Obeys_link r k : Obeys Pe Pq k -> Obeys Pe Pq (Emit (Link r) k)
| Obeys_Queue_add t d k : Pq t -> Obeys Pe Pq k -> Obeys Pe Pq (Queue_add t d k)
| Obeys_Await_request rq k : (forall o, Obeys Pe Pq (k o)) -> Obeys Pe Pq (Await_request rq k)
| Obeys_Await_skip h k : (forall b, Obeys Pe Pq (k b)) -> Obeys Pe Pq (Await_skip h k)
| Obeys_Date_now k : (forall t, Obeys Pe Pq (k t)) -> Obeys Pe Pq (Date_now k)
| Obeys_Results_push r k : Obeys Pe Pq k -> Obeys Pe Pq (Results_push r k)
| Obeys_Cache_has s k : (forall b, Obeys Pe Pq (k b)) -> Obeys Pe Pq (Cache_has s k)
| Obeys_Cache_add s k : Obeys Pe Pq k -> Obeys Pe Pq (Cache_add s k)
| Obeys_Delay_has h k : (forall b, Obeys Pe Pq (k b)) -> Obeys Pe Pq (Delay_has h k)
| Obeys_Delay_get h k : (forall o, Obeys Pe Pq (k o)) -> Obeys Pe Pq (Delay_get h k)
| Obeys_Delay_set h v k : Obeys Pe Pq k -> Obeys Pe Pq (Delay_set h v k)
| Obeys_Delay_delete h k : Obeys Pe Pq k -> Obeys Pe Pq (Delay_delete h k).

(** The URL [u] is within the scope of a run started from [paths]: it is
    one of the starting URLs, or [recurse] is set and its [href] starts with
    a starting path (as a string) whose URL has the same host. *)
Definition in_scope `{Platform} (co : CheckOptions.t) (paths : list string) (u : Url.URL)
  : Prop :=
  (exists path, In path paths /\ URL_new path None = Some u)
  \/ (CheckOptions.recurse co = true
      /\ exists path pu,
           In path paths /\ URL_new path None = Some pu
           /\ Js.startsWith (Url.href u) path = true
           /\ Url.host u = Url.host pu).

(** A task keeps to the scope: its [rootPath] is a starting path, which
    parses, and it crawls only a URL within the scope of that path. *)
Definition task_in_scope `{Platform} (co : CheckOptions.t) (paths : list string)
    (t : CrawlOptions.t) : Prop :=
  In (CrawlOptions.rootPath t) paths
  /\ exists pu,
       URL_new (CrawlOptions.rootPath t) None = Some pu
       /\ (CrawlOptions.crawl t = true ->
           pu = CrawlOptions.url t
           \/ (CheckOptions.recurse co = true
               /\ Js.startsWith (Url.href (CrawlOptions.url t)) (CrawlOptions.rootPath t) = true
               /\ Url.host (CrawlOptions.url t) = Url.host pu)).

(** What a task may add to the queue: itself, or a child with the same
    [rootPath] that crawls only under [recurse], below the [rootPath] and
    on its host. *)
Definition child_in_scope `{Platform} (co : CheckOptions.t) (opts t : CrawlOptions.t) : Prop :=
  t = opts
  \/ (CrawlOptions.rootPath t = CrawlOptions.rootPath opts
      /\ (CrawlOptions.crawl t = true ->
          CheckOptions.recurse co = true
          /\ Js.startsWith (Url.href (CrawlOptions.url t)) (CrawlOptions.rootPath opts) = true
          /\ forall pu, URL_new (CrawlOptions.rootPath opts) None = Some pu ->
                        Url.host (CrawlOptions.url t) = Url.host pu)).

(** The page of the task [opts], which crawls. *)
Definition own_page (opts : CrawlOptions.t) (u : Url.URL) : Prop :=
  u = CrawlOptions.url opts /\ CrawlOptions.crawl opts = true.

(** The result is for a visited URL, or it is the result of a link that did
    not resolve. *)
Definition of_visited (sh : Shared) (r : LinkResult.t) : Prop :=
  unresolved r = true \/ LinkResult.url r ∈ cache sh.

(** The URL of the task is in the visit cache. *)
Definition task_visited (t : CrawlOptions.t) (sh : Shared) : Prop :=
  Url.href (CrawlOptions.url t) ∈ cache sh.

(** A [pagestart] event has been fired for a URL whose [href] is [x]. *)
Definition page_started (x : string) (sh : Shared) : Prop :=
  exists u, In u (pagestart_events (events sh)) /\ Url.href u = x.

(** The parent of the result, if it has one, is a page that has started. *)
Definition parent_started (sh : Shared) (r : LinkResult.t) : Prop :=
  forall x, LinkResult.parent r = Some x -> page_started x sh.

(** The parent of the task, if it has one, is a page that has started. *)
Definition task_parent_started (t : CrawlOptions.t) (sh : Shared) : Prop :=
  forall x, CrawlOptions.parent t = Some x -> page_started x sh.

(** [Prov opts b p]: the results [p] appends and the tasks it enqueues have
    the parent of [opts], or, once [p] has fired [pagestart] for the URL of
    [opts] ([b] tells whether it has), that URL as parent.  [p] fires
    [pagestart] for no other URL. *)
Inductive Prov {A : Type} (opts : CrawlOptions.t) : bool -> Prog A -> Prop :=
| Prov_Ret b a : Prov opts b (Ret a)
| Prov_Results_push b r k :
    LinkResult.parent r = CrawlOptions.parent opts
    \/ (b = true /\ LinkResult.parent r = Some (Url.href (CrawlOptions.url opts))) ->
    Prov opts b k -> Prov opts b (Results_push r k)
| Prov_Queue_add b t d k :
    CrawlOptions.parent t = CrawlOptions.parent opts
    \/ (b = true /\ CrawlOptions.parent t = Some (Url.href (CrawlOptions.url opts))) ->
    Prov opts b k -> Prov opts b (Queue_add t d k)
| Prov_pagestart b k :
    Prov opts true k -> Prov opts b (Emit (PageStart (CrawlOptions.url opts)) k)
| Prov_link b r k : Prov opts b k -> Prov opts b (Emit (Link r) k)
| Prov_Await_request b rq k :
    (forall o, Prov opts false (k o)) -> Prov opts b (Await_request rq k)
| Prov_Await_skip b h k :
    (forall x, Prov opts false (k x)) -> Prov opts b (Await_skip h k)
| Prov_Date_now b k : (forall t, Prov opts b (k t)) -> Prov opts b (Date_now k)
| Prov_Cache_has b s k : (forall x, Prov opts b (k x)) -> Prov opts b (Cache_has s k)
| Prov_Cache_add b s k : Prov opts b k -> Prov opts b (Cache_add s k)
| Prov_Delay_has b h k : (forall x, Prov opts b (k x)) -> Prov opts b (Delay_has h k)
| Prov_Delay_get b h k : (forall o, Prov opts b (k o)) -> Prov opts b (Delay_get h k)
| Prov_Delay_set b h v k : Prov opts b k -> Prov opts b (Delay_set h v k)
| Prov_Delay_delete b h k : Prov opts b k -> Prov opts b (Delay_delete h k).

(** Every [pagestart] event of [sh] is a [pagestart] event of [sh']. *)
Definition started_sub (sh sh' : Shared) : Prop :=
  forall u, In u (pagestart_events (events sh)) -> In u (pagestart_events (events sh')).

(** Every result and every waiting task that has a parent has it among the
    pages that have started. *)
Definition provenance (sh : Shared) : Prop :=
  Forall (parent_started sh) (results sh)
  /\ Forall (fun e => task_parent_started (fst e) sh) (queue sh).

(** The task [check] creates for a starting path, when the path is a URL. *)
Definition start_task `{Platform} (path : string) : option CrawlOptions.t :=
  url ← URL_new path None;
  Some {| CrawlOptions.url := url;
          CrawlOptions.crawl := true;
          CrawlOptions.parent := None;
          CrawlOptions.rootPath := path |}.

(** The values that one element contributes to the extraction: one for each
    row of [linksAttr] whose attribute the element carries and whose tags
    list the element's tag. *)
Definition links_of (e : Dom.Element) : list (option string) :=
  flat_map
    (fun '(a, tags) =>
       if Links.selected a tags e then [Dom.attr a (Dom.attribs e)] else [])
    Links.linksAttr.

(* ===================================================================== *)
(** * The configuration file: [getConfig], [parseConfigFile],
      [getTypeOfConfig] *)
(* ===================================================================== *)

Module ConfigFile.

(** [s.lastIndexOf(c)], counting from [i] at the head of [s]; [-1] when [c]
    does not occur. *)
Fixpoint lastIndexOf_from (c : ascii) (s : string) (i : Z) : Z :=
  match s with
  | EmptyString => -1
  | String a s' =>
      let r := lastIndexOf_from c s' (i + 1) in
      if r =? -1 then (if Ascii.eqb a c then i else -1) else r
  end.

Definition lastIndexOf (c : ascii) (s : string) : Z := lastIndexOf_from c s 0.

(** [s.slice(n)] for [0 <= n]. *)
Fixpoint drop (n : nat) (s : string) : string :=
  match n, s with
  | O, _ => s
  | S n', String _ s' => drop n' s'
  | S _, EmptyString => EmptyString
  end.

Definition slice (s : string) (n : Z) : string := drop (Z.to_nat n) s.

(** The value of a flag. *)
Inductive Value : Type :=
| V_undefined
| V_bool (b : bool)
| V_num (z : Z)
| V_str (s : string)
| V_arr (l : list string).

#[global] Instance Value_eq_dec : EqDecision Value.
Proof. solve_decision. Defined.

(** [Flags], as an object: its own properties.  A property can be present
    with the value [undefined]. *)
Definition Flags : Type := gmap string Value.

(** What the functions throw: the two errors of this file, and what a
    loader ([fs.readFile], [JSON.parse], [import]) throws. *)
Inductive Error : Type :=
| BadExtension
| Invalid (configPath : string)
| Loader (e : string).

Definition validConfigExtensions : list string := ["js"; "mjs"; "cjs"; "json"].

Definition getTypeOfConfig (configPath : string) : Error + string :=
  let lastDotIndex := lastIndexOf "." configPath in
  if lastDotIndex =? -1 then inr "json"
  else
    let configFileExtension := slice configPath (lastDotIndex + 1) in
    if existsb (String.eqb configFileExtension) validConfigExtensions
    then inr configFileExtension
    else inl BadExtension.

Section Loaders.

(** [readJsonConfigFile] and [importConfigFile] read the file system and
    the module loader: what they return for a path, or what they throw. *)
Variable readJsonConfigFile : string -> string + Flags.
Variable importConfigFile : string -> string + Flags.

Definition loaded (r : string + Flags) : Error + Flags :=
  match r with
  | inl e => inl (Loader e)
  | inr f => inr f
  end.

Definition parseConfigFile (configPath : string) : Error + Flags :=
  match getTypeOfConfig configPath with
  | inl e => inl e
  | inr typeOfConfig =>
      if String.eqb typeOfConfig "json" then loaded (readJsonConfigFile configPath)
      else if String.eqb typeOfConfig "js" || String.eqb typeOfConfig "mjs"
              || String.eqb typeOfConfig "cjs"
      then loaded (importConfigFile configPath)
      else inl (Invalid configPath)
  end.

(** [flags.config], which the interface types as a string: [None] when it
    is absent, [undefined] or the empty string (falsy). *)
Definition config_flag (flags : Flags) : option string :=
  match flags !! "config" with
  | Some (V_str (String c s)) => Some (String c s)
  | _ => None
  end.

(** The entries that [getConfig] deletes from the copy of the flags. *)
Definition stripped (value : Value) : bool :=
  match value with
  | V_undefined => true
  | V_arr [] => true
  | _ => false
  end.

Definition getConfig (flags : Flags) : Error + Flags :=
  let configPath := default "linkinator.config.json" (config_flag flags) in
  let config :=
    match config_flag flags with
    | Some _ => parseConfigFile configPath
    | None => inr ∅
    end in
  match config with
  | inl e => inl e
  | inr config =>
      let strippedFlags := filter (fun kv => stripped kv.2 = false) flags in
      (* Object.assign({}, config, strippedFlags) *)
      inr (strippedFlags ∪ config)
  end.

End Loaders.

End ConfigFile.

(* ===================================================================== *)
(** * The options of a check: [processOptions] and the head of [check] *)
(* ===================================================================== *)

Module Path.

(** [s.split(sep)] for a separator of one character. *)
Fixpoint split (sep : ascii) (s : string) : list string :=
  match s with
  | EmptyString => [EmptyString]
  | String c s' =>
      if Ascii.eqb c sep then EmptyString :: split sep s'
      else match split sep s' with
           | [] => [String c EmptyString]
           | x :: l => String c x :: l
           end
  end.

(** [l.join(sep)] *)
Fixpoint join (sep : ascii) (l : list string) : string :=
  match l with
  | [] => EmptyString
  | [x] => x
  | x :: l' => x +:+ String sep (join sep l')
  end.

End Path.

(** What [processOptions] and the head of [check] ask of Node: the [path]
    module, [glob], [fs.stat] and [process.cwd()].  A rejection of [glob] or
    of the web server is outside the model. *)
Class FileSystem : Type := {
  (** [path.sep] *)
  path_sep : ascii;
  (** [path.normalize(p)] *)
  path_normalize : string -> string;
  (** [path.join(a, b)] *)
  path_join : string -> string -> string;
  (** [path.extname(p)] *)
  path_extname : string -> string;
  (** [await glob(pattern)] *)
  glob : string -> list string;
  (** [(await stat(p)).isFile()]; [None] when [stat] rejects. *)
  stat_isFile : string -> option bool;
  (** [process.cwd()] *)
  process_cwd : string;
}.

Module Input.

(** [path: string | string[]] *)
Inductive PathArg : Type :=
| One (path : string)
| Many (paths : list string).

(** The fields of [CheckOptions] that [processOptions] and the head of
    [check] read or write.  The others ([concurrency], [recurse], [timeout],
    [linksToSkip]) are copied as they are. *)
Record t : Type := mk {
  path : PathArg;
  port : option Z;
  markdown : option bool;
  serverRoot : option string;
  directoryListing : option bool;
}.

(** [options.path.length], of the string or of the array. *)
Definition path_length (p : PathArg) : nat :=
  match p with
  | One s => String.length s
  | Many l => length l
  end.

(** [Array.isArray(path) ? path : [path]] *)
Definition as_array (p : PathArg) : list string :=
  match p with
  | One s => [s]
  | Many l => l
  end.

End Input.

(** What [processOptions] throws. *)
Inductive Rejection : Type :=
| NoPath
| MixedPaths
| ServerRootWithUrl
| EmptyGlob (filePath : string)
| StatRejected.

(** The options [startWebServer] is called with. *)
Record WebServer : Type := mkWebServer {
  server_root : option string;
  server_port : Z;
  server_markdown : option bool;
  server_directoryListing : option bool;
}.

Section Prelude.
Context `{FileSystem}.

(** The loop that sets [isUrlType] and refuses mixed paths. *)
Fixpoint scan_types (isUrlType : option bool) (paths : list string)
  : Rejection + option bool :=
  match paths with
  | [] => inr isUrlType
  | path :: paths' =>
      let innerIsUrlType := Js.startsWith path "http" in
      match isUrlType with
      | None => scan_types (Some innerIsUrlType) paths'
      | Some b =>
          if Bool.eqb innerIsUrlType b then scan_types isUrlType paths'
          else inl MixedPaths
      end
  end.

(** [p.split(sep).slice(serverRoot.split(sep).length).join(sep)] *)
Definition contractedPath (serverRoot p : string) : string :=
  Path.join path_sep
    (List.skipn (length (Path.split path_sep serverRoot)) (Path.split path_sep p)).

(** The loop that expands the globs; [serverRoot] is [None] when the
    option is falsy. *)
Fixpoint expand (serverRoot : option string) (paths : list string)
  : Rejection + list string :=
  match paths with
  | [] => inr []
  | filePath :: paths' =>
      let fullPath :=
        match serverRoot with
        | Some root => path_join root filePath
        | None => filePath
        end in
      let expandedPaths := glob fullPath in
      if (length expandedPaths =? 0)%nat then inl (EmptyGlob filePath)
      else
        let here :=
          map (fun p =>
                 let p := path_normalize p in
                 match serverRoot with
                 | Some root => contractedPath root p
                 | None => p
                 end)
              expandedPaths in
        match expand serverRoot paths' with
        | inl e => inl e
        | inr more => inr (here ++ more)%list
        end
  end.

(** The option [serverRoot] when it is truthy. *)
Definition truthy_root (serverRoot : option string) : option string :=
  if Js.truthy_str serverRoot then serverRoot else None.

Definition is_md (p : string) : bool :=
  String.eqb (lowercase (path_extname p)) ".md".

Definition processOptions (opts : Input.t) : Rejection + Input.t :=
  if (Input.path_length (Input.path opts) =? 0)%nat then inl NoPath
  else
    let paths := Input.as_array (Input.path opts) in
    let directoryListing := Some (default false (Input.directoryListing opts)) in
    match scan_types None paths with
    | inl e => inl e
    | inr isUrlType =>
        let isUrlType := default false isUrlType in
        if Js.truthy_str (Input.serverRoot opts) && isUrlType then inl ServerRootWithUrl
        else
          let serverRoot :=
            match truthy_root (Input.serverRoot opts) with
            | Some root => Some (path_normalize root)
            | None => Input.serverRoot opts
            end in
          match (if isUrlType then inr paths else expand (truthy_root serverRoot) paths) with
          | inl e => inl e
          | inr paths =>
              let markdown :=
                match Input.markdown opts with
                | None => if existsb is_md paths then Some true else None
                | Some b => Some b
                end in
              if negb (Js.truthy_str serverRoot) && negb isUrlType then
                if (1 <? length paths)%nat then
                  inr {| Input.path := Input.Many paths;
                         Input.port := Input.port opts;
                         Input.markdown := markdown;
                         Input.serverRoot := Some process_cwd;
                         Input.directoryListing := directoryListing |}
                else
                  match paths with
                  | [] => inl StatRejected
                  | path0 :: _ =>
                      match stat_isFile path0 with
                      | None => inl StatRejected
                      | Some true =>
                          let pathParts := Path.split path_sep path0 in
                          let root :=
                            Path.join path_sep
                              (List.firstn (length pathParts - 1) pathParts) in
                          inr {| Input.path :=
                                   Input.Many
                                     [String path_sep (List.last pathParts EmptyString)];
                                 Input.port := Input.port opts;
                                 Input.markdown := markdown;
                                 Input.serverRoot :=
                                   Some (if Js.truthy_str (Some root) then root else ".");
                                 Input.directoryListing := directoryListing |}
                      | Some false =>
                          inr {| Input.path := Input.One "/";
                                 Input.port := Input.port opts;
                                 Input.markdown := markdown;
                                 Input.serverRoot := Some path0;
                                 Input.directoryListing := directoryListing |}
                      end
                  end
              else
                inr {| Input.path := Input.Many paths;
                       Input.port := Input.port opts;
                       Input.markdown := markdown;
                       Input.serverRoot := serverRoot;
                       Input.directoryListing := directoryListing |}
          end
    end.

(** [options.path[i]] after the rewriting of a file system path. *)
Definition localhost (port : Z) (path : string) : string :=
  let path :=
    match path with
    | String "/" rest => rest
    | _ => path
    end in
  "http://localhost:" +:+ pretty port +:+ "/" +:+ path.

(** The head of [check], up to the creation of the queue: the paths to start
    from and the web server started, if any.  [random] is
    [Math.round(Math.random() * 1000)]. *)
Definition check_paths (random : Z) (opts : Input.t)
  : Rejection + (list string * option WebServer) :=
  match processOptions opts with
  | inl e => inl e
  | inr options =>
      let paths := Input.as_array (Input.path options) in
      let hasHttpPaths := List.find (fun x => Js.startsWith x "http") paths in
      if negb (Js.truthy_str hasHttpPaths) then
        let port :=
          match Input.port options with
          | Some p => if p =? 0 then 5000 + random else p
          | None => 5000 + random
          end in
        inr (map (localhost port) paths,
             Some {| server_root := Input.serverRoot options;
                     server_port := port;
                     server_markdown := Input.markdown options;
                     server_directoryListing := Input.directoryListing options |})
      else inr (paths, None)
  end.

End Prelude.

(** [this.emit('pagestart', url)]: what it does to the shared objects. *)
Definition announced (url : Url.URL) (sh : Shared) : Shared :=
  {| results := results sh;
     cache := cache sh;
     delayCache := delayCache sh;
     queue := queue sh;
     events := events sh ++ [PageStart url] |}.

(** Inputs of the examples, on the platform [Node]. *)
Module Examples.
Import Url.

(** A clock that reads [t] at every [Date.now()]. *)
Definition clock (t : Z) : nat -> Z := fun _ => t.

Definition options (skip : LinksToSkip) (recurse : bool) : CheckOptions.t :=
  {| CheckOptions.concurrency := None;
     CheckOptions.recurse := recurse;
     CheckOptions.timeout := None;
     CheckOptions.linksToSkip := skip |}.

Definition url_of (s : string) : URL :=
  default (mkURL "" None "" "" None) (Node.url_new s None).

(** The task [check] creates for the starting URL [s], with the given
    [crawl] flag. *)
Definition task (s : string) (crawl : bool) : CrawlOptions.t :=
  {| CrawlOptions.url := url_of s;
     CrawlOptions.parent := None;
     CrawlOptions.crawl := crawl;
     CrawlOptions.rootPath := s |}.

Definition response (status : Z) (headers : list (string * string)) (data : string)
  : Gaxios.Response :=
  {| Gaxios.status := status;
     Gaxios.headers := list_to_map headers;
     Gaxios.data := data |}.

(** A run on a small site: the home page, fetched with [recurse] set, links
    to [/ok] (200), to [/bad] (404), to a [mailto:] address and to a text
    that does not resolve. *)
Definition site_options : CheckOptions.t := options (SkipPatterns []) true.

Definition home : string :=
  "<a href='/ok'><a href='/bad'><a href='mailto:x@y'><a href='http://'>".

Definition site_run : list Action :=
  [ Start 0 (clock 0);
    Respond 0 (Gaxios.Resolved (response 200 [("content-type", "text/html")] home)) (clock 0);
    Start 0 (clock 0);
    Start 0 (clock 0);
    Start 0 (clock 0);
    Respond 0 (Gaxios.Resolved (response 200 [] "")) (clock 0);
    Respond 0 (Gaxios.Resolved (response 404 [] "")) (clock 0) ].

Definition site_start : Shared :=
  default empty_shared (@check_enqueue Node.platform ["http://h/"] empty_shared).

Definition site_final : Config :=
  default (mkConfig empty_shared [])
    (@run Node.platform Node.extractor site_options site_run (mkConfig site_start [])).

Definition site_result : CrawlResult.t :=
  default (CrawlResult.mk true [])
    (@check Node.platform Node.extractor site_options ["http://h/"] site_run).

(** A run on a single page that answers 200 without a content type. *)
Definition page_run : list Action :=
  [ Start 0 (clock 0);
    Respond 0 (Gaxios.Resolved (response 200 [] "")) (clock 0) ].

Definition page_result : CrawlResult.t :=
  default (CrawlResult.mk false [])
    (@check Node.platform Node.extractor site_options ["http://h/a"] page_run).

(** A run started from the same URL given twice. *)
Definition twice_run : list Action :=
  [ Start 0 (clock 0);
    Start 0 (clock 0);
    Respond 0 (Gaxios.Resolved (response 200 [] "")) (clock 0);
    Respond 0 (Gaxios.Resolved (response 200 [] "")) (clock 0) ].

Definition twice_start : Shared :=
  default empty_shared
    (@check_enqueue Node.platform ["http://h/a"; "http://h/a"] empty_shared).

Definition twice_final : Config :=
  default (mkConfig empty_shared [])
    (@run Node.platform Node.extractor site_options twice_run (mkConfig twice_start [])).

(** A run with [recurse] over two levels: the home page links to [/a] and
    to another host; [/a], an HTML page, links to [/b]; the page of the
    other host is HTML too. *)
Definition deep_run : list Action :=
  [ Start 0 (clock 0);
    Respond 0 (Gaxios.Resolved
                 (response 200 [("content-type", "text/html")]
                    "<a href='/a'><a href='http://o/x'>")) (clock 0);
    Start 0 (clock 0);
    Start 0 (clock 0);
    Respond 0 (Gaxios.Resolved
                 (response 200 [("content-type", "text/html")] "<a href='/b'>")) (clock 0);
    Respond 0 (Gaxios.Resolved
                 (response 200 [("content-type", "text/html")] "<a href='/c'>")) (clock 0);
    Start 0 (clock 0);
    Respond 0 (Gaxios.Resolved (response 200 [] "")) (clock 0) ].

Definition deep_final : Config :=
  default (mkConfig empty_shared [])
    (@run Node.platform Node.extractor site_options deep_run (mkConfig site_start [])).

(** A file system for the examples, in the POSIX style: every pattern
    matches exactly the file of that name, kept as it is by [normalize]. *)
Definition posix : FileSystem :=
  {| path_sep := "/";
     path_normalize := fun p => p;
     path_join := fun a b => a +:+ "/" +:+ b;
     path_extname := fun p =>
       let i := ConfigFile.lastIndexOf "." p in
       if i =? -1 then "" else ConfigFile.slice p i;
     glob := fun pattern => [pattern];
     stat_isFile := fun _ => Some true;
     process_cwd := "/work" |}.

Definition input (path : Input.PathArg) (serverRoot : option string) : Input.t :=
  {| Input.path := path;
     Input.port := Some 8080;
     Input.markdown := None;
     Input.serverRoot := serverRoot;
     Input.directoryListing := None |}.

End Examples.

(* ===================================================================== *)
(** * [isHtml] *)
(* ===================================================================== *)

Lemma append_cons (c : ascii) (a b : string) : String c a +:+ b = String c (a +:+ b).
Proof. reflexivity. Qed.

Lemma prefix_occurs (p s : string) :
  String.prefix p s = true <-> exists t, s = p +:+ t.
Proof.
  revert s. induction p as [|c p IH]; intros s.
  - split; [intros _; exists s; reflexivity | intros _; destruct s; reflexivity].
  - destruct s as [|d s]; simpl.
    + split; [discriminate | intros [t Ht]; discriminate].
    + destruct (ascii_dec c d) as [->|Hne].
      * rewrite IH. split; intros [t Ht]; exists t;
          rewrite append_cons in *; congruence.
      * split; [discriminate | intros [t Ht]; rewrite append_cons in Ht; congruence].
Qed.

Lemma matches_literal_occurs (p s : string) :
  Js.matches_literal p s = true <-> occurs p s.
Proof.
  unfold occurs. induction s as [|c s IH]; cbn [Js.matches_literal].
  - rewrite orb_false_r, prefix_occurs. split.
    + intros [t Ht]. exists "", t. exact Ht.
    + intros [[|a0 a] [b Hb]]; [exists b; exact Hb | discriminate].
  - rewrite orb_true_iff, prefix_occurs, IH. split.
    + intros [[t Ht] | [a [b Hab]]].
      * exists "", t. exact Ht.
      * exists (String c a), b. rewrite append_cons. now rewrite Hab.
    + intros [[|a0 a] [b Hb]].
      * left. exists b. exact Hb.
      * right. rewrite append_cons in Hb. exists a, b. congruence.
Qed.

(** C6 (amended): [isHtml] is true exactly when the [Content-Type] value,
    read as the empty string when the header is absent, contains the text
    [text/html] or the text [application/xhtml+xml] character for character:
    the match is case-sensitive. *)
Theorem isHtml_iff_occurs (response : Gaxios.Response) :
  isHtml response = true <->
  occurs "text/html" (contentType response)
  \/ occurs "application/xhtml+xml" (contentType response).
Proof.
  unfold isHtml, contentType.
  rewrite orb_true_iff, !matches_literal_occurs. reflexivity.
Qed.

(** C6, as stated, fails: the header value [Text/HTML] contains [text/html]
    under case-insensitive matching, and [isHtml] answers [false]. *)
Lemma isHtml_is_case_sensitive :
  let response := {| Gaxios.status := 200;
                     Gaxios.headers := {[ "content-type" := "Text/HTML" ]};
                     Gaxios.data := "" |} in
  Js.matches_literal "text/html" (lowercase (contentType response)) = true
  /\ isHtml response = false.
Proof. vm_compute. split; reflexivity. Qed.

(* ===================================================================== *)
(** * The skip gates *)
(* ===================================================================== *)

Section Gates.
Context `{Platform} `{Extractor}.
Variable co : CheckOptions.t.
Import Url.

Lemma scheme_gate (opts : CrawlOptions.t) clk i sh :
  is_http (CrawlOptions.url opts) = false ->
  run_sync (crawl co opts) clk i sh = (record (scheme_skipped opts) sh, Ret tt).
Proof.
  unfold is_http, crawl. intros Hp.
  apply orb_false_elim in Hp as [-> ->]. reflexivity.
Qed.

Lemma crawl_filtered_skip (opts : CrawlOptions.t) clk i sh :
  run_sync (crawl_filtered co opts true) clk i sh
  = (record (skipped_result opts) sh, Ret tt).
Proof. reflexivity. Qed.

Lemma predicate_gate (opts : CrawlOptions.t) :
  is_http (CrawlOptions.url opts) = true ->
  CheckOptions.linksToSkip co = SkipFunction ->
  crawl co opts = Await_skip (href (CrawlOptions.url opts)) (crawl_filtered co opts).
Proof.
  unfold is_http, crawl. intros Hp ->.
  destruct (String.eqb (protocol (CrawlOptions.url opts)) "http:"),
           (String.eqb (protocol (CrawlOptions.url opts)) "https:");
    try discriminate; reflexivity.
Qed.

Lemma skips_nonempty (patterns : list string) (h : string) :
  (exists p, In p patterns /\ RegExp_test p h = true) ->
  (0 <? length (skips patterns h))%nat = true.
Proof.
  intros (p & Hin & Hp). unfold skips.
  assert (Hm : In true (List.filter (fun m => m) (map (fun l => RegExp_test l h) patterns))).
  { apply filter_In. split; [|reflexivity]. apply in_map_iff. eauto. }
  destruct (List.filter _ _); [contradiction | reflexivity].
Qed.

Lemma pattern_gate (opts : CrawlOptions.t) (patterns : list string) clk i sh :
  is_http (CrawlOptions.url opts) = true ->
  CheckOptions.linksToSkip co = SkipPatterns patterns ->
  (exists p, In p patterns /\ RegExp_test p (href (CrawlOptions.url opts)) = true) ->
  run_sync (crawl co opts) clk i sh = (record (skipped_result opts) sh, Ret tt).
Proof.
  unfold is_http, crawl, crawl_filtered. intros Hp -> Hm.
  apply skips_nonempty in Hm. rewrite Hm.
  destruct (String.eqb (protocol (CrawlOptions.url opts)) "http:"),
           (String.eqb (protocol (CrawlOptions.url opts)) "https:");
    try discriminate; reflexivity.
Qed.

End Gates.

(** C7 (amended): a URL stopped by one of the three skip gates gets a result
    with state SKIPPED, which is appended to [results] and fired as a [link]
    event, and its task ends there: no request is issued, nothing is
    enqueued, no [pagestart] is fired.  The result of the gate on the scheme
    has status 0; the results of the gates on the predicate and on the
    patterns have no status. *)
Theorem skip_gates `{Platform} `{Extractor} (co : CheckOptions.t) (opts : CrawlOptions.t) :
  let u := CrawlOptions.url opts in
  (is_http u = false ->
   forall clk i sh,
     run_sync (crawl co opts) clk i sh = (record (scheme_skipped opts) sh, Ret tt))
  /\ (is_http u = true -> CheckOptions.linksToSkip co = SkipFunction ->
      crawl co opts = Await_skip (Url.href u) (crawl_filtered co opts)
      /\ forall clk i sh,
           run_sync (crawl_filtered co opts true) clk i sh
           = (record (skipped_result opts) sh, Ret tt))
  /\ (is_http u = true ->
      forall patterns,
        CheckOptions.linksToSkip co = SkipPatterns patterns ->
        (exists p, In p patterns /\ RegExp_test p (Url.href u) = true) ->
        forall clk i sh,
          run_sync (crawl co opts) clk i sh = (record (skipped_result opts) sh, Ret tt))
  /\ (LinkResult.state (scheme_skipped opts) = SKIPPED
      /\ LinkResult.status (scheme_skipped opts) = Some 0)
  /\ (LinkResult.state (skipped_result opts) = SKIPPED
      /\ LinkResult.status (skipped_result opts) = None).
Proof.
  cbv zeta. split; [|split; [|split; [|split]]].
  - intros Hs clk i sh. now apply scheme_gate.
  - intros Hs Hf. split; [now apply predicate_gate|].
    intros clk i sh. apply crawl_filtered_skip.
  - intros Hs patterns Hp Hm clk i sh. now apply pattern_gate with patterns.
  - split; reflexivity.
  - split; reflexivity.
Qed.

(** The three gates of [skip_gates] at work: a [mailto:] link, a predicate
    that answers [true], a pattern that matches. *)
Lemma skip_gates_witness :
  let mail := Examples.task "mailto:x@y" false in
  let page := Examples.task "http://h/skip" false in
  let by_fn := Examples.options SkipFunction false in
  let by_re := Examples.options (SkipPatterns ["skip"]) false in
  results (fst (run_sync (@crawl Node.platform Node.extractor by_re mail)
                  (Examples.clock 0) 0 empty_shared))
    = [scheme_skipped mail]
  /\ results (fst (run_sync (@crawl_filtered Node.platform Node.extractor by_fn page true)
                     (Examples.clock 0) 0 empty_shared))
    = [skipped_result page]
  /\ results (fst (run_sync (@crawl Node.platform Node.extractor by_re page)
                     (Examples.clock 0) 0 empty_shared))
    = [skipped_result page].
Proof.
  intros mail page by_fn by_re.
  pose proof (@skip_gates Node.platform Node.extractor by_re mail) as (Hs & _).
  pose proof (@skip_gates Node.platform Node.extractor by_fn page) as (_ & Hf & _).
  pose proof (@skip_gates Node.platform Node.extractor by_re page) as (_ & _ & Hr & _).
  split; [|split].
  - rewrite (Hs eq_refl). reflexivity.
  - destruct (Hf eq_refl eq_refl) as [_ Hrun]. rewrite Hrun. reflexivity.
  - rewrite (Hr eq_refl ["skip"] eq_refl); [reflexivity|].
    exists "skip". split; [left; reflexivity | reflexivity].
Defined.

(** C7, as stated, fails: the URL [http://h/skip] is skipped by the pattern
    [skip], and the result recorded for it has no status, not status 0. *)
Lemma pattern_skipped_has_no_status :
  let page := Examples.task "http://h/skip" false in
  let by_re := Examples.options (SkipPatterns ["skip"]) false in
  exists r,
    results (fst (run_sync (@crawl Node.platform Node.extractor by_re page)
                    (Examples.clock 0) 0 empty_shared)) = [r]
    /\ LinkResult.state r = SKIPPED
    /\ LinkResult.status r <> Some 0.
Proof.
  eexists. split; [vm_compute; reflexivity|]. split; [reflexivity | discriminate].
Qed.

(* ===================================================================== *)
(** * The probe: requests and their responses *)
(* ===================================================================== *)

Section Probe.
Context `{Platform} `{Extractor}.
Variable co : CheckOptions.t.
Import Url.

(** Without status 429 or without a [retry-after] value, [shouldRetryAfter]
    has no effect and returns 0. *)
Lemma shouldRetryAfter_idle (res : Gaxios.Response) (opts : CrawlOptions.t) :
  Gaxios.status res <> 429 \/ Js.truthy_str (Gaxios.headers res !! "retry-after") = false ->
  shouldRetryAfter (Some res) opts = Ret (Js.Num 0).
Proof.
  intros Hc. unfold shouldRetryAfter.
  destruct Hc as [Hs | ->].
  - apply Z.eqb_neq in Hs. rewrite Hs. reflexivity.
  - rewrite orb_true_r. reflexivity.
Qed.

Lemma isHtml_no_header (res : Gaxios.Response) :
  Gaxios.headers res !! "content-type" = None -> isHtml res = false.
Proof. unfold isHtml. intros ->. reflexivity. Qed.

Lemma crawl_report_not_html (opts : CrawlOptions.t) (res : Gaxios.Response)
    (failures : list Failure) clk i sh :
  isHtml res = false ->
  exists r,
    run_sync (crawl_report co opts (Some res) failures) clk i sh = (record r sh, Ret tt)
    /\ LinkResult.url r = href (CrawlOptions.url opts)
    /\ LinkResult.status r = Some (Gaxios.status res).
Proof.
  intros Hh. unfold crawl_report. rewrite Hh, andb_false_r.
  eexists. split; [reflexivity|]. split; reflexivity.
Qed.

End Probe.

(** C10: a response without a [Content-Type] header is not HTML, and the
    coordinator, whatever the [crawl] flag of the task and the [recurse]
    option, only records the result for it: it appends one result and fires
    its [link] event, fires no [pagestart], leaves the visit cache and the
    queue as they are.  In particular a crawling task whose first response
    is of this kind (and is neither a 405 nor a 429 that reschedules) ends
    there. *)
Theorem no_content_type_no_recursion `{Platform} `{Extractor}
    (co : CheckOptions.t) (opts : CrawlOptions.t) (res : Gaxios.Response) :
  Gaxios.headers res !! "content-type" = None ->
  isHtml res = false
  /\ (forall failures clk i sh,
        exists r,
          run_sync (crawl_report co opts (Some res) failures) clk i sh = (record r sh, Ret tt)
          /\ LinkResult.url r = Url.href (CrawlOptions.url opts)
          /\ LinkResult.status r = Some (Gaxios.status res))
  /\ (CrawlOptions.crawl opts = true ->
      Gaxios.status res <> 405 ->
      Gaxios.status res <> 429
      \/ Js.truthy_str (Gaxios.headers res !! "retry-after") = false ->
      forall clk i sh,
        exists r,
          run_sync (crawl_requested co opts (Gaxios.Resolved res)) clk i sh
          = (record r sh, Ret tt)
          /\ LinkResult.url r = Url.href (CrawlOptions.url opts)
          /\ LinkResult.status r = Some (Gaxios.status res)).
Proof.
  intros Hn. pose proof (isHtml_no_header res Hn) as Hh.
  split; [exact Hh|]. split.
  - intros failures clk i sh. now apply crawl_report_not_html.
  - intros Hcrawl H405 Hretry clk i sh.
    unfold crawl_requested. rewrite shouldRetryAfter_idle by exact Hretry.
    apply Z.eqb_neq in H405. cbn. rewrite H405.
    unfold crawl_retry. rewrite Hcrawl, andb_false_r.
    now apply crawl_report_not_html.
Qed.

(** [no_content_type_no_recursion] on a crawling task with [recurse] set,
    whose page answers 200 with a body full of links and no header. *)
Lemma no_content_type_no_recursion_witness :
  let co := Examples.options (SkipPatterns []) true in
  let opts := Examples.task "http://h/" true in
  let res := Examples.response 200 [] "<a href='/ok'>" in
  let sh := fst (run_sync
                   (@crawl_requested Node.platform Node.extractor co opts (Gaxios.Resolved res))
                   (Examples.clock 0) 0 empty_shared) in
  isHtml res = false /\ length (results sh) = 1%nat /\ length (events sh) = 1%nat
  /\ queue sh = [] /\ cache sh = ∅.
Proof.
  intros co opts res sh.
  destruct (@no_content_type_no_recursion Node.platform Node.extractor co opts res eq_refl)
    as (Hh & _ & Hrun).
  split; [exact Hh|].
  destruct (Hrun eq_refl ltac:(discriminate) ltac:(left; discriminate)
              (Examples.clock 0) 0%nat empty_shared) as (r & Hr & _).
  subst sh. rewrite Hr. split; [reflexivity|]. split; [reflexivity|].
  split; reflexivity.
Defined.

(** The same page served with [Content-Type: text/html]: the coordinator
    fires [pagestart] and enqueues the child. *)
Example html_page_is_crawled :
  let co := Examples.options (SkipPatterns []) true in
  let opts := Examples.task "http://h/" true in
  let res := Examples.response 200 [("content-type", "text/html")] "<a href='/ok'>" in
  let sh := fst (run_sync
                   (@crawl_requested Node.platform Node.extractor co opts (Gaxios.Resolved res))
                   (Examples.clock 0) 0 empty_shared) in
  map (fun e => match e with PageStart u => Url.href u | Link r => "" end) (events sh)
    = [""; "http://h/"]
  /\ map (fun e => Url.href (CrawlOptions.url (fst e))) (queue sh) = ["http://h/ok"]
  /\ elements (cache sh) = ["http://h/ok"].
Proof. vm_compute. split; [reflexivity|]. split; reflexivity. Qed.

(** C8: after a 405 a [GET] is issued whatever the [crawl] flag, and a 2xx
    response to it replaces the first response: the result is OK with the
    new status, the 405 leaves no trace.  But the body is asked for as a
    stream also when the task crawls (the caller wants the body): what is
    delivered then holds a stream object in place of the text, and an HTML
    page obtained this way is announced with [pagestart] while none of its
    links is found: whatever the body, nothing is added to the visit cache
    or to the queue. *)
Theorem fallback_body_is_not_scanned `{Platform} `{Extractor}
    (co : CheckOptions.t) (opts : CrawlOptions.t) (res : Gaxios.Response)
    (status : Z) (headers : gmap string string) (body : string)
    (clk : nat -> Z) (i : nat) (sh : Shared) :
  Gaxios.status res = 405 ->
  200 <= status < 300 ->
  let rq := request_options co opts Gaxios.GET Gaxios.stream in
  let res' := Gaxios.delivered rq status headers body in
  run_sync (crawl_requested co opts (Gaxios.Resolved res)) clk i sh
  = (sh, Await_request rq (crawl_fallback co opts res))
  /\ run_sync (crawl_fallback co opts res (Gaxios.Resolved res')) clk i sh
     = (let recorded := record (reported opts (Some res') []) sh in
        if CrawlOptions.crawl opts && isHtml res'
        then announced (CrawlOptions.url opts) recorded
        else recorded,
        Ret tt).
Proof.
  intros H405 [Hlo Hhi] rq res'. split.
  - unfold crawl_requested.
    rewrite shouldRetryAfter_idle by (left; lia).
    rewrite H405. reflexivity.
  - unfold crawl_fallback.
    rewrite shouldRetryAfter_idle by (left; simpl; lia).
    cbn [mbind mret Prog_bind Prog_ret bind Js.truthy Z.eqb negb].
    unfold crawl_retry. cbn [Gaxios.status res' Gaxios.delivered].
    replace (status <? 200) with false by (symmetry; apply Z.ltb_ge; lia).
    replace (300 <=? status) with false by (symmetry; apply Z.leb_gt; lia).
    cbn [orb andb]. unfold crawl_report, reported.
    cbn [Gaxios.status Gaxios.data res' Gaxios.delivered Gaxios.responseType rq
         request_options].
    replace (200 <=? status) with true by (symmetry; apply Z.leb_le; lia).
    replace (status <? 300) with true by (symmetry; apply Z.ltb_lt; lia).
    cbn [andb]. destruct (CrawlOptions.crawl opts && isHtml _); reflexivity.
Qed.

(** C8, at the failing input: a crawling task for a page with four links
    whose first [GET] answers 405.  The page comes with the second [GET]:
    it is reported OK and announced, and no link of it is followed.  The
    same answer to the first [GET], whose body is asked for as text, has
    three links enqueued. *)
Lemma fallback_body_is_not_scanned_witness :
  let co := Examples.options (SkipPatterns []) true in
  let opts := Examples.task "http://h/" true in
  let res := Examples.response 405 [] "" in
  let page (config : Gaxios.Options) :=
    Gaxios.delivered config 200 {[ "content-type" := "text/html" ]} Examples.home in
  let after405 :=
    fst (run_sync
           (@crawl_fallback Node.platform Node.extractor co opts res
              (Gaxios.Resolved (page (request_options co opts Gaxios.GET Gaxios.stream))))
           (Examples.clock 0) 0 empty_shared) in
  let direct :=
    fst (run_sync
           (@crawl_requested Node.platform Node.extractor co opts
              (Gaxios.Resolved (page (first_request co opts))))
           (Examples.clock 0) 0 empty_shared) in
  map (fun r => (LinkResult.status r, LinkResult.state r)) (results after405)
    = [(Some 200, OK)]
  /\ pagestart_events (events after405) = [CrawlOptions.url opts]
  /\ queue after405 = []
  /\ cache after405 = ∅
  /\ pagestart_events (events direct) = [CrawlOptions.url opts]
  /\ length (queue direct) = 3%nat.
Proof.
  intros co opts res page after405 direct.
  destruct (@fallback_body_is_not_scanned Node.platform Node.extractor co opts res
              200 {[ "content-type" := "text/html" ]} Examples.home
              (Examples.clock 0) 0%nat empty_shared eq_refl)
    as [_ Hrun]; [split; [discriminate | reflexivity]|].
  subst after405 page. cbv beta. rewrite Hrun. clear Hrun.
  split; [vm_compute; reflexivity|]. split; [vm_compute; reflexivity|].
  split; [vm_compute; reflexivity|]. split; [vm_compute; reflexivity|].
  split; vm_compute; reflexivity.
Defined.

(* ===================================================================== *)
(** * [Retry-After] *)
(* ===================================================================== *)

Section RetryAfter.
Context `{Platform} `{Extractor}.
Variable co : CheckOptions.t.
Import Url.

(** What [shouldRetryAfter] does on a 429 with a [retry-after] value whose
    deadline is truthy, followed by the [return] of its caller. *)
Lemma shouldRetryAfter_reschedules (opts : CrawlOptions.t) (res : Gaxios.Response)
    (raw : string) (rest : Prog unit) clk i sh :
  Gaxios.status res = 429 ->
  Gaxios.headers res !! "retry-after" = Some raw ->
  raw <> "" ->
  Js.truthy (retry_deadline raw (clk i)) = true ->
  run_sync (retry ← shouldRetryAfter (Some res) opts;
            if Js.truthy retry then mret tt else rest) clk i sh
  = (rescheduled opts (retry_deadline raw (clk i)) (clk (S i)) sh, Ret tt).
Proof.
  intros Hs Hh Hraw Ht. unfold shouldRetryAfter, rescheduled.
  rewrite Hs, Hh. destruct raw as [|c raw]; [congruence|].
  unfold retry_deadline in *. cbn.
  set (d := if Js.isNaN _ then _ else _) in *.
  destruct (delayCache sh !! host (CrawlOptions.url opts)) as [cur|] eqn:Hcur.
  - rewrite bool_decide_eq_true_2 by eauto. cbn.
    rewrite Hcur. cbn. destruct (Js.gt d cur) eqn:Hgt; cbn; rewrite Ht; cbn; rewrite Ht.
    + reflexivity.
    + rewrite insert_id by exact Hcur. reflexivity.
  - rewrite bool_decide_eq_false_2 by (intros [? ?]; congruence).
    cbn. rewrite Ht. cbn. rewrite Ht. reflexivity.
Qed.

End RetryAfter.

(** C4 (amended): at each of the three places where a response arrives, a
    response with status 429 and a [retry-after] value whose deadline is
    neither [NaN] nor 0 (a number of seconds added to the clock, or else
    the time of the date) makes the coordinator leave in the delay cache,
    for the host, the deadline computed unless the host has an entry that
    the deadline does not exceed, which is then kept; add the same task to
    the queue again, with delay deadline minus clock; and return: no
    result is appended, no event is fired. *)
Theorem retry_after_reschedules `{Platform} `{Extractor}
    (co : CheckOptions.t) (opts : CrawlOptions.t) (res : Gaxios.Response) (raw : string)
    (clk : nat -> Z) (i : nat) (sh : Shared) :
  Gaxios.status res = 429 ->
  Gaxios.headers res !! "retry-after" = Some raw ->
  raw <> "" ->
  Js.truthy (retry_deadline raw (clk i)) = true ->
  let sh' := rescheduled opts (retry_deadline raw (clk i)) (clk (S i)) sh in
  run_sync (crawl_requested co opts (Gaxios.Resolved res)) clk i sh = (sh', Ret tt)
  /\ (forall res0,
        run_sync (crawl_fallback co opts res0 (Gaxios.Resolved res)) clk i sh = (sh', Ret tt))
  /\ (forall res0 failures,
        run_sync (crawl_retried co opts res0 failures (Gaxios.Resolved res)) clk i sh
        = (sh', Ret tt))
  /\ results sh' = results sh /\ events sh' = events sh.
Proof.
  intros Hs Hh Hraw Ht sh'. subst sh'.
  split; [|split; [|split]].
  - unfold crawl_requested. now apply shouldRetryAfter_reschedules.
  - intros res0. unfold crawl_fallback. now apply shouldRetryAfter_reschedules.
  - intros res0 failures. unfold crawl_retried. now apply shouldRetryAfter_reschedules.
  - split; reflexivity.
Qed.

(** [retry_after_reschedules] on [Retry-After: 1] read at time 0, and on an
    HTTP-date ten seconds ahead of the clock. *)
Lemma retry_after_reschedules_witness :
  let co := Examples.options (SkipPatterns []) false in
  let opts := Examples.task "http://h/a" false in
  let secs := Examples.response 429 [("retry-after", "1")] "" in
  let date := Examples.response 429 [("retry-after", "Wed, 21 Oct 2015 07:28:00 GMT")] "" in
  run_sync (@crawl_requested Node.platform Node.extractor co opts (Gaxios.Resolved secs))
    (Examples.clock 0) 0 empty_shared
  = ({| results := []; cache := ∅; delayCache := {[ "h" := Js.Num 1000 ]};
        queue := [(opts, Some (Js.Num 1000))]; events := [] |}, Ret tt)
  /\ run_sync (@crawl_requested Node.platform Node.extractor co opts (Gaxios.Resolved date))
       (Examples.clock 1445412470000) 0 empty_shared
     = ({| results := []; cache := ∅; delayCache := {[ "h" := Js.Num 1445412480000 ]};
           queue := [(opts, Some (Js.Num 10000))]; events := [] |}, Ret tt).
Proof.
  intros co opts secs date. split.
  - refine (proj1 (@retry_after_reschedules Node.platform Node.extractor co opts secs "1"
                     (Examples.clock 0) 0%nat empty_shared _ _ _ _));
      [reflexivity | reflexivity | discriminate | reflexivity].
  - refine (proj1 (@retry_after_reschedules Node.platform Node.extractor co opts date
                     "Wed, 21 Oct 2015 07:28:00 GMT"
                     (Examples.clock 1445412470000) 0%nat empty_shared _ _ _ _));
      [reflexivity | reflexivity | discriminate | reflexivity].
Defined.

(** C4, as stated, fails: the host already has the deadline 5000 in the
    delay cache; a 429 with [Retry-After: 1] read at time 0 computes the
    deadline 1000, which is not recorded: the entry stays 5000. *)
Lemma earlier_deadline_is_not_recorded :
  let co := Examples.options (SkipPatterns []) false in
  let opts := Examples.task "http://h/a" false in
  let res := Examples.response 429 [("retry-after", "1")] "" in
  let sh := {| results := []; cache := ∅; delayCache := {[ "h" := Js.Num 5000 ]};
               queue := []; events := [] |} in
  @retry_deadline Node.platform "1" 0 = Js.Num 1000
  /\ delayCache
       (fst (run_sync (@crawl_requested Node.platform Node.extractor co opts (Gaxios.Resolved res))
               (Examples.clock 0) 0 sh)) !! "h"
     = Some (Js.Num 5000).
Proof. split; vm_compute; reflexivity. Qed.

(** A [retry-after] date whose time is 0 is a falsy deadline: the task is
    not rescheduled and a result is recorded for the 429. *)
Example epoch_deadline_is_not_rescheduled :
  let co := Examples.options (SkipPatterns []) true in
  let opts := Examples.task "http://h/a" true in
  let res := Examples.response 429 [("retry-after", "Thu, 01 Jan 1970 00:00:00 GMT")] "" in
  let sh := fst (run_sync
                   (@crawl_requested Node.platform Node.extractor co opts (Gaxios.Resolved res))
                   (Examples.clock 7) 0 empty_shared) in
  queue sh = []
  /\ map LinkResult.status (results sh) = [Some 429]
  /\ map LinkResult.state (results sh) = [BROKEN].
Proof. vm_compute. repeat split. Qed.

(** C5, at the failing input: a 429 whose [retry-after] value [soon] is
    neither a number nor a date, for a host without an entry.  The result
    is BROKEN with status 429 and the task is not rescheduled, but the
    delay cache now holds [NaN] for the host. *)
Lemma unparseable_retry_after_records_NaN :
  let co := Examples.options (SkipPatterns []) true in
  let opts := Examples.task "http://h/a" true in
  let res := Examples.response 429 [("retry-after", "soon")] "" in
  let sh := fst (run_sync
                   (@crawl_requested Node.platform Node.extractor co opts (Gaxios.Resolved res))
                   (Examples.clock 7) 0 empty_shared) in
  Node.parse_number "soon" = Js.NaN
  /\ Node.parse_date "soon" = Js.NaN
  /\ map LinkResult.status (results sh) = [Some 429]
  /\ map LinkResult.state (results sh) = [BROKEN]
  /\ queue sh = []
  /\ delayCache sh !! "h" = Some Js.NaN.
Proof. vm_compute. repeat split. Qed.

(* ===================================================================== *)
(** * The link extractor *)
(* ===================================================================== *)

Section Extraction.
Context `{Platform}.
Import Url.

Lemma nonempty_In (link : string) (links : list (option string)) :
  In link (Links.nonempty links) <-> In (Some link) links /\ link <> "".
Proof.
  unfold Links.nonempty. induction links as [|[[|c l]|] links IH]; simpl.
  - tauto.
  - rewrite IH. split; [tauto|]. intros [[Heq | Hin] Hne]; [congruence | tauto].
  - rewrite IH. split.
    + intros [<- | [Hin Hne]]; [split; [now left | discriminate] | tauto].
    + intros [[Heq | Hin] Hne]; [left; congruence | tauto].
  - rewrite IH. split; [tauto|]. intros [[Heq | Hin] Hne]; [discriminate | tauto].
Qed.

Lemma set_hash_empty (u : URL) :
  fragment (set_hash u "") = None /\ hash (set_hash u "") = "".
Proof. split; reflexivity. Qed.

Lemma normalizeLink_cases (link baseUrl : string) :
  match URL_new link (Some baseUrl) with
  | Some u =>
      Links.normalizeLink link baseUrl = href (set_hash u "")
      /\ Links.normalizeLink_spec link baseUrl
         = {| ParsedUrl.link := link; ParsedUrl.url := Some (set_hash u "") |}
  | None =>
      Links.normalizeLink link baseUrl = link
      /\ Links.normalizeLink_spec link baseUrl
         = {| ParsedUrl.link := link; ParsedUrl.url := None |}
  end.
Proof.
  unfold Links.normalizeLink, Links.normalizeLink_spec.
  destruct (URL_new link (Some baseUrl)); split; reflexivity.
Qed.

End Extraction.

(** C9 (amended): the values [getLinks] emits are exactly these: for every
    non-empty attribute value collected from the document, its resolution
    against the base URL with the fragment removed, serialised (the URL has
    no fragment and an empty [hash]); or, when resolution fails, the
    attribute value itself, unchanged, as a bare string: no pair, and
    nothing that marks the URL as absent. *)
Theorem getLinks_emits `{Platform} (source baseUrl x : string) :
  In x (Links.getLinks source baseUrl) <->
  exists link,
    In (Some link) (Links.collect (cheerio_load source))
    /\ link <> ""
    /\ match URL_new link (Some baseUrl) with
       | Some u =>
           x = Url.href (Url.set_hash u "")
           /\ Url.fragment (Url.set_hash u "") = None
           /\ Url.hash (Url.set_hash u "") = ""
       | None => x = link
       end.
Proof.
  unfold Links.getLinks. rewrite in_map_iff. split.
  - intros (link & Hx & Hin). apply nonempty_In in Hin as [Hin Hne].
    exists link. split; [exact Hin|]. split; [exact Hne|].
    pose proof (normalizeLink_cases link baseUrl) as Hc.
    destruct (URL_new link (Some baseUrl)) as [u|].
    + destruct Hc as [Hn _]. split; [congruence|]. apply set_hash_empty.
    + destruct Hc as [Hn _]. congruence.
  - intros (link & Hin & Hne & Hc). exists link.
    split; [|apply nonempty_In; tauto].
    pose proof (normalizeLink_cases link baseUrl) as Hc'.
    destruct (URL_new link (Some baseUrl)) as [u|].
    + destruct Hc as [-> _]. tauto.
    + subst x. tauto.
Qed.

(** The extractor on a document with a fragment-carrying link, an empty
    attribute and a link that does not resolve. *)
Example getLinks_sample :
  @Links.getLinks Node.platform
    "<a href='http://x/y#z'><img src=''><a href='/p?q=1#top'><a href='http://'>" "http://h/"
  = ["http://x/y"; "http://h/p?q=1"; "http://"].
Proof. vm_compute. reflexivity. Qed.

(** C9, as stated, fails: [http://] does not resolve.  The pair of the
    specification has no URL for it; [getLinks] emits the text itself among
    the URL strings, so the URLs it emits are not the URLs of the pairs. *)
Lemma unresolved_link_is_emitted_as_url :
  let source := "<a href='http://'>" in
  Node.url_new "http://" (Some "http://h/") = None
  /\ @Links.getLinks Node.platform source "http://h/" = ["http://"]
  /\ @Links.getLinks_spec Node.platform source "http://h/"
     = [{| ParsedUrl.link := "http://"; ParsedUrl.url := None |}]
  /\ map Some (@Links.getLinks Node.platform source "http://h/")
     <> map (fun item => Url.href <$> ParsedUrl.url item)
            (@Links.getLinks_spec Node.platform source "http://h/").
Proof.
  split; [reflexivity|]. split; [reflexivity|]. split; [reflexivity|].
  vm_compute. discriminate.
Qed.

(* ===================================================================== *)
(** * Every result of a run is classified *)
(* ===================================================================== *)

Section Classification.
Context `{Platform} `{Extractor}.
Variable co : CheckOptions.t.
Variable P : LinkResult.t -> Prop.

Lemma Pushes_bind {A B : Type} (m : Prog A) (f : A -> Prog B) :
  Pushes P m -> (forall a, Pushes P (f a)) -> Pushes P (m ≫= f).
Proof.
  intros Hm Hf. unfold mbind, Prog_bind.
  induction Hm; simpl; try (constructor; auto); auto.
Qed.

Lemma Pushes_forOf {A : Type} (l : list A) (body : A -> Prog unit) :
  (forall x, Pushes P (body x)) -> Pushes P (forOf l body).
Proof.
  intros Hb. induction l as [|x l IH]; simpl.
  - constructor.
  - apply Pushes_bind; auto.
Qed.

Lemma run_sync_Pushes {A : Type} (p : Prog A) :
  Pushes P p ->
  forall clk i sh,
    Forall P (results sh) ->
    Forall P (results (fst (run_sync p clk i sh))) /\ Pushes P (snd (run_sync p clk i sh)).
Proof.
  induction 1; intros clk i sh Hsh; simpl;
    try (split; [assumption | constructor; assumption]); auto.
  apply IHPushes. simpl. apply Forall_app. split; [assumption | repeat constructor; assumption].
Qed.

End Classification.

(** Decomposes a goal [Pushes P p] along the structure of [p]. *)
Ltac pushes :=
  repeat first
    [ assumption
    | apply Pushes_bind; [|intros]
    | match goal with
      | |- Pushes _ (mret _) => apply Pushes_Ret
      | |- Pushes _ (if ?b then _ else _) => destruct b
      | |- Pushes _ (match ?x with _ => _ end) => destruct x
      | |- Pushes _ _ => constructor; intros
      end ].

Section ClassifiedCrawl.
Context `{Platform} `{Extractor}.
Variable co : CheckOptions.t.

Lemma shouldRetryAfter_Pushes (P : LinkResult.t -> Prop) res opts :
  Pushes P (shouldRetryAfter res opts).
Proof. unfold shouldRetryAfter. pushes. Qed.

Lemma classified_not_ok (r : LinkResult.t) :
  LinkResult.state r <> OK ->
  (forall s, LinkResult.status r = Some s -> ~ 200 <= s < 300) ->
  classified r.
Proof.
  intros Hs Hr. split; [contradiction|]. intros (s & Hst & Hrange). now elim (Hr s).
Qed.

Lemma crawl_link_classified opts item : Pushes classified (crawl_link co opts item).
Proof.
  unfold crawl_link. pushes.
  apply classified_not_ok; simpl; [discriminate|]. intros s [= <-]. lia.
Qed.

Lemma crawl_report_classified opts res failures :
  Pushes classified (crawl_report co opts res failures).
Proof.
  unfold crawl_report.
  set (status := match res with Some r => Gaxios.status r | None => 0 end).
  destruct ((200 <=? status) && (status <? 300)) eqn:Hok.
  - apply andb_prop in Hok as [H1 H2]. apply Z.leb_le in H1. apply Z.ltb_lt in H2.
    pushes; try apply Pushes_forOf; try (intros; apply crawl_link_classified).
    all: split; [intros _; exists status; split; [reflexivity | lia] | reflexivity].
  - pushes; try apply Pushes_forOf; try (intros; apply crawl_link_classified).
    all: apply classified_not_ok; simpl; [discriminate|]; intros s [= <-];
      apply andb_false_iff in Hok as [Hf | Hf];
      [apply Z.leb_gt in Hf | apply Z.ltb_ge in Hf]; lia.
Qed.

Lemma crawl_retried_classified opts res failures o :
  Pushes classified (crawl_retried co opts res failures o).
Proof.
  unfold crawl_retried. destruct o.
  - apply Pushes_bind; [apply shouldRetryAfter_Pushes|]. intros a.
    destruct (Js.truthy a); [constructor | apply crawl_report_classified].
  - apply crawl_report_classified.
Qed.

Lemma crawl_retry_classified opts res failures :
  Pushes classified (crawl_retry co opts res failures).
Proof.
  unfold crawl_retry.
  destruct (_ && _); [|apply crawl_report_classified].
  constructor. intros o. apply crawl_retried_classified.
Qed.

Lemma crawl_fallback_classified opts res o :
  Pushes classified (crawl_fallback co opts res o).
Proof.
  unfold crawl_fallback. destruct o; [|apply crawl_retry_classified].
  apply Pushes_bind; [apply shouldRetryAfter_Pushes|]. intros a.
  destruct (Js.truthy a); [constructor | apply crawl_retry_classified].
Qed.

Lemma crawl_requested_classified opts o :
  Pushes classified (crawl_requested co opts o).
Proof.
  unfold crawl_requested. destruct o; [|apply crawl_retry_classified].
  apply Pushes_bind; [apply shouldRetryAfter_Pushes|]. intros a.
  destruct (Js.truthy a); [constructor|].
  destruct (_ =? _); [|apply crawl_retry_classified].
  constructor. intros o. apply crawl_fallback_classified.
Qed.

Lemma crawl_delay_classified opts : Pushes classified (crawl_delay co opts).
Proof.
  assert (Hr : Pushes classified (crawl_request co opts)).
  { constructor. intros o. apply crawl_requested_classified. }
  unfold crawl_delay. pushes.
Qed.

Lemma crawl_classified opts : Pushes classified (crawl co opts).
Proof.
  pose proof (crawl_delay_classified opts) as Hd.
  unfold crawl, crawl_filtered. pushes.
  all: apply classified_not_ok; simpl; [discriminate|]; intros s; try discriminate.
  all: intros [= <-]; lia.
Qed.

End ClassifiedCrawl.

Section ClassifiedRun.
Context `{Platform} `{Extractor}.
Variable co : CheckOptions.t.

Lemma Forall_started (Q : Thread -> Prop) rs t p :
  Forall Q rs -> Q (t, p) -> Forall Q (started rs t p).
Proof.
  intros Hrs Hq. unfold started.
  destruct p; try (apply Forall_app; split; [assumption | repeat constructor; assumption]).
  assumption.
Qed.

Lemma Forall_resumed (Q : Thread -> Prop) rs j t p :
  Forall Q rs -> Q (t, p) -> Forall Q (resumed rs j t p).
Proof.
  intros Hrs Hq. unfold resumed.
  destruct p; try (apply Forall_insert; assumption).
  apply Forall_delete. assumption.
Qed.

Lemma step_classified c a c' :
  classified_config c -> step co c a = Some c' -> classified_config c'.
Proof.
  intros [Hres Hrun] Hstep. destruct a as [i clk | j o clk | j b clk]; simpl in Hstep.
  - destruct (bool_decide _); [|discriminate].
    destruct (queue (shared c) !! i) as [[t d]|]; [|discriminate].
    destruct (run_sync (crawl co t) clk 0 _) as [sh p] eqn:Hrs.
    injection Hstep as <-.
    pose proof (run_sync_Pushes classified (crawl co t) (crawl_classified co t) clk 0%nat
                  (with_queue (shared c) (delete i (queue (shared c)))) Hres) as [H1 H2].
    rewrite Hrs in H1, H2. split; simpl; [assumption|].
    apply Forall_started; assumption.
  - destruct (running c !! j) as [[t p]|] eqn:Hj; [|discriminate].
    destruct p; try discriminate.
    destruct (run_sync (k o) clk 0 (shared c)) as [sh p] eqn:Hrs.
    injection Hstep as <-.
    assert (Hk : Pushes classified (k o)).
    { eapply Forall_lookup_1 in Hrun; [|exact Hj]. simpl in Hrun.
      inversion Hrun; subst. auto. }
    pose proof (run_sync_Pushes classified (k o) Hk clk 0%nat (shared c) Hres) as [H1 H2].
    rewrite Hrs in H1, H2. split; simpl; [assumption|].
    apply Forall_resumed; assumption.
  - destruct (running c !! j) as [[t p]|] eqn:Hj; [|discriminate].
    destruct p; try discriminate.
    destruct (run_sync (k b) clk 0 (shared c)) as [sh p] eqn:Hrs.
    injection Hstep as <-.
    assert (Hk : Pushes classified (k b)).
    { eapply Forall_lookup_1 in Hrun; [|exact Hj]. simpl in Hrun.
      inversion Hrun; subst. auto. }
    pose proof (run_sync_Pushes classified (k b) Hk clk 0%nat (shared c) Hres) as [H1 H2].
    rewrite Hrs in H1, H2. split; simpl; [assumption|].
    apply Forall_resumed; assumption.
Qed.

End ClassifiedRun.

Section Runs.
Context `{Platform} `{Extractor}.
Variable co : CheckOptions.t.

Lemma check_enqueue_results paths sh sh' :
  check_enqueue paths sh = Some sh' -> results sh' = results sh.
Proof.
  revert sh. induction paths as [|path paths IH]; intros sh; simpl.
  - now intros [= ->].
  - destruct (URL_new path None); [|discriminate]. intros Hc. now apply IH in Hc.
Qed.

Lemma run_classified acts c c' :
  classified_config c -> run co acts c = Some c' -> classified_config c'.
Proof.
  revert c. induction acts as [|a acts IH]; intros c Hc; simpl.
  - now intros [= <-].
  - destruct (step co c a) as [c1|] eqn:Hs; [|discriminate].
    apply IH. eapply step_classified; eauto.
Qed.

Lemma count_broken_filter (l : list LinkResult.t) :
  length (List.filter (fun x => bool_decide (LinkResult.state x = BROKEN)) l)
  = count_broken l.
Proof.
  induction l as [|r l IH]; simpl; [reflexivity|].
  destruct (LinkResult.state r); simpl; auto.
Qed.

End Runs.

(** C2: in every configuration a run reaches, each result recorded has state
    OK exactly when it has a status and the status is in 200..299; a result
    with status 0, with a status off that range or without status is not
    OK. *)
Theorem results_are_classified `{Platform} `{Extractor}
    (co : CheckOptions.t) (paths : list string) (acts : list Action) (sh : Shared) (c : Config) :
  check_enqueue paths empty_shared = Some sh ->
  run co acts {| shared := sh; running := [] |} = Some c ->
  Forall classified (results (shared c)).
Proof.
  intros Hstart Hrun.
  apply (run_classified co acts {| shared := sh; running := [] |} c); [|exact Hrun].
  split; simpl; [|constructor].
  apply check_enqueue_results in Hstart. rewrite Hstart. constructor.
Qed.

(** [results_are_classified] on the run over the small site: five results,
    among them a 404, a skipped [mailto:] and an unresolved link. *)
Lemma results_are_classified_witness :
  length (results (shared Examples.site_final)) = 5%nat
  /\ Forall classified (results (shared Examples.site_final)).
Proof.
  split; [vm_compute; reflexivity|].
  apply (@results_are_classified Node.platform Node.extractor Examples.site_options
           ["http://h/"] Examples.site_run Examples.site_start Examples.site_final);
    vm_compute; reflexivity.
Defined.

(** C3: when [check] returns, [passed] is true exactly when no result of
    [links] has state BROKEN. *)
Theorem passed_iff_no_broken `{Platform} `{Extractor}
    (co : CheckOptions.t) (paths : list string) (acts : list Action) (r : CrawlResult.t) :
  check co paths acts = Some r ->
  (CrawlResult.passed r = true <-> count_broken (CrawlResult.links r) = 0%nat).
Proof.
  unfold check. intros Hc.
  destruct (check_enqueue paths empty_shared) as [sh|]; [|discriminate].
  destruct (run co acts _) as [c|]; [|discriminate].
  destruct (idle c); [|discriminate].
  injection Hc as <-. unfold check_result. simpl.
  rewrite count_broken_filter. apply Nat.eqb_eq.
Qed.

(** [passed_iff_no_broken] on the run over the small site, which has two
    BROKEN results and does not pass, and on a single page that answers 200,
    which passes. *)
Lemma passed_iff_no_broken_witness :
  (CrawlResult.passed Examples.site_result = false
   /\ count_broken (CrawlResult.links Examples.site_result) = 2%nat
   /\ (CrawlResult.passed Examples.site_result = true
       <-> count_broken (CrawlResult.links Examples.site_result) = 0%nat))
  /\ (CrawlResult.passed Examples.page_result = true
      /\ (CrawlResult.passed Examples.page_result = true
          <-> count_broken (CrawlResult.links Examples.page_result) = 0%nat)).
Proof.
  split.
  - split; [vm_compute; reflexivity|]. split; [vm_compute; reflexivity|].
    apply (@passed_iff_no_broken Node.platform Node.extractor Examples.site_options
             ["http://h/"] Examples.site_run Examples.site_result).
    vm_compute; reflexivity.
  - split; [vm_compute; reflexivity|].
    apply (@passed_iff_no_broken Node.platform Node.extractor Examples.site_options
             ["http://h/a"] Examples.page_run Examples.page_result).
    vm_compute; reflexivity.
Defined.

(* ===================================================================== *)
(** * One result for every visited URL *)
(* ===================================================================== *)

Section Accounting.
Context `{Platform} `{Extractor}.
Variable co : CheckOptions.t.
Import Url.

Lemma Done_bind {A B : Type} (m : Prog A) (f : A -> Prog B) :
  Done m -> (forall a, Done (f a)) -> Done (m ≫= f).
Proof.
  intros Hm Hf. unfold mbind, Prog_bind.
  induction Hm as [a | e k Hk IH | r k Hr Hk IH | v k child k' Ht IHt Hf' Hv Hk' IHk'];
    simpl.
  - apply Hf.
  - constructor. exact IH.
  - constructor; assumption.
  - apply Done_Cache_has with child (bind k' f); [exact IHt | | exact Hv | exact IHk'].
    rewrite Hf'. reflexivity.
Qed.

Lemma Done_forOf {A : Type} (l : list A) (body : A -> Prog unit) :
  (forall x, Done (body x)) -> Done (forOf l body).
Proof.
  intros Hb. induction l as [|x l IH]; simpl.
  - constructor.
  - apply Done_bind; auto.
Qed.

Lemma crawl_link_Done opts item : Done (crawl_link co opts item).
Proof.
  unfold crawl_link. destruct (ParsedUrl.url item) as [url|].
  - cbn. eapply Done_Cache_has; [constructor | reflexivity | reflexivity | constructor].
  - cbn. constructor; [reflexivity|]. repeat constructor.
Qed.

Lemma crawl_report_Pending opts res failures :
  Pending opts (crawl_report co opts res failures).
Proof.
  unfold crawl_report. cbn.
  apply Pending_own; [reflexivity | |].
  - unfold unresolved. apply bool_decide_eq_false_2. simpl. intros [_ Hf]. discriminate.
  - constructor. destruct (_ && _); [|constructor].
    cbn. constructor. apply Done_forOf. intros x. apply crawl_link_Done.
Qed.

(** [shouldRetryAfter] followed by the [return] of its caller: the task is
    added to the queue again exactly when the caller returns. *)
Lemma shouldRetryAfter_Pending opts res rest :
  Pending opts rest ->
  Pending opts (retry ← shouldRetryAfter res opts;
                if Js.truthy retry then mret tt else rest).
Proof.
  intros Hrest. unfold shouldRetryAfter.
  destruct res as [res|]; [|exact Hrest].
  destruct (negb _ || negb _); [exact Hrest|].
  cbn. constructor. intros now. set (d := if Js.isNaN _ then _ else _).
  assert (Htail : Pending opts
            (bind ((if Js.truthy d
                    then Date_now (fun n => Op.queue_add opts (Some (Js.sub d (Js.Num n))))
                    else mret tt) ≫= fun _ => mret d)
               (fun retry => if Js.truthy retry then mret tt else rest))).
  { destruct (Js.truthy d) eqn:Ht; cbn; rewrite ?Ht.
    - constructor. intros n. apply Pending_again. constructor.
    - exact Hrest. }
  constructor. intros [|]; cbn.
  - constructor. intros o. destruct (Js.gt d (Js.toNumber o)); cbn.
    + constructor. exact Htail.
    + exact Htail.
  - constructor. exact Htail.
Qed.

Lemma crawl_retried_Pending opts res failures o :
  Pending opts (crawl_retried co opts res failures o).
Proof.
  unfold crawl_retried. destruct o.
  - apply shouldRetryAfter_Pending, crawl_report_Pending.
  - apply crawl_report_Pending.
Qed.

Lemma crawl_retry_Pending opts res failures :
  Pending opts (crawl_retry co opts res failures).
Proof.
  unfold crawl_retry. destruct (_ && _); [|apply crawl_report_Pending].
  cbn. constructor. intros o. apply crawl_retried_Pending.
Qed.

Lemma crawl_fallback_Pending opts res o :
  Pending opts (crawl_fallback co opts res o).
Proof.
  unfold crawl_fallback. destruct o.
  - apply shouldRetryAfter_Pending, crawl_retry_Pending.
  - apply crawl_retry_Pending.
Qed.

Lemma crawl_requested_Pending opts o :
  Pending opts (crawl_requested co opts o).
Proof.
  unfold crawl_requested. destruct o; [|apply crawl_retry_Pending].
  apply shouldRetryAfter_Pending.
  destruct (_ =? _); [|apply crawl_retry_Pending].
  cbn. constructor. intros o. apply crawl_fallback_Pending.
Qed.

Lemma crawl_request_Pending opts : Pending opts (crawl_request co opts).
Proof. unfold crawl_request. cbn. constructor. intros o. apply crawl_requested_Pending. Qed.

Lemma crawl_delay_Pending opts : Pending opts (crawl_delay co opts).
Proof.
  pose proof (crawl_request_Pending opts) as Hr.
  unfold crawl_delay. cbn. constructor. intros [|]; [|exact Hr].
  cbn. constructor. intros timeout. constructor. intros now.
  destruct (Js.gt _ _); cbn.
  - constructor. intros now'. apply Pending_again. constructor.
  - constructor. exact Hr.
Qed.

Lemma crawl_filtered_Pending opts skip : Pending opts (crawl_filtered co opts skip).
Proof.
  unfold crawl_filtered.
  destruct skip; [apply Pending_own; [reflexivity | reflexivity | repeat constructor]|].
  destruct (match CheckOptions.linksToSkip co with SkipPatterns _ => _ | SkipFunction => _ end).
  - apply Pending_own; [reflexivity | reflexivity | repeat constructor].
  - apply crawl_delay_Pending.
Qed.

Lemma crawl_Pending opts : Pending opts (crawl co opts).
Proof.
  unfold crawl. destruct (_ && _).
  - apply Pending_own; [reflexivity | reflexivity | repeat constructor].
  - destruct (CheckOptions.linksToSkip co).
    + apply crawl_filtered_Pending.
    + cbn. constructor. intros b. apply crawl_filtered_Pending.
Qed.

(** ** Counting *)

Lemma count_if_app {A : Type} (f : A -> bool) (l1 l2 : list A) :
  count_if f (l1 ++ l2) = (count_if f l1 + count_if f l2)%nat.
Proof. unfold count_if. now rewrite List.filter_app, length_app. Qed.

Lemma count_if_cons {A : Type} (f : A -> bool) (x : A) (l : list A) :
  count_if f (x :: l) = (one_if (f x) + count_if f l)%nat.
Proof. unfold count_if. simpl. destruct (f x); reflexivity. Qed.

Lemma count_if_snoc {A : Type} (f : A -> bool) (l : list A) (x : A) :
  count_if f (l ++ [x]) = (count_if f l + one_if (f x))%nat.
Proof. rewrite count_if_app, count_if_cons. unfold count_if. simpl. lia. Qed.

Lemma count_if_delete {A : Type} (f : A -> bool) (l : list A) (i : nat) (x : A) :
  l !! i = Some x -> count_if f l = (count_if f (delete i l) + one_if (f x))%nat.
Proof.
  intros Hi. rewrite delete_take_drop.
  rewrite <- (take_drop_middle l i x Hi) at 1.
  rewrite !count_if_app, count_if_cons. lia.
Qed.

Lemma count_if_insert {A : Type} (f : A -> bool) (l : list A) (i : nat) (x y : A) :
  l !! i = Some x ->
  count_if f (<[ i := y ]> l) = (count_if f (delete i l) + one_if (f y))%nat.
Proof.
  intros Hi. rewrite delete_take_drop.
  rewrite insert_take_drop by (eapply lookup_lt_Some; eauto).
  rewrite !count_if_app, count_if_cons. lia.
Qed.

Lemma balance_ext (e1 e2 : string -> nat) sh :
  (forall s, e1 s = e2 s) -> balance e1 sh -> balance e2 sh.
Proof. intros He Hb s. rewrite <- He. apply Hb. Qed.

(** ** What a stretch of a task does to the books *)

Lemma run_sync_Done {A : Type} (p : Prog A) :
  Done p ->
  forall clk i sh extra,
    balance extra sh ->
    balance extra (fst (run_sync p clk i sh))
    /\ exists a, snd (run_sync p clk i sh) = Ret a.
Proof.
  induction 1 as [a | e k Hk IH | r k Hr Hk IH | v k child k' Ht IHt Hf Hv Hk' IHk'];
    intros clk i sh extra Hb; simpl.
  - split; [exact Hb | eauto].
  - apply IH. exact Hb.
  - apply IH. intros s. specialize (Hb s). simpl.
    unfold settled in *. rewrite count_if_snoc, Hr, andb_false_r. simpl. lia.
  - destruct (bool_decide (v ∈ cache sh)) eqn:Hin.
    + apply IHt. exact Hb.
    + rewrite Hf. simpl. apply IHk'. intros s. specialize (Hb s). simpl.
      unfold queued in *. rewrite count_if_snoc. simpl. rewrite Hv.
      apply bool_decide_eq_false in Hin.
      destruct (String.eqb_spec v s) as [<- | Hne].
      * rewrite bool_decide_eq_false_2 in Hb by exact Hin.
        rewrite bool_decide_eq_true_2
          by (apply elem_of_union; left; now apply elem_of_singleton).
        simpl in *. lia.
      * rewrite (bool_decide_ext (s ∈ {[v]} ∪ cache sh) (s ∈ cache sh)).
        -- simpl. lia.
        -- rewrite elem_of_union, elem_of_singleton. split; [|tauto].
           intros [-> | Hs]; [congruence | exact Hs].
Qed.

Lemma run_sync_Pending opts (p : Prog unit) :
  Pending opts p ->
  forall clk i sh extra,
    balance (bump (href (CrawlOptions.url opts)) extra) sh ->
    (Pending opts (snd (run_sync p clk i sh))
     /\ balance (bump (href (CrawlOptions.url opts)) extra) (fst (run_sync p clk i sh)))
    \/ ((exists a, snd (run_sync p clk i sh) = Ret a)
        /\ balance extra (fst (run_sync p clk i sh))).
Proof.
  induction 1 as [r k Hu Hr Hk | d k Hk | rq k Hk IH | h k Hk IH | k Hk IH
                 | h k Hk IH | h k Hk IH | h v k Hk IH | h k Hk IH];
    intros clk i sh extra Hb; simpl.
  - right. apply and_comm. apply run_sync_Done; [exact Hk|].
    intros s. specialize (Hb s). simpl. unfold bump in Hb.
    unfold settled in *. rewrite count_if_snoc, Hu, Hr. simpl.
    rewrite andb_true_r. lia.
  - right. apply and_comm. apply run_sync_Done; [exact Hk|].
    intros s. specialize (Hb s). simpl. unfold bump in Hb.
    unfold queued in *. rewrite count_if_snoc. simpl. lia.
  - left. split; [constructor; exact Hk | exact Hb].
  - left. split; [constructor; exact Hk | exact Hb].
  - apply IH. exact Hb.
  - apply IH. exact Hb.
  - apply IH. exact Hb.
  - apply IH. exact Hb.
  - apply IH. exact Hb.
Qed.

(** ** The invariant along a run *)

Lemma started_Pending rs t p :
  Pending t p -> started rs t p = (rs ++ [(t, p)])%list.
Proof. intros Hp. destruct Hp; reflexivity. Qed.

Lemma resumed_Pending rs j t p :
  Pending t p -> resumed rs j t p = <[ j := (t, p) ]> rs.
Proof. intros Hp. destruct Hp; reflexivity. Qed.

Lemma step_accounted c a c' :
  accounted c -> step co c a = Some c' -> accounted c'.
Proof.
  intros [Hrun Hbal] Hstep.
  destruct a as [i clk | j o clk | j b clk]; simpl in Hstep.
  - destruct (bool_decide _); [|discriminate].
    destruct (queue (shared c) !! i) as [[t d]|] eqn:Hi; [|discriminate].
    set (sh0 := with_queue (shared c) (delete i (queue (shared c)))) in *.
    assert (Hb0 : balance (bump (href (CrawlOptions.url t))
                             (fun s => in_flight s (running c))) sh0).
    { intros s. specialize (Hbal s). unfold bump. simpl.
      unfold queued in *. rewrite (count_if_delete _ _ i (t, d) Hi) in Hbal.
      simpl in Hbal. lia. }
    pose proof (run_sync_Pending t (crawl co t) (crawl_Pending t) clk 0%nat sh0 _ Hb0)
      as Hcase.
    destruct (run_sync (crawl co t) clk 0 sh0) as [sh p]. simpl in Hcase.
    injection Hstep as <-. unfold accounted. simpl.
    destruct Hcase as [[Hp Hb] | [[u ->] Hb]].
    + rewrite started_Pending by exact Hp. split.
      * apply Forall_app. split; [exact Hrun | repeat constructor; exact Hp].
      * eapply balance_ext; [|exact Hb]. intros s. unfold bump, in_flight.
        rewrite count_if_snoc. reflexivity.
    + split; [exact Hrun | exact Hb].
  - destruct (running c !! j) as [[t p]|] eqn:Hj; [|discriminate].
    destruct p as [| rq k | | | | | | | | | | |]; try discriminate.
    assert (Hk : Pending t (k o)).
    { eapply Forall_lookup_1 in Hrun; [|exact Hj]. simpl in Hrun.
      inversion Hrun; subst. auto. }
    assert (Hb0 : balance (bump (href (CrawlOptions.url t))
                             (fun s => in_flight s (delete j (running c)))) (shared c)).
    { eapply balance_ext; [|exact Hbal]. intros s. unfold bump, in_flight.
      rewrite (count_if_delete _ _ j _ Hj). reflexivity. }
    pose proof (run_sync_Pending t (k o) Hk clk 0%nat (shared c) _ Hb0) as Hcase.
    destruct (run_sync (k o) clk 0 (shared c)) as [sh p]. simpl in Hcase.
    injection Hstep as <-. unfold accounted. simpl.
    destruct Hcase as [[Hp Hb] | [[u ->] Hb]].
    + rewrite resumed_Pending by exact Hp. split.
      * apply Forall_insert; [exact Hrun | exact Hp].
      * eapply balance_ext; [|exact Hb]. intros s. unfold bump, in_flight.
        rewrite (count_if_insert _ _ j _ _ Hj). reflexivity.
    + split; [apply Forall_delete; exact Hrun | exact Hb].
  - destruct (running c !! j) as [[t p]|] eqn:Hj; [|discriminate].
    destruct p as [| | h k | | | | | | | | | |]; try discriminate.
    assert (Hk : Pending t (k b)).
    { eapply Forall_lookup_1 in Hrun; [|exact Hj]. simpl in Hrun.
      inversion Hrun; subst. auto. }
    assert (Hb0 : balance (bump (href (CrawlOptions.url t))
                             (fun s => in_flight s (delete j (running c)))) (shared c)).
    { eapply balance_ext; [|exact Hbal]. intros s. unfold bump, in_flight.
      rewrite (count_if_delete _ _ j _ Hj). reflexivity. }
    pose proof (run_sync_Pending t (k b) Hk clk 0%nat (shared c) _ Hb0) as Hcase.
    destruct (run_sync (k b) clk 0 (shared c)) as [sh p]. simpl in Hcase.
    injection Hstep as <-. unfold accounted. simpl.
    destruct Hcase as [[Hp Hb] | [[u ->] Hb]].
    + rewrite resumed_Pending by exact Hp. split.
      * apply Forall_insert; [exact Hrun | exact Hp].
      * eapply balance_ext; [|exact Hb]. intros s. unfold bump, in_flight.
        rewrite (count_if_insert _ _ j _ _ Hj). reflexivity.
    + split; [apply Forall_delete; exact Hrun | exact Hb].
Qed.

Lemma run_accounted acts c c' :
  accounted c -> run co acts c = Some c' -> accounted c'.
Proof.
  revert c. induction acts as [|a acts IH]; intros c Hc; simpl.
  - now intros [= <-].
  - destruct (step co c a) as [c1|] eqn:Hs; [|discriminate].
    apply IH. eapply step_accounted; eauto.
Qed.

(** ** The start and the end of a run *)

Lemma check_enqueue_balance paths sh sh' :
  check_enqueue paths sh = Some sh' ->
  NoDup (start_hrefs paths) ->
  (forall s, s ∈ start_hrefs paths -> s ∉ cache sh) ->
  balance (fun _ => 0%nat) sh ->
  balance (fun _ => 0%nat) sh'.
Proof.
  revert sh. induction paths as [|path paths IH]; intros sh; simpl.
  - now intros [= ->].
  - unfold start_hrefs. simpl. fold (start_hrefs paths).
    destruct (URL_new path None) as [url|]; [|discriminate]. simpl.
    intros Hc Hnd Hfresh Hb. apply NoDup_cons in Hnd as [Hnotin Hnd].
    apply (IH _ Hc Hnd); simpl.
    + intros s Hs. rewrite elem_of_union, elem_of_singleton.
      intros [-> | Hin]; [contradiction|].
      apply (Hfresh s); [right; exact Hs | exact Hin].
    + intros s. specialize (Hb s). simpl.
      unfold queued in *. rewrite count_if_snoc. simpl.
      assert (Hu : href url ∉ cache sh) by (apply Hfresh; left).
      destruct (String.eqb_spec (href url) s) as [<- | Hne].
      * rewrite bool_decide_eq_false_2 in Hb by exact Hu.
        rewrite bool_decide_eq_true_2
          by (apply elem_of_union; left; now apply elem_of_singleton).
        simpl in *. lia.
      * rewrite (bool_decide_ext (s ∈ {[href url]} ∪ cache sh) (s ∈ cache sh)).
        -- simpl. lia.
        -- rewrite elem_of_union, elem_of_singleton. split; [|tauto].
           intros [-> | Hs]; [congruence | exact Hs].
Qed.

Lemma count_if_none {A : Type} (f : A -> bool) (l : list A) :
  (forall x, In x l -> f x = false) -> count_if f l = 0%nat.
Proof.
  induction l as [|x l IH]; intros Hf; [reflexivity|].
  rewrite count_if_cons, (Hf x) by (now left). simpl. apply IH.
  intros y Hy. apply Hf. now right.
Qed.

Lemma results_for_split (s : string) (l : list LinkResult.t) :
  results_for s l
  = (settled s l
     + count_if (fun r => String.eqb (LinkResult.url r) s && unresolved r) l)%nat.
Proof.
  unfold results_for, settled. induction l as [|r l IH]; [reflexivity|].
  rewrite !count_if_cons, IH.
  destruct (String.eqb (LinkResult.url r) s), (unresolved r); simpl; lia.
Qed.

Lemma idle_inv c : idle c = true -> queue (shared c) = [] /\ running c = [].
Proof.
  unfold idle. destruct (queue (shared c)), (running c); try discriminate. tauto.
Qed.

Lemma crawl_link_visits opts item url clk i sh :
  ParsedUrl.url item = Some url ->
  exists child,
    CrawlOptions.url child = url
    /\ CrawlOptions.parent child = Some (href (CrawlOptions.url opts))
    /\ CrawlOptions.rootPath child = CrawlOptions.rootPath opts
    /\ crawl_link co opts item
       = Cache_has (href url)
           (fun seen => if seen then Ret tt
                        else Cache_add (href url) (Queue_add child None (Ret tt)))
    /\ run_sync (crawl_link co opts item) clk i sh
       = (if bool_decide (href url ∈ cache sh) then sh else visited child sh, Ret tt).
Proof.
  intros Hu. unfold crawl_link. rewrite Hu.
  eexists (CrawlOptions.mk url _ _ _).
  split; [reflexivity|]. split; [reflexivity|]. split; [reflexivity|].
  split; [reflexivity|].
  cbn. destruct (bool_decide (href url ∈ cache sh)); reflexivity.
Qed.

(** In every configuration of a run, a task waits in the queue only for a
    URL that is in the visit cache. *)
Lemma queued_urls_are_cached c e :
  accounted c -> In e (queue (shared c)) ->
  href (CrawlOptions.url (fst e)) ∈ cache (shared c).
Proof.
  intros [_ Hbal] Hin. specialize (Hbal (href (CrawlOptions.url (fst e)))).
  destruct (bool_decide _) eqn:Hd; [now apply bool_decide_eq_true_1 in Hd|].
  exfalso. simpl in Hbal.
  assert (Hpos : (1 <= queued (href (CrawlOptions.url (fst e))) (queue (shared c)))%nat).
  { clear Hbal. unfold queued.
    induction (queue (shared c)) as [|x q IH]; [contradiction|].
    rewrite count_if_cons. destruct Hin as [-> | Hin].
    - rewrite String.eqb_refl. simpl. lia.
    - specialize (IH Hin). lia. }
  lia.
Qed.

End Accounting.

(** C1 (amended): take a run whose starting URLs have pairwise distinct
    [href]s, that has reached an idle queue, and in which no link that
    failed to resolve has a text equal to a visited URL.  Then for every
    string in the visit cache the results hold exactly one result with that
    [url].  And for every extracted link that resolves, the child task is
    enqueued only when the cache does not contain its [href], which is
    added to the cache first, in the same synchronous stretch. *)
Theorem one_result_per_visited_url `{Platform} `{Extractor}
    (co : CheckOptions.t) (paths : list string) (acts : list Action) (sh : Shared) (c : Config) :
  NoDup (start_hrefs paths) ->
  check_enqueue paths empty_shared = Some sh ->
  run co acts {| shared := sh; running := [] |} = Some c ->
  idle c = true ->
  (forall r, In r (results (shared c)) -> unresolved r = true ->
             LinkResult.url r ∉ cache (shared c)) ->
  (forall s, s ∈ cache (shared c) -> results_for s (results (shared c)) = 1%nat)
  /\ (forall opts item url clk i sh1,
        ParsedUrl.url item = Some url ->
        exists child,
          CrawlOptions.url child = url
          /\ CrawlOptions.parent child = Some (Url.href (CrawlOptions.url opts))
          /\ CrawlOptions.rootPath child = CrawlOptions.rootPath opts
          /\ crawl_link co opts item
             = Cache_has (Url.href url)
                 (fun seen => if seen then Ret tt
                              else Cache_add (Url.href url) (Queue_add child None (Ret tt)))
          /\ run_sync (crawl_link co opts item) clk i sh1
             = (if bool_decide (Url.href url ∈ cache sh1) then sh1 else visited child sh1,
                Ret tt)).
Proof.
  intros Hnd Hstart Hrun Hidle Hraw. split.
  - intros s Hs.
    assert (Hinit : accounted {| shared := sh; running := [] |}).
    { split; simpl; [constructor|].
      apply (check_enqueue_balance paths empty_shared sh Hstart Hnd).
      - intros s' _. apply not_elem_of_empty.
      - intros s'. reflexivity. }
    destruct (run_accounted co acts _ c Hinit Hrun) as [_ Hbal].
    apply idle_inv in Hidle as [Hq Hr].
    specialize (Hbal s). rewrite Hq, Hr in Hbal.
    rewrite bool_decide_eq_true_2 in Hbal by exact Hs. simpl in Hbal.
    rewrite results_for_split, count_if_none; [unfold queued, in_flight, count_if in Hbal; simpl in Hbal; lia|].
    intros r Hin. destruct (String.eqb_spec (LinkResult.url r) s) as [<- | Hne];
      [|reflexivity].
    destruct (unresolved r) eqn:Hu; [|reflexivity].
    now elim (Hraw r Hin Hu).
  - intros opts item url clk i sh1 Hu. now apply crawl_link_visits.
Qed.

(** [one_result_per_visited_url] on the run over the small site: its four
    visited URLs have one result each. *)
Lemma one_result_per_visited_url_witness :
  Forall (fun s => s ∈ cache (shared Examples.site_final)
                   /\ results_for s (results (shared Examples.site_final)) = 1%nat)
    ["http://h/"; "http://h/ok"; "http://h/bad"; "mailto:x@y"].
Proof.
  assert (Hall : forall s, s ∈ cache (shared Examples.site_final) ->
                           results_for s (results (shared Examples.site_final)) = 1%nat).
  { apply (@one_result_per_visited_url Node.platform Node.extractor Examples.site_options
             ["http://h/"] Examples.site_run Examples.site_start Examples.site_final).
    - vm_compute. apply NoDup_singleton.
    - vm_compute. reflexivity.
    - vm_compute. reflexivity.
    - vm_compute. reflexivity.
    - intros r Hin Hu Hc. apply (bool_decide_pack _) in Hc.
      vm_compute in Hin.
      repeat (destruct Hin as [<- | Hin];
              [vm_compute in Hu; try discriminate Hu; vm_compute in Hc; destruct Hc|]).
      destruct Hin. }
  assert (Hmem : forall s, bool_decide (s ∈ cache (shared Examples.site_final)) = true ->
                           s ∈ cache (shared Examples.site_final)).
  { intros s. apply bool_decide_eq_true_1. }
  repeat (constructor; [split; [apply Hmem; vm_compute; reflexivity | apply Hall, Hmem; vm_compute; reflexivity]|]).
  constructor.
Defined.

(** C1, as stated, fails: [check] is given the starting URL [http://h/a]
    twice.  The visit cache holds it once, two tasks are enqueued for it,
    and the idle run has two results with that [url]. *)
Lemma duplicate_start_url_has_two_results :
  @check_enqueue Node.platform ["http://h/a"; "http://h/a"] empty_shared
    = Some Examples.twice_start
  /\ @run Node.platform Node.extractor Examples.site_options Examples.twice_run
       {| shared := Examples.twice_start; running := [] |}
     = Some Examples.twice_final
  /\ idle Examples.twice_final = true
  /\ elements (cache (shared Examples.twice_final)) = ["http://h/a"]
  /\ results_for "http://h/a" (results (shared Examples.twice_final)) = 2%nat.
Proof.
  split; [vm_compute; reflexivity|]. split; [vm_compute; reflexivity|].
  split; [vm_compute; reflexivity|]. split; vm_compute; reflexivity.
Qed.

(* ===================================================================== *)
(** * The scenarios of the specification, evaluated *)
(* ===================================================================== *)

(** On any platform: a [retry-after] value that is neither a number nor a
    date, for a host without an entry, puts [NaN] in the delay cache. *)
Lemma shouldRetryAfter_NaN `{Platform} (opts : CrawlOptions.t) (res : Gaxios.Response)
    (raw : string) clk i sh :
  Gaxios.status res = 429 ->
  Gaxios.headers res !! "retry-after" = Some raw ->
  raw <> "" ->
  Number raw = Js.NaN ->
  Date_getTime raw = Js.NaN ->
  delayCache sh !! Url.host (CrawlOptions.url opts) = None ->
  run_sync (shouldRetryAfter (Some res) opts) clk i sh
  = ({| results := results sh; cache := cache sh;
        delayCache := <[ Url.host (CrawlOptions.url opts) := Js.NaN ]> (delayCache sh);
        queue := queue sh; events := events sh |}, Ret Js.NaN).
Proof.
  intros Hs Hh Hraw Hn Hd Hnone. unfold shouldRetryAfter.
  rewrite Hs, Hh. destruct raw as [|c raw]; [congruence|].
  cbn. rewrite Hn, Hd. cbn.
  rewrite bool_decide_eq_false_2 by (rewrite Hnone; intros [? ?]; discriminate).
  reflexivity.
Qed.

(** S1: a single page that answers 200, no recursion: one OK result, and
    the link of the page is not followed. *)
Example scenario_single_page :
  @check Node.platform Node.extractor (Examples.options (SkipPatterns []) false)
    ["http://h/a"]
    [ Start 0 (Examples.clock 0);
      Respond 0 (Gaxios.Resolved
                   (Examples.response 200 [("content-type", "text/plain")]
                      "<html><a href='http://h/b'>"))
        (Examples.clock 0) ]
  = Some {| CrawlResult.passed := true;
            CrawlResult.links :=
              [ {| LinkResult.url := "http://h/a"; LinkResult.status := Some 200;
                   LinkResult.state := OK; LinkResult.parent := None;
                   LinkResult.failureDetails := Some [] |} ] |}.
Proof. vm_compute. reflexivity. Qed.

(** S3: [HEAD] answers 405, the [GET] that follows answers 200: one OK
    result with status 200. *)
Example scenario_405_then_get :
  let co := Examples.options (SkipPatterns []) false in
  let opts := Examples.task "http://h/x" false in
  let first := @crawl_requested Node.platform Node.extractor co opts
                 (Gaxios.Resolved (Examples.response 405 [] "")) in
  let second := @crawl_fallback Node.platform Node.extractor co opts
                  (Examples.response 405 [] "")
                  (Gaxios.Resolved (Examples.response 200 [] "")) in
  awaited_request (snd (run_sync first (Examples.clock 0) 0 empty_shared))
    = Some (request_options co opts Gaxios.GET Gaxios.stream)
  /\ map (fun r => (LinkResult.url r, LinkResult.status r, LinkResult.state r))
       (results (fst (run_sync second (Examples.clock 0) 0 empty_shared)))
     = [("http://h/x", Some 200, OK)].
Proof. split; vm_compute; reflexivity. Qed.

(** S4: the first probe answers 429 with [Retry-After: 1]; the task is
    started again and answers 200.  One result, OK, and none for the 429. *)
Example scenario_429_then_200 :
  @check Node.platform Node.extractor (Examples.options (SkipPatterns []) false)
    ["http://h/x"]
    [ Start 0 (Examples.clock 0);
      Respond 0 (Gaxios.Resolved (Examples.response 429 [("retry-after", "1")] ""))
        (Examples.clock 0);
      Start 0 (Examples.clock 1000);
      Respond 0 (Gaxios.Resolved (Examples.response 200 [] "")) (Examples.clock 1000) ]
  = Some {| CrawlResult.passed := true;
            CrawlResult.links :=
              [ {| LinkResult.url := "http://h/x"; LinkResult.status := Some 200;
                   LinkResult.state := OK; LinkResult.parent := None;
                   LinkResult.failureDetails := Some [] |} ] |}.
Proof. vm_compute. reflexivity. Qed.

(** S6: a page that links to [/p] twice enqueues one task for it. *)
Example scenario_duplicate_link :
  let co := Examples.options (SkipPatterns []) true in
  let opts := Examples.task "http://h/" true in
  let res := Examples.response 200 [("content-type", "text/html")]
               "<a href='/p'><a href='/p'>" in
  map (fun e => Url.href (CrawlOptions.url (fst e)))
    (queue (fst (run_sync
                   (@crawl_requested Node.platform Node.extractor co opts (Gaxios.Resolved res))
                   (Examples.clock 0) 0 empty_shared)))
  = ["http://h/p"].
Proof. vm_compute. reflexivity. Qed.

(* ===================================================================== *)
(** * Further properties of the coordinator *)
(* ===================================================================== *)

Section DelayGate.
Context `{Platform} `{Extractor}.
Variable co : CheckOptions.t.
Import Url.

Lemma crawl_request_shape (opts : CrawlOptions.t) :
  crawl_request co opts = Await_request (first_request co opts) (crawl_requested co opts).
Proof. reflexivity. Qed.

End DelayGate.





Section ProbeBound.
Context `{Platform} `{Extractor}.
Variable co : CheckOptions.t.
Variable P : Gaxios.Options -> Prop.

Lemma Probes_weaken {A : Type} (p : Prog A) (n m : nat) :
  (n <= m)%nat -> Probes P n p -> Probes P m p.
Proof.
  intros Hle Hp. revert m Hle.
  induction Hp; intros m Hle; try (constructor; auto; fail).
  destruct m as [|m]; [lia|]. constructor; [assumption|].
  intros o.
  match goal with IH : forall o m, (_ <= m)%nat -> _ |- _ => apply IH; lia end.
Qed.

Lemma Probes_bind {A B : Type} (m : Prog A) (f : A -> Prog B) (n : nat) :
  Probes P 0 m -> (forall a, Probes P n (f a)) -> Probes P n (m ≫= f).
Proof.
  intros Hm Hf. unfold mbind, Prog_bind.
  remember 0%nat as z eqn:Hz.
  induction Hm; simpl; try discriminate; try (constructor; auto; fail); auto.
Qed.

Lemma Probes_forOf {A : Type} (l : list A) (body : A -> Prog unit) :
  (forall x, Probes P 0 (body x)) -> Probes P 0 (forOf l body).
Proof.
  intros Hb. induction l as [|x l IH]; simpl.
  - constructor.
  - apply Probes_bind; auto.
Qed.

End ProbeBound.

(** Decomposes a goal [Probes P n p] whose program issues no request. *)
Ltac probes :=
  repeat first
    [ assumption
    | apply Probes_bind; [|intros]
    | match goal with
      | |- Probes _ _ (mret _) => apply Probes_Ret
      | |- Probes _ _ (if ?b then _ else _) => destruct b
      | |- Probes _ _ (match ?x with _ => _ end) => destruct x
      | |- Probes _ _ (Await_request _ _) => fail 1
      | |- Probes _ _ _ => constructor; intros
      end ].

Section ProbeBoundCrawl.
Context `{Platform} `{Extractor}.
Variable co : CheckOptions.t.
Variable opts : CrawlOptions.t.

Let Own := own_request co opts.

Lemma shouldRetryAfter_Probes res (Q : Gaxios.Options -> Prop) :
  Probes Q 0 (shouldRetryAfter res opts).
Proof. unfold shouldRetryAfter. probes. Qed.

Lemma crawl_report_Probes res failures : Probes Own 0 (crawl_report co opts res failures).
Proof.
  unfold crawl_report. probes.
  apply Probes_forOf. intros item. unfold crawl_link. probes.
Qed.

Lemma crawl_retried_Probes res failures o :
  Probes Own 0 (crawl_retried co opts res failures o).
Proof.
  unfold crawl_retried. destruct o; [|apply crawl_report_Probes].
  apply Probes_bind; [apply shouldRetryAfter_Probes|]. intros a.
  destruct (Js.truthy a); [constructor | apply crawl_report_Probes].
Qed.

Lemma request_options_own m rt : Own (request_options co opts m rt).
Proof. split; reflexivity. Qed.

Lemma crawl_retry_Probes res failures :
  Probes Own 1 (crawl_retry co opts res failures)
  /\ (CrawlOptions.crawl opts = true -> Probes Own 0 (crawl_retry co opts res failures)).
Proof.
  unfold crawl_retry. split.
  - destruct (_ && _).
    + cbn. constructor; [apply request_options_own|]. intros o. apply crawl_retried_Probes.
    + apply Probes_weaken with 0%nat; [lia | apply crawl_report_Probes].
  - intros ->. rewrite andb_false_r. apply crawl_report_Probes.
Qed.

Lemma crawl_fallback_Probes res o :
  Probes Own 1 (crawl_fallback co opts res o)
  /\ (CrawlOptions.crawl opts = true -> Probes Own 0 (crawl_fallback co opts res o)).
Proof.
  unfold crawl_fallback. split.
  - destruct o; [|apply crawl_retry_Probes].
    apply Probes_bind; [apply shouldRetryAfter_Probes|]. intros a.
    destruct (Js.truthy a); [constructor | apply crawl_retry_Probes].
  - intros Hc. destruct o; [|now apply crawl_retry_Probes].
    apply Probes_bind; [apply shouldRetryAfter_Probes|]. intros a.
    destruct (Js.truthy a); [constructor | now apply crawl_retry_Probes].
Qed.

Lemma crawl_requested_Probes o :
  Probes Own 2 (crawl_requested co opts o)
  /\ (CrawlOptions.crawl opts = true -> Probes Own 1 (crawl_requested co opts o)).
Proof.
  unfold crawl_requested. split.
  - destruct o; [|apply Probes_weaken with 1%nat; [lia | apply crawl_retry_Probes]].
    apply Probes_bind; [apply shouldRetryAfter_Probes|]. intros a.
    destruct (Js.truthy a); [constructor|].
    destruct (_ =? _).
    + cbn. constructor; [apply request_options_own|]. intros o. apply crawl_fallback_Probes.
    + apply Probes_weaken with 1%nat; [lia | apply crawl_retry_Probes].
  - intros Hc.
    destruct o; [|apply Probes_weaken with 0%nat; [lia | now apply crawl_retry_Probes]].
    apply Probes_bind; [apply shouldRetryAfter_Probes|]. intros a.
    destruct (Js.truthy a); [constructor|].
    destruct (_ =? _).
    + cbn. constructor; [apply request_options_own|]. intros o.
      now apply crawl_fallback_Probes.
    + apply Probes_weaken with 0%nat; [lia | now apply crawl_retry_Probes].
Qed.

Lemma crawl_Probes_general (n : nat) :
  (forall o, Probes Own n (crawl_requested co opts o)) ->
  Probes Own (S n) (crawl co opts).
Proof.
  intros Hr.
  assert (Hreq : Probes Own (S n) (crawl_request co opts)).
  { unfold crawl_request. cbn. constructor; [apply request_options_own | exact Hr]. }
  assert (Hdelay : Probes Own (S n) (crawl_delay co opts)).
  { unfold crawl_delay. probes. }
  assert (Hfil : forall b, Probes Own (S n) (crawl_filtered co opts b)).
  { intros b. unfold crawl_filtered. probes. }
  unfold crawl. probes; apply Hfil.
Qed.

End ProbeBoundCrawl.

(** X3: one call of [crawl], that is one attempt of a task, issues at most
    three requests, at most two when the task crawls, and every one of them
    goes to the URL of the task, with the timeout of the options.  The bound
    is on the call: a task that a 429 puts back in the queue is attempted
    again, and each attempt has this bound. *)
Theorem at_most_three_requests `{Platform} `{Extractor}
    (co : CheckOptions.t) (opts : CrawlOptions.t) :
  Probes (own_request co opts) 3 (crawl co opts)
  /\ (CrawlOptions.crawl opts = true -> Probes (own_request co opts) 2 (crawl co opts)).
Proof.
  split.
  - apply crawl_Probes_general. intros o. apply crawl_requested_Probes.
  - intros Hc. apply crawl_Probes_general. intros o. now apply crawl_requested_Probes.
Qed.

(** [at_most_three_requests] on a crawling task. *)
Lemma at_most_three_requests_witness :
  let co := Examples.options (SkipPatterns []) true in
  let opts := Examples.task "http://h/" true in
  Probes (own_request co opts) 2 (@crawl Node.platform Node.extractor co opts).
Proof.
  intros co opts.
  exact (proj2 (@at_most_three_requests Node.platform Node.extractor co opts) eq_refl).
Defined.

(** Three requests do occur: [HEAD] answers 405, the streamed [GET] answers
    404, and a [GET] for text follows. *)
Example three_requests_occur :
  let co := Examples.options (SkipPatterns []) false in
  let opts := Examples.task "http://h/x" false in
  let r405 := Examples.response 405 [] "" in
  let r404 := Examples.response 404 [] "" in
  awaited_request (@crawl_request Node.platform Node.extractor co opts)
    = Some (request_options co opts Gaxios.HEAD Gaxios.stream)
  /\ awaited_request
       (snd (run_sync (@crawl_requested Node.platform Node.extractor co opts
                         (Gaxios.Resolved r405)) (Examples.clock 0) 0 empty_shared))
     = Some (request_options co opts Gaxios.GET Gaxios.stream)
  /\ awaited_request
       (snd (run_sync (@crawl_fallback Node.platform Node.extractor co opts r405
                         (Gaxios.Resolved r404)) (Examples.clock 0) 0 empty_shared))
     = Some (request_options co opts Gaxios.GET Gaxios.text).
Proof. split; [reflexivity|]. split; vm_compute; reflexivity. Qed.

(** The bound is on the call, not on the task: a crawling task whose [GET]
    answers 405 and whose second [GET] answers 429 with [Retry-After: 1] is
    put back in the queue and attempted again; with the same answer to the
    first [GET] and then a 200, it has issued four requests. *)
Example reenqueued_task_is_attempted_again :
  let r405 := Examples.response 405 [] "" in
  let r429 := Gaxios.mkResponse 429 {[ "retry-after" := "1" ]} Gaxios.Stream in
  let r200 := Gaxios.mkResponse 200 ∅ Gaxios.Stream in
  @check Node.platform Node.extractor (Examples.options (SkipPatterns []) false)
    ["http://h/x"]
    [ Start 0 (Examples.clock 0);
      Respond 0 (Gaxios.Resolved r405) (Examples.clock 0);
      Respond 0 (Gaxios.Resolved r429) (Examples.clock 0);
      Start 0 (Examples.clock 1000);
      Respond 0 (Gaxios.Resolved r405) (Examples.clock 1000);
      Respond 0 (Gaxios.Resolved r200) (Examples.clock 1000) ]
  = Some {| CrawlResult.passed := true;
            CrawlResult.links :=
              [ {| LinkResult.url := "http://h/x"; LinkResult.status := Some 200;
                   LinkResult.state := OK; LinkResult.parent := None;
                   LinkResult.failureDetails := Some [] |} ] |}.
Proof. vm_compute. reflexivity. Qed.

Section Ladder.
Context `{Platform} `{Extractor}.
Variable co : CheckOptions.t.
Import Url.

(** Without recursion, [crawl_report] records the result and nothing
    else. *)
Lemma crawl_report_plain (opts : CrawlOptions.t) res failures clk i sh :
  CrawlOptions.crawl opts = false ->
  run_sync (crawl_report co opts res failures) clk i sh
  = (record (reported opts res failures) sh, Ret tt).
Proof.
  intros Hc. unfold crawl_report, reported. rewrite Hc. cbn.
  destruct ((200 <=? _) && (_ <? 300)); reflexivity.
Qed.

Lemma crawl_report_no_response (opts : CrawlOptions.t) failures clk i sh :
  run_sync (crawl_report co opts None failures) clk i sh
  = (record (reported opts None failures) sh, Ret tt).
Proof. unfold crawl_report, reported. rewrite andb_false_r. reflexivity. Qed.

End Ladder.

(** Reduces the bind of a returned value and the test of a returned 0. *)
Ltac bind_ret :=
  cbn [mbind mret Prog_bind Prog_ret bind Js.truthy Z.eqb negb andb orb].

(** X4: when the requests of an attempt all throw, the task records a
    BROKEN result with status 0 whose [failureDetails] are the errors caught
    followed by [undefined].  A crawling task gives up after its one
    request; a task that does not crawl first tries the [GET] for text. *)
Theorem transport_failure_is_broken `{Platform} `{Extractor}
    (co : CheckOptions.t) (opts : CrawlOptions.t) (e1 e2 : string)
    (clk : nat -> Z) (i : nat) (sh : Shared) :
  let broken failures :=
    {| LinkResult.url := Url.href (CrawlOptions.url opts);
       LinkResult.status := Some 0;
       LinkResult.state := BROKEN;
       LinkResult.parent := CrawlOptions.parent opts;
       LinkResult.failureDetails := Some failures |} in
  if CrawlOptions.crawl opts then
    run_sync (crawl_requested co opts (Gaxios.Rejected e1)) clk i sh
    = (record (broken [Thrown e1; Details None]) sh, Ret tt)
  else
    run_sync (crawl_requested co opts (Gaxios.Rejected e1)) clk i sh
    = (sh, Await_request (request_options co opts Gaxios.GET Gaxios.text)
             (crawl_retried co opts None [Thrown e1]))
    /\ run_sync (crawl_retried co opts None [Thrown e1] (Gaxios.Rejected e2)) clk i sh
       = (record (broken [Thrown e1; Thrown e2; Details None]) sh, Ret tt).
Proof.
  cbv zeta. destruct (CrawlOptions.crawl opts) eqn:Hc.
  - unfold crawl_requested, crawl_retry. rewrite Hc. cbn [andb negb].
    rewrite crawl_report_no_response. reflexivity.
  - split.
    + unfold crawl_requested, crawl_retry. rewrite Hc. reflexivity.
    + unfold crawl_retried. rewrite crawl_report_no_response. reflexivity.
Qed.

(** X5: for a task that does not crawl, a first response with a 2xx status
    that does not reschedule settles the attempt: the result is OK with that
    status and no failure, no further request is made, and, whatever the
    content type, no [pagestart] is fired and nothing is enqueued. *)
Theorem head_success_is_final `{Platform} `{Extractor}
    (co : CheckOptions.t) (opts : CrawlOptions.t) (res : Gaxios.Response)
    (clk : nat -> Z) (i : nat) (sh : Shared) :
  CrawlOptions.crawl opts = false ->
  200 <= Gaxios.status res < 300 ->
  run_sync (crawl_requested co opts (Gaxios.Resolved res)) clk i sh
  = (record {| LinkResult.url := Url.href (CrawlOptions.url opts);
               LinkResult.status := Some (Gaxios.status res);
               LinkResult.state := OK;
               LinkResult.parent := CrawlOptions.parent opts;
               LinkResult.failureDetails := Some [] |} sh,
     Ret tt).
Proof.
  intros Hc [Hlo Hhi]. unfold crawl_requested.
  rewrite shouldRetryAfter_idle by (left; lia). bind_ret.
  replace (Gaxios.status res =? 405) with false by (symmetry; apply Z.eqb_neq; lia).
  unfold crawl_retry.
  replace (Gaxios.status res <? 200) with false by (symmetry; apply Z.ltb_ge; lia).
  replace (300 <=? Gaxios.status res) with false by (symmetry; apply Z.leb_gt; lia).
  cbn [andb orb]. rewrite crawl_report_plain by exact Hc. unfold reported.
  replace (200 <=? Gaxios.status res) with true by (symmetry; apply Z.leb_le; lia).
  replace (Gaxios.status res <? 300) with true by (symmetry; apply Z.ltb_lt; lia).
  reflexivity.
Qed.

(** [head_success_is_final] on a [HEAD] that answers 204, served as HTML. *)
Lemma head_success_is_final_witness :
  let co := Examples.options (SkipPatterns []) true in
  let opts := Examples.task "http://h/a" false in
  let res := Examples.response 204 [("content-type", "text/html")] "<a href='/b'>" in
  let sh := fst (run_sync
                   (@crawl_requested Node.platform Node.extractor co opts (Gaxios.Resolved res))
                   (Examples.clock 0) 0 empty_shared) in
  map LinkResult.state (results sh) = [OK] /\ queue sh = [] /\ length (events sh) = 1%nat.
Proof.
  intros co opts res sh. subst sh.
  rewrite (@head_success_is_final Node.platform Node.extractor co opts res
             (Examples.clock 0) 0%nat empty_shared eq_refl)
    by (vm_compute; split; [discriminate | reflexivity]).
  split; [reflexivity|]. split; reflexivity.
Defined.

(** X6: for a task that does not crawl, a first response whose status is
    neither 2xx nor 405 and that does not reschedule is not the last word:
    a [GET] for text is issued.  If it resolves (without rescheduling), the
    result is that of the new response alone: the first response leaves no
    trace.  If it throws, the result is that of the first response, with the
    error noted. *)
Theorem get_retry_decides `{Platform} `{Extractor}
    (co : CheckOptions.t) (opts : CrawlOptions.t) (res : Gaxios.Response)
    (clk : nat -> Z) (i : nat) (sh : Shared) :
  CrawlOptions.crawl opts = false ->
  ~ 200 <= Gaxios.status res < 300 ->
  Gaxios.status res <> 405 ->
  final res ->
  run_sync (crawl_requested co opts (Gaxios.Resolved res)) clk i sh
  = (sh, Await_request (request_options co opts Gaxios.GET Gaxios.text)
           (crawl_retried co opts (Some res) []))
  /\ (forall res',
        final res' ->
        run_sync (crawl_retried co opts (Some res) [] (Gaxios.Resolved res')) clk i sh
        = (record (reported opts (Some res') []) sh, Ret tt))
  /\ (forall e,
        run_sync (crawl_retried co opts (Some res) [] (Gaxios.Rejected e)) clk i sh
        = (record {| LinkResult.url := Url.href (CrawlOptions.url opts);
                     LinkResult.status := Some (Gaxios.status res);
                     LinkResult.state := BROKEN;
                     LinkResult.parent := CrawlOptions.parent opts;
                     LinkResult.failureDetails := Some [Thrown e; Details (Some res)] |} sh,
           Ret tt)).
Proof.
  intros Hc Hno H405 Hfin. split; [|split].
  - unfold crawl_requested. rewrite shouldRetryAfter_idle by exact Hfin. bind_ret.
    apply Z.eqb_neq in H405. rewrite H405.
    unfold crawl_retry. rewrite Hc.
    assert (Hn : (Gaxios.status res <? 200) || (300 <=? Gaxios.status res) = true).
    { apply orb_true_iff.
      destruct (Z.ltb_spec (Gaxios.status res) 200); [now left|].
      right. apply Z.leb_le. lia. }
    rewrite Hn. reflexivity.
  - intros res' Hfin'. unfold crawl_retried.
    rewrite shouldRetryAfter_idle by exact Hfin'. bind_ret.
    now apply crawl_report_plain.
  - intros e. unfold crawl_retried.
    rewrite crawl_report_plain by exact Hc. unfold reported.
    assert (Hn : (200 <=? Gaxios.status res) && (Gaxios.status res <? 300) = false).
    { apply andb_false_iff.
      destruct (Z.leb_spec 200 (Gaxios.status res)); [|now left].
      right. apply Z.ltb_ge. lia. }
    rewrite Hn. reflexivity.
Qed.

(** [get_retry_decides] on a link whose [HEAD] answers 404 and whose [GET]
    answers 200: the link is reported OK. *)
Lemma get_retry_decides_witness :
  let co := Examples.options (SkipPatterns []) false in
  let opts := Examples.task "http://h/a" false in
  let r404 := Examples.response 404 [] "" in
  let r200 := Examples.response 200 [] "" in
  run_sync (@crawl_retried Node.platform Node.extractor co opts (Some r404) []
              (Gaxios.Resolved r200)) (Examples.clock 0) 0 empty_shared
  = (record {| LinkResult.url := "http://h/a"; LinkResult.status := Some 200;
               LinkResult.state := OK; LinkResult.parent := None;
               LinkResult.failureDetails := Some [] |} empty_shared, Ret tt).
Proof.
  intros co opts r404 r200.
  destruct (@get_retry_decides Node.platform Node.extractor co opts r404
              (Examples.clock 0) 0%nat empty_shared eq_refl) as (_ & Hres & _).
  - vm_compute. intros [_ Hhi]. discriminate Hhi.
  - discriminate.
  - left. discriminate.
  - rewrite (Hres r200) by (left; discriminate). reflexivity.
Defined.

(* ===================================================================== *)
(** * Invariants of a run, in general *)
(* ===================================================================== *)

Section RunInvariant.
Context `{Platform} `{Extractor}.
Variable co : CheckOptions.t.
Variable T : CrawlOptions.t -> Prog unit -> Prop.
Variable K : CrawlOptions.t -> Shared -> Prop.
Variable J : Shared -> Prop.

Hypothesis T_crawl : forall t, T t (crawl co t).
Hypothesis T_request : forall t rq k o, T t (Await_request rq k) -> T t (k o).
Hypothesis T_skip : forall t h k b, T t (Await_skip h k) -> T t (k b).
Hypothesis K_queue : forall t sh q, K t sh -> K t (with_queue sh q).
Hypothesis J_queue : forall sh q, J sh -> J (with_queue sh q).

(** What a stretch of a task keeps. *)
Hypothesis sync :
  forall t p clk i sh,
    T t p -> K t sh -> J sh -> Forall (fun e => K (fst e) sh) (queue sh) ->
    J (fst (run_sync p clk i sh))
    /\ Forall (fun e => K (fst e) (fst (run_sync p clk i sh)))
         (queue (fst (run_sync p clk i sh)))
    /\ T t (snd (run_sync p clk i sh))
    /\ (forall t', K t' sh -> K t' (fst (run_sync p clk i sh))).

Lemma keeps_resume c j t p clk :
  keeps T K J c ->
  running c !! j = Some (t, p) ->
  forall p0, T t p0 ->
    keeps T K J {| shared := fst (run_sync p0 clk 0 (shared c));
                   running := resumed (running c) j t (snd (run_sync p0 clk 0 (shared c))) |}.
Proof.
  intros (HJ & HQ & HR) Hj p0 Hp0.
  assert (HKt : K t (shared c)).
  { eapply Forall_lookup_1 in HR; [|exact Hj]. apply HR. }
  destruct (sync t p0 clk 0%nat (shared c) Hp0 HKt HJ HQ) as (HJ' & HQ' & HT' & Hmono).
  split; [exact HJ'|]. split; [exact HQ'|]. simpl.
  assert (HR' : Forall (fun th : Thread =>
                          T (fst th) (snd th) /\ K (fst th) (fst (run_sync p0 clk 0 (shared c))))
                  (running c)).
  { eapply Forall_impl; [exact HR|]. intros th [? ?]. split; auto. }
  apply Forall_resumed; [exact HR'|]. split; [exact HT' | apply Hmono, HKt].
Qed.

Lemma step_keeps c a c' : keeps T K J c -> step co c a = Some c' -> keeps T K J c'.
Proof.
  intros Hinv Hstep. destruct a as [i clk | j o clk | j b clk]; simpl in Hstep.
  - destruct (bool_decide _); [|discriminate].
    destruct (queue (shared c) !! i) as [[t d]|] eqn:Hi; [|discriminate].
    destruct Hinv as (HJ & HQ & HR).
    set (sh0 := with_queue (shared c) (delete i (queue (shared c)))) in *.
    assert (HKt : K t sh0).
    { apply K_queue. eapply Forall_lookup_1 in HQ; [|exact Hi]. exact HQ. }
    assert (HQ0 : Forall (fun e => K (fst e) sh0) (queue sh0)).
    { simpl. apply Forall_delete. eapply Forall_impl; [exact HQ|].
      intros e He. now apply K_queue. }
    destruct (sync t (crawl co t) clk 0%nat sh0 (T_crawl t) HKt (J_queue _ _ HJ) HQ0)
      as (HJ' & HQ' & HT' & Hmono).
    destruct (run_sync (crawl co t) clk 0 sh0) as [sh p]. simpl in *.
    injection Hstep as <-. split; [exact HJ'|]. split; [exact HQ'|]. simpl.
    apply Forall_started.
    + eapply Forall_impl; [exact HR|]. intros th [? ?]. split; [assumption|].
      apply Hmono. now apply K_queue.
    + split; [exact HT' | apply Hmono, HKt].
  - destruct (running c !! j) as [[t p]|] eqn:Hj; [|discriminate].
    destruct p as [| rq k | | | | | | | | | | |]; try discriminate.
    pose proof (keeps_resume c j t _ clk Hinv Hj (k o)) as Hk.
    destruct (run_sync (k o) clk 0 (shared c)) as [sh p]. simpl in *.
    injection Hstep as <-. apply Hk.
    destruct Hinv as (_ & _ & HR). eapply Forall_lookup_1 in HR; [|exact Hj].
    eapply T_request. apply HR.
  - destruct (running c !! j) as [[t p]|] eqn:Hj; [|discriminate].
    destruct p as [| | h k | | | | | | | | | |]; try discriminate.
    pose proof (keeps_resume c j t _ clk Hinv Hj (k b)) as Hk.
    destruct (run_sync (k b) clk 0 (shared c)) as [sh p]. simpl in *.
    injection Hstep as <-. apply Hk.
    destruct Hinv as (_ & _ & HR). eapply Forall_lookup_1 in HR; [|exact Hj].
    eapply T_skip. apply HR.
Qed.

Lemma run_keeps acts c c' : keeps T K J c -> run co acts c = Some c' -> keeps T K J c'.
Proof.
  revert c. induction acts as [|a acts IH]; intros c Hc; simpl.
  - now intros [= <-].
  - destruct (step co c a) as [c1|] eqn:Hs; [|discriminate].
    apply IH. eapply step_keeps; eauto.
Qed.

End RunInvariant.

(* ===================================================================== *)
(** * The [link] events mirror the results *)
(* ===================================================================== *)

Lemma Paired_bind {A B : Type} (m : Prog A) (f : A -> Prog B) :
  Paired m -> (forall a, Paired (f a)) -> Paired (bind m f).
Proof. intros Hm Hf. induction Hm; simpl; try (constructor; auto; fail); auto. Qed.

(** Decomposes a goal [Paired p] along the structure of [p]. *)
Ltac paired :=
  repeat first
    [ assumption
    | progress cbn [mbind mret Prog_bind Prog_ret bind Op.push Op.emit Op.now Op.request
                    Op.linksToSkip Op.cache_has Op.cache_add Op.delay_has Op.delay_get
                    Op.delay_set Op.delay_delete Op.queue_add]
    | match goal with
      | |- Paired (if ?b then _ else _) => destruct b
      | |- Paired (match ?x with _ => _ end) => destruct x
      | |- Paired (bind _ _) => apply Paired_bind; [|intros]
      | |- Paired (_ ≫= _) => apply Paired_bind; [|intros]
      | |- Paired _ => constructor; intros
      end ].

Section Mirror.
Context `{Platform} `{Extractor}.
Variable co : CheckOptions.t.

Lemma Paired_forOf {A : Type} (l : list A) (body : A -> Prog unit) :
  (forall x, Paired (body x)) -> Paired (forOf l body).
Proof.
  intros Hb. induction l as [|x l IH]; simpl; [constructor|].
  apply Paired_bind; auto.
Qed.

Lemma link_events_snoc es e :
  link_events (es ++ [e])
  = (link_events es ++ match e with Link r => [r] | PageStart _ => [] end)%list.
Proof. unfold link_events. rewrite omap_app. destruct e; reflexivity. Qed.

Lemma run_sync_Paired {A : Type} (p : Prog A) :
  Paired p ->
  forall clk i sh,
    link_events (events sh) = results sh ->
    link_events (events (fst (run_sync p clk i sh))) = results (fst (run_sync p clk i sh))
    /\ Paired (snd (run_sync p clk i sh)).
Proof.
  induction 1; intros clk i sh Hsh; simpl;
    try (split; [assumption | constructor; assumption]); auto.
  - apply IHPaired. simpl. rewrite link_events_snoc, Hsh. reflexivity.
  - apply IHPaired. simpl. rewrite link_events_snoc, app_nil_r. exact Hsh.
Qed.

Lemma shouldRetryAfter_Paired res opts : Paired (shouldRetryAfter res opts).
Proof. unfold shouldRetryAfter. paired. Qed.

Lemma crawl_report_Paired opts res failures : Paired (crawl_report co opts res failures).
Proof.
  unfold crawl_report. paired.
  apply Paired_forOf. intros item. unfold crawl_link. paired.
Qed.

Lemma crawl_retried_Paired opts res failures o :
  Paired (crawl_retried co opts res failures o).
Proof.
  pose proof (crawl_report_Paired opts) as Hr.
  unfold crawl_retried. destruct o; [|apply Hr].
  apply Paired_bind; [apply shouldRetryAfter_Paired|]. intros a.
  destruct (Js.truthy a); [constructor | apply Hr].
Qed.

Lemma crawl_retry_Paired opts res failures : Paired (crawl_retry co opts res failures).
Proof.
  unfold crawl_retry. destruct (_ && _); [|apply crawl_report_Paired].
  constructor. intros o. apply crawl_retried_Paired.
Qed.

Lemma crawl_fallback_Paired opts res o : Paired (crawl_fallback co opts res o).
Proof.
  unfold crawl_fallback. destruct o; [|apply crawl_retry_Paired].
  apply Paired_bind; [apply shouldRetryAfter_Paired|]. intros a.
  destruct (Js.truthy a); [constructor | apply crawl_retry_Paired].
Qed.

Lemma crawl_requested_Paired opts o : Paired (crawl_requested co opts o).
Proof.
  unfold crawl_requested. destruct o; [|apply crawl_retry_Paired].
  apply Paired_bind; [apply shouldRetryAfter_Paired|]. intros a.
  destruct (Js.truthy a); [constructor|].
  destruct (_ =? _); [|apply crawl_retry_Paired].
  constructor. intros o. apply crawl_fallback_Paired.
Qed.

Lemma crawl_Paired opts : Paired (crawl co opts).
Proof.
  assert (Hreq : Paired (crawl_request co opts)).
  { constructor. intros o. apply crawl_requested_Paired. }
  assert (Hdelay : Paired (crawl_delay co opts)).
  { unfold crawl_delay. paired. }
  unfold crawl, crawl_filtered. paired.
Qed.

Lemma Paired_request_inv {A : Type} rq (k : Gaxios.Outcome -> Prog A) o :
  Paired (Await_request rq k) -> Paired (k o).
Proof. intros Hp. inversion Hp; subst. auto. Qed.

Lemma Paired_skip_inv {A : Type} h (k : bool -> Prog A) b :
  Paired (Await_skip h k) -> Paired (k b).
Proof. intros Hp. inversion Hp; subst. auto. Qed.

End Mirror.

(** X7: in every configuration a run reaches, the results carried by the
    [link] events, in the order they were fired, are the results recorded,
    in the order they were appended: a [link] event is fired for every
    result, once, and for nothing else. *)
Theorem link_events_mirror_results `{Platform} `{Extractor}
    (co : CheckOptions.t) (paths : list string) (acts : list Action) (sh : Shared) (c : Config) :
  check_enqueue paths empty_shared = Some sh ->
  run co acts {| shared := sh; running := [] |} = Some c ->
  link_events (events (shared c)) = results (shared c).
Proof.
  intros Hstart Hrun.
  assert (Hev : forall ps s s', check_enqueue ps s = Some s' -> events s' = events s).
  { induction ps as [|q ps IH]; intros s s'; simpl; [now intros [= ->]|].
    destruct (URL_new q None); [|discriminate]. intros Hc. now apply IH in Hc. }
  pose (T := fun (_ : CrawlOptions.t) (p : Prog unit) => Paired p).
  pose (K := fun (_ : CrawlOptions.t) (_ : Shared) => True).
  pose (J := fun s : Shared => link_events (events s) = results s).
  assert (Hinit : keeps T K J {| shared := sh; running := [] |}).
  { split; [|split]; simpl.
    - unfold J. rewrite (Hev _ _ _ Hstart), (check_enqueue_results _ _ _ Hstart).
      reflexivity.
    - apply Forall_forall. intros; exact I.
    - constructor. }
  assert (Hfin : keeps T K J c); [|apply Hfin].
  eapply (run_keeps co T K J); [ | | | | | | exact Hinit | exact Hrun].
  - intros t. apply crawl_Paired.
  - intros t rq k o. apply Paired_request_inv.
  - intros t h k b. apply Paired_skip_inv.
  - intros; exact I.
  - intros s q Hs. exact Hs.
  - intros t p clk i s Hp _ Hs _.
    destruct (run_sync_Paired p Hp clk i s Hs) as [H1 H2].
    split; [exact H1|]. split; [apply Forall_forall; intros; exact I|].
    split; [exact H2 | intros; exact I].
Qed.

(** [link_events_mirror_results] on the run over the small site. *)
Lemma link_events_mirror_results_witness :
  length (results (shared Examples.site_final)) = 5%nat
  /\ link_events (events (shared Examples.site_final)) = results (shared Examples.site_final).
Proof.
  split; [vm_compute; reflexivity|].
  apply (@link_events_mirror_results Node.platform Node.extractor Examples.site_options
           ["http://h/"] Examples.site_run Examples.site_start Examples.site_final);
    vm_compute; reflexivity.
Defined.

(* ===================================================================== *)
(** * Recursion keeps to the starting paths *)
(* ===================================================================== *)

Lemma Obeys_bind {A B : Type} Pe Pq (m : Prog A) (f : A -> Prog B) :
  Obeys Pe Pq m -> (forall a, Obeys Pe Pq (f a)) -> Obeys Pe Pq (bind m f).
Proof. intros Hm Hf. induction Hm; simpl; try (constructor; auto; fail); auto. Qed.

(** Decomposes a goal [Obeys Pe Pq p] along the structure of [p]. *)
Ltac obeys :=
  repeat first
    [ assumption
    | progress cbn [mbind mret Prog_bind Prog_ret bind Op.push Op.emit Op.now Op.request
                    Op.linksToSkip Op.cache_has Op.cache_add Op.delay_has Op.delay_get
                    Op.delay_set Op.delay_delete Op.queue_add]
    | match goal with
      | |- Obeys _ _ (if ?b then _ else _) => destruct b eqn:?
      | |- Obeys _ _ (match ?x with _ => _ end) => destruct x eqn:?
      | |- Obeys _ _ (bind _ _) => apply Obeys_bind; [|intros]
      | |- Obeys _ _ (_ ≫= _) => apply Obeys_bind; [|intros]
      | |- Obeys _ _ (Emit (PageStart _) _) => apply Obeys_pagestart
      | |- Obeys _ _ (Queue_add _ _ _) => apply Obeys_Queue_add
      | |- Obeys _ _ _ => constructor; intros
      end ].

Section Scope.
Context `{Platform} `{Extractor}.
Variable co : CheckOptions.t.
Import Url.

Lemma Obeys_forOf {A : Type} Pe Pq (l : list A) (body : A -> Prog unit) :
  (forall x, Obeys Pe Pq (body x)) -> Obeys Pe Pq (forOf l body).
Proof.
  intros Hb. induction l as [|x l IH]; simpl; [constructor|].
  apply Obeys_bind; auto.
Qed.

Lemma run_sync_Obeys {A : Type} Pe Pq (Pe' : URL -> Prop) (Pq' : CrawlOptions.t -> Prop)
    (p : Prog A) :
  Obeys Pe Pq p ->
  (forall u, Pe u -> Pe' u) ->
  (forall t, Pq t -> Pq' t) ->
  forall clk i sh,
    Forall Pe' (pagestart_events (events sh)) ->
    Forall (fun e => Pq' (fst e)) (queue sh) ->
    Forall Pe' (pagestart_events (events (fst (run_sync p clk i sh))))
    /\ Forall (fun e => Pq' (fst e)) (queue (fst (run_sync p clk i sh)))
    /\ Obeys Pe Pq (snd (run_sync p clk i sh)).
Proof.
  intros Hp HPe HPq.
  induction Hp; intros clk i sh He Hq; simpl;
    try (split; [assumption | split; [assumption | constructor; assumption]]); auto.
  - apply IHHp; simpl; [|assumption].
    unfold pagestart_events. rewrite omap_app. apply Forall_app. split; [assumption|].
    simpl. repeat constructor. auto.
  - apply IHHp; simpl; [|assumption].
    unfold pagestart_events. rewrite omap_app, app_nil_r. assumption.
  - apply IHHp; simpl; [assumption|].
    apply Forall_app. split; [assumption | repeat constructor; auto].
Qed.

Lemma shouldRetryAfter_Obeys res opts Pe :
  Obeys Pe (child_in_scope co opts) (shouldRetryAfter res opts).
Proof. unfold shouldRetryAfter. obeys. now left. Qed.

Lemma crawl_link_Obeys opts item Pe :
  Obeys Pe (child_in_scope co opts) (crawl_link co opts item).
Proof.
  unfold crawl_link. destruct (ParsedUrl.url item) as [url|]; obeys.
  right. split; [reflexivity|]. simpl.
  destruct (CheckOptions.recurse co && _) eqn:Hc0; [|discriminate].
  apply andb_prop in Hc0 as [Hrec Hpre]. intros Hc.
  split; [exact Hrec|]. split; [exact Hpre|].
  intros pu Hpu. rewrite Hpu in Hc. now apply String.eqb_eq in Hc.
Qed.

Lemma crawl_report_Obeys opts res failures :
  Obeys (own_page opts) (child_in_scope co opts) (crawl_report co opts res failures).
Proof.
  unfold crawl_report. obeys.
  - split; [reflexivity|].
    match goal with Hc : _ && _ = true |- _ => now apply andb_prop in Hc as [? _] end.
  - apply Obeys_forOf. intros item. apply crawl_link_Obeys.
Qed.

Lemma crawl_retried_Obeys opts res failures o :
  Obeys (own_page opts) (child_in_scope co opts) (crawl_retried co opts res failures o).
Proof.
  pose proof (crawl_report_Obeys opts) as Hr.
  unfold crawl_retried. destruct o; [|apply Hr].
  apply Obeys_bind; [apply shouldRetryAfter_Obeys|]. intros a.
  destruct (Js.truthy a); [constructor | apply Hr].
Qed.

Lemma crawl_retry_Obeys opts res failures :
  Obeys (own_page opts) (child_in_scope co opts) (crawl_retry co opts res failures).
Proof.
  unfold crawl_retry. destruct (_ && _); [|apply crawl_report_Obeys].
  constructor. intros o. apply crawl_retried_Obeys.
Qed.

Lemma crawl_fallback_Obeys opts res o :
  Obeys (own_page opts) (child_in_scope co opts) (crawl_fallback co opts res o).
Proof.
  unfold crawl_fallback. destruct o; [|apply crawl_retry_Obeys].
  apply Obeys_bind; [apply shouldRetryAfter_Obeys|]. intros a.
  destruct (Js.truthy a); [constructor | apply crawl_retry_Obeys].
Qed.

Lemma crawl_requested_Obeys opts o :
  Obeys (own_page opts) (child_in_scope co opts) (crawl_requested co opts o).
Proof.
  unfold crawl_requested. destruct o; [|apply crawl_retry_Obeys].
  apply Obeys_bind; [apply shouldRetryAfter_Obeys|]. intros a.
  destruct (Js.truthy a); [constructor|].
  destruct (_ =? _); [|apply crawl_retry_Obeys].
  constructor. intros o. apply crawl_fallback_Obeys.
Qed.

Lemma crawl_Obeys opts :
  Obeys (own_page opts) (child_in_scope co opts) (crawl co opts).
Proof.
  assert (Hreq : Obeys (own_page opts) (child_in_scope co opts) (crawl_request co opts)).
  { constructor. intros o. apply crawl_requested_Obeys. }
  assert (Hdelay : Obeys (own_page opts) (child_in_scope co opts) (crawl_delay co opts)).
  { unfold crawl_delay. obeys. now left. }
  unfold crawl, crawl_filtered. obeys.
Qed.

Lemma Obeys_request_inv {A : Type} Pe Pq rq (k : Gaxios.Outcome -> Prog A) o :
  Obeys Pe Pq (Await_request rq k) -> Obeys Pe Pq (k o).
Proof. intros Hp. inversion Hp; subst. auto. Qed.

Lemma Obeys_skip_inv {A : Type} Pe Pq h (k : bool -> Prog A) b :
  Obeys Pe Pq (Await_skip h k) -> Obeys Pe Pq (k b).
Proof. intros Hp. inversion Hp; subst. auto. Qed.

Variable paths : list string.

Lemma own_page_in_scope opts u :
  task_in_scope co paths opts -> own_page opts u -> in_scope co paths u.
Proof.
  intros (Hroot & pu & Hpu & Hcrawl) [-> Hc].
  destruct (Hcrawl Hc) as [<- | (Hrec & Hpre & Hhost)].
  - left. eauto.
  - right. split; [exact Hrec|]. exists (CrawlOptions.rootPath opts), pu. auto.
Qed.

Lemma child_task_in_scope opts t :
  task_in_scope co paths opts -> child_in_scope co opts t -> task_in_scope co paths t.
Proof.
  intros Ht [-> | (Hroot & Hcrawl)]; [exact Ht|].
  destruct Ht as (Hin & pu & Hpu & _). split; [now rewrite Hroot|].
  exists pu. rewrite Hroot. split; [exact Hpu|]. intros Hc.
  destruct (Hcrawl Hc) as (Hrec & Hpre & Hhost). right. auto.
Qed.

Lemma check_enqueue_in_scope ps sh sh' :
  check_enqueue ps sh = Some sh' ->
  (forall path, In path ps -> In path paths) ->
  Forall (fun e => task_in_scope co paths (fst e)) (queue sh) ->
  Forall (fun e => task_in_scope co paths (fst e)) (queue sh')
  /\ events sh' = events sh.
Proof.
  revert sh. induction ps as [|path ps IH]; intros sh; simpl.
  - intros [= ->] _ Hq. auto.
  - destruct (URL_new path None) as [url|] eqn:Hu; [|discriminate].
    intros Hc Hsub Hq. apply IH in Hc as [Hq' He'].
    + split; [exact Hq' | exact He'].
    + intros q Hq0. apply Hsub. now right.
    + simpl. apply Forall_app. split; [exact Hq|]. constructor; [|constructor]. simpl.
      split; [apply Hsub; now left|]. exists url. split; [exact Hu|]. intros _. now left.
Qed.

End Scope.

(** X8: in every configuration a run reaches, [pagestart] has been fired
    only for URLs within the scope of the run: a starting URL, or, when
    [recurse] is set, a URL whose [href] starts with a starting path and
    whose host is that of the path.  Without [recurse], only starting URLs
    are ever parsed for links. *)
Theorem pagestart_stays_in_scope `{Platform} `{Extractor}
    (co : CheckOptions.t) (paths : list string) (acts : list Action) (sh : Shared) (c : Config) :
  check_enqueue paths empty_shared = Some sh ->
  run co acts {| shared := sh; running := [] |} = Some c ->
  Forall (in_scope co paths) (pagestart_events (events (shared c))).
Proof.
  intros Hstart Hrun.
  pose (T := fun (t : CrawlOptions.t) (p : Prog unit) =>
               Obeys (own_page t) (child_in_scope co t) p).
  pose (K := fun (t : CrawlOptions.t) (_ : Shared) => task_in_scope co paths t).
  pose (J := fun s : Shared => Forall (in_scope co paths) (pagestart_events (events s))).
  destruct (check_enqueue_in_scope co paths paths empty_shared sh Hstart)
    as [Hq He]; [auto | constructor |].
  assert (Hinit : keeps T K J {| shared := sh; running := [] |}).
  { split; [|split]; simpl; [|exact Hq | constructor].
    unfold J. rewrite He. constructor. }
  assert (Hfin : keeps T K J c); [|apply Hfin].
  eapply (run_keeps co T K J); [ | | | | | | exact Hinit | exact Hrun].
  - intros t. apply crawl_Obeys.
  - intros t rq k o. apply Obeys_request_inv.
  - intros t h k b. apply Obeys_skip_inv.
  - intros t s q Ht. exact Ht.
  - intros s q Hs. exact Hs.
  - intros t p clk i s Hp Ht Hs Hqs.
    destruct (run_sync_Obeys (own_page t) (child_in_scope co t)
                (in_scope co paths) (task_in_scope co paths) p Hp
                (fun u => own_page_in_scope co paths t u Ht)
                (fun t' => child_task_in_scope co paths t t' Ht) clk i s Hs Hqs)
      as (H1 & H2 & H3).
    split; [exact H1|]. split; [exact H2|]. split; [exact H3|]. intros t' Ht'. exact Ht'.
Qed.

(** [pagestart_stays_in_scope] on the run over two levels: the home page and
    [/a] are parsed, the HTML page of the other host is not. *)
Lemma pagestart_stays_in_scope_witness :
  map Url.href (pagestart_events (events (shared Examples.deep_final)))
  = ["http://h/"; "http://h/a"]
  /\ Forall (@in_scope Node.platform Examples.site_options ["http://h/"])
       (pagestart_events (events (shared Examples.deep_final))).
Proof.
  split; [vm_compute; reflexivity|].
  apply (@pagestart_stays_in_scope Node.platform Node.extractor Examples.site_options
           ["http://h/"] Examples.deep_run Examples.site_start Examples.deep_final);
    vm_compute; reflexivity.
Defined.

(* ===================================================================== *)
(** * Results are for visited URLs *)
(* ===================================================================== *)

Section Visited.
Context `{Platform} `{Extractor}.
Variable co : CheckOptions.t.
Import Url.

Lemma of_visited_mono sh sh' r :
  cache sh ⊆ cache sh' -> of_visited sh r -> of_visited sh' r.
Proof. intros Hsub [Hu | Hin]; [now left | right; now apply Hsub]. Qed.

Lemma run_sync_Done_visited {A : Type} (p : Prog A) :
  Done p ->
  forall clk i sh,
    Forall (of_visited sh) (results sh) ->
    Forall (fun e => task_visited (fst e) sh) (queue sh) ->
    Forall (of_visited (fst (run_sync p clk i sh))) (results (fst (run_sync p clk i sh)))
    /\ Forall (fun e => task_visited (fst e) (fst (run_sync p clk i sh)))
         (queue (fst (run_sync p clk i sh)))
    /\ cache sh ⊆ cache (fst (run_sync p clk i sh))
    /\ exists a, snd (run_sync p clk i sh) = Ret a.
Proof.
  induction 1 as [a | e k Hk IH | r k Hr Hk IH | v k child k' Ht IHt Hf Hv Hk' IHk'];
    intros clk i sh Hres Hq; simpl.
  - split; [exact Hres|]. split; [exact Hq|]. split; [reflexivity | eauto].
  - apply (IH clk i {| results := results sh; cache := cache sh;
                       delayCache := delayCache sh; queue := queue sh;
                       events := events sh ++ [e] |}); [exact Hres | exact Hq].
  - apply (IH clk i {| results := results sh ++ [r]; cache := cache sh;
                       delayCache := delayCache sh; queue := queue sh;
                       events := events sh |}); [|exact Hq].
    apply Forall_app. split; [exact Hres|]. constructor; [now left | constructor].
  - destruct (bool_decide (v ∈ cache sh)); [now apply IHt|].
    rewrite Hf. simpl.
    set (sh1 := {| results := results sh; cache := {[v]} ∪ cache sh;
                   delayCache := delayCache sh; queue := queue sh ++ [(child, None)];
                   events := events sh |}).
    assert (Hsub : cache sh ⊆ cache sh1) by (simpl; apply union_subseteq_r).
    destruct (IHk' clk i sh1) as (H1 & H2 & H3 & H4).
    + eapply Forall_impl; [exact Hres|]. intros r. now apply of_visited_mono.
    + simpl. apply Forall_app. split.
      * eapply Forall_impl; [exact Hq|]. intros e He. now apply Hsub.
      * constructor; [|constructor]. unfold task_visited. simpl. rewrite Hv.
        apply elem_of_union. left. now apply elem_of_singleton.
    + split; [exact H1|]. split; [exact H2|]. split; [|exact H4].
      etransitivity; [exact Hsub | exact H3].
Qed.

Lemma run_sync_Pending_visited opts (p : Prog unit) :
  Pending opts p ->
  forall clk i sh,
    task_visited opts sh ->
    Forall (of_visited sh) (results sh) ->
    Forall (fun e => task_visited (fst e) sh) (queue sh) ->
    Forall (of_visited (fst (run_sync p clk i sh))) (results (fst (run_sync p clk i sh)))
    /\ Forall (fun e => task_visited (fst e) (fst (run_sync p clk i sh)))
         (queue (fst (run_sync p clk i sh)))
    /\ cache sh ⊆ cache (fst (run_sync p clk i sh))
    /\ (Pending opts (snd (run_sync p clk i sh))
        \/ exists a, snd (run_sync p clk i sh) = Ret a).
Proof.
  induction 1 as [r k Hu Hr Hk | d k Hk | rq k Hk IH | h k Hk IH | k Hk IH
                 | h k Hk IH | h k Hk IH | h v k Hk IH | h k Hk IH];
    intros clk i sh Hself Hres Hq; simpl.
  - destruct (run_sync_Done_visited k Hk clk i
                {| results := results sh ++ [r]; cache := cache sh;
                   delayCache := delayCache sh; queue := queue sh; events := events sh |})
      as (H1 & H2 & H3 & H4); simpl; [|exact Hq|].
    + apply Forall_app. split; [exact Hres|]. constructor; [|constructor].
      right. rewrite Hu. exact Hself.
    + split; [exact H1|]. split; [exact H2|]. split; [exact H3 | now right].
  - destruct (run_sync_Done_visited k Hk clk i
                {| results := results sh; cache := cache sh;
                   delayCache := delayCache sh; queue := queue sh ++ [(opts, d)];
                   events := events sh |})
      as (H1 & H2 & H3 & H4); simpl; [exact Hres| |].
    + apply Forall_app. split; [exact Hq|]. constructor; [exact Hself | constructor].
    + split; [exact H1|]. split; [exact H2|]. split; [exact H3 | now right].
  - split; [exact Hres|]. split; [exact Hq|]. split; [reflexivity|].
    left. constructor. exact Hk.
  - split; [exact Hres|]. split; [exact Hq|]. split; [reflexivity|].
    left. constructor. exact Hk.
  - now apply IH.
  - now apply IH.
  - now apply IH.
  - apply (IH clk i {| results := results sh; cache := cache sh;
                       delayCache := <[h:=v]> (delayCache sh); queue := queue sh;
                       events := events sh |}); [exact Hself | exact Hres | exact Hq].
  - apply (IH clk i {| results := results sh; cache := cache sh;
                       delayCache := delete h (delayCache sh); queue := queue sh;
                       events := events sh |}); [exact Hself | exact Hres | exact Hq].
Qed.

Lemma check_enqueue_visited paths sh sh' :
  check_enqueue paths sh = Some sh' ->
  Forall (fun e => task_visited (fst e) sh) (queue sh) ->
  Forall (fun e => task_visited (fst e) sh') (queue sh').
Proof.
  revert sh. induction paths as [|path paths IH]; intros sh; simpl.
  - now intros [= ->].
  - destruct (URL_new path None) as [url|]; [|discriminate].
    intros Hc Hq. apply IH in Hc; [exact Hc|]. simpl.
    apply Forall_app. split.
    + eapply Forall_impl; [exact Hq|]. intros e He. unfold task_visited in *. simpl.
      apply elem_of_union. now right.
    + constructor; [|constructor]. unfold task_visited. simpl.
      apply elem_of_union. left. now apply elem_of_singleton.
Qed.

End Visited.

(** X9: in every configuration a run reaches, also when starting URLs
    repeat, every result is for a URL of the visit cache, unless it is the
    result of a link that did not resolve; and every task waiting in the
    queue is for a URL of the visit cache. *)
Theorem results_are_for_visited_urls `{Platform} `{Extractor}
    (co : CheckOptions.t) (paths : list string) (acts : list Action) (sh : Shared) (c : Config) :
  check_enqueue paths empty_shared = Some sh ->
  run co acts {| shared := sh; running := [] |} = Some c ->
  Forall (of_visited (shared c)) (results (shared c))
  /\ Forall (fun e => task_visited (fst e) (shared c)) (queue (shared c)).
Proof.
  intros Hstart Hrun.
  pose (T := fun (t : CrawlOptions.t) (p : Prog unit) => Pending t p \/ exists a, p = Ret a).
  pose (K := task_visited).
  pose (J := fun s : Shared => Forall (of_visited s) (results s)).
  assert (Hinit : keeps T K J {| shared := sh; running := [] |}).
  { split; [|split]; simpl; [| |constructor].
    - unfold J. rewrite (check_enqueue_results _ _ _ Hstart). constructor.
    - apply (check_enqueue_visited paths empty_shared sh Hstart). constructor. }
  assert (Hfin : keeps T K J c); [|split; apply Hfin].
  eapply (run_keeps co T K J); [ | | | | | | exact Hinit | exact Hrun].
  - intros t. left. apply crawl_Pending.
  - intros t rq k o [Hp | [a Ha]]; [|discriminate]. left. inversion Hp; subst. auto.
  - intros t h k b [Hp | [a Ha]]; [|discriminate]. left. inversion Hp; subst. auto.
  - intros t s q Ht. exact Ht.
  - intros s q Hs. exact Hs.
  - intros t p clk i s [Hp | [a ->]] Ht Hs Hqs.
    + destruct (run_sync_Pending_visited t p Hp clk i s Ht Hs Hqs) as (H1 & H2 & H3 & H4).
      split; [exact H1|]. split; [exact H2|]. split; [exact H4|].
      intros t' Ht'. now apply H3.
    + simpl. split; [exact Hs|]. split; [exact Hqs|]. split; [right; eauto | auto].
Qed.

(** [results_are_for_visited_urls] on the run started from the same URL
    twice. *)
Lemma results_are_for_visited_urls_witness :
  length (results (shared Examples.twice_final)) = 2%nat
  /\ Forall (of_visited (shared Examples.twice_final)) (results (shared Examples.twice_final)).
Proof.
  split; [vm_compute; reflexivity|].
  apply (@results_are_for_visited_urls Node.platform Node.extractor Examples.site_options
           ["http://h/a"; "http://h/a"] Examples.twice_run Examples.twice_start
           Examples.twice_final); vm_compute; reflexivity.
Defined.

(* ===================================================================== *)
(** * The parent of a result is a page that was crawled *)
(* ===================================================================== *)

(** Decomposes a goal [Prov opts b p] made of synchronous nodes. *)
Ltac prov :=
  repeat first
    [ assumption
    | progress cbn [mbind mret Prog_bind Prog_ret bind Op.push Op.emit Op.now Op.request
                    Op.linksToSkip Op.cache_has Op.cache_add Op.delay_has Op.delay_get
                    Op.delay_set Op.delay_delete Op.queue_add]
    | match goal with
      | |- Prov _ _ (if ?b then _ else _) => destruct b eqn:?
      | |- Prov _ _ (bind (if ?b then _ else _) _) => destruct b
      | |- Prov _ _ (match ?x with _ => _ end) => destruct x eqn:?
      | |- Prov _ _ (Results_push _ _) => apply Prov_Results_push; [auto|]
      | |- Prov _ _ (Queue_add _ _ _) => apply Prov_Queue_add; [auto|]
      | |- Prov _ _ (Emit (PageStart _) _) => apply Prov_pagestart
      | |- Prov _ _ (Emit (Link _) _) => apply Prov_link
      | |- Prov _ _ (Ret _) => apply Prov_Ret
      | |- Prov _ _ (mret _) => apply Prov_Ret
      | |- Prov _ _ (Op.queue_add _ _) => unfold Op.queue_add
      | |- Prov _ _ (Op.emit _) => unfold Op.emit
      | |- Prov _ _ (Op.push _) => unfold Op.push
      | |- Prov _ _ (Await_request _ _) => apply Prov_Await_request; intros
      | |- Prov _ _ (Await_skip _ _) => apply Prov_Await_skip; intros
      | |- Prov _ _ (Date_now _) => apply Prov_Date_now; intros
      | |- Prov _ _ (Cache_has _ _) => apply Prov_Cache_has; intros
      | |- Prov _ _ (Cache_add _ _) => apply Prov_Cache_add
      | |- Prov _ _ (Delay_has _ _) => apply Prov_Delay_has; intros
      | |- Prov _ _ (Delay_get _ _) => apply Prov_Delay_get; intros
      | |- Prov _ _ (Delay_set _ _ _) => apply Prov_Delay_set
      | |- Prov _ _ (Delay_delete _ _) => apply Prov_Delay_delete
      end ].

Section Provenance.
Context `{Platform} `{Extractor}.
Variable co : CheckOptions.t.
Import Url.

Lemma forOf_crawl_link_Prov opts (l : list ParsedUrl.t) :
  Prov opts true (forOf l (crawl_link co opts)).
Proof.
  induction l as [|item l IH]; simpl; [constructor|].
  remember (forOf l (crawl_link co opts)) as rest eqn:Hrest. clear Hrest.
  unfold crawl_link. destruct (ParsedUrl.url item); prov.
Qed.

Lemma crawl_report_Prov opts res failures :
  Prov opts false (crawl_report co opts res failures).
Proof.
  pose proof (forOf_crawl_link_Prov opts) as Hl.
  unfold crawl_report. prov. apply Hl.
Qed.

Lemma shouldRetryAfter_Prov opts res rest :
  Prov opts false rest ->
  Prov opts false (retry ← shouldRetryAfter res opts;
                   if Js.truthy retry then mret tt else rest).
Proof.
  intros Hrest. unfold shouldRetryAfter.
  destruct res as [res|]; [|exact Hrest].
  destruct (negb _ || negb _); [exact Hrest|].
  cbn. constructor. intros now. set (d := if Js.isNaN _ then _ else _).
  assert (Htail : Prov opts false
            (bind ((if Js.truthy d
                    then Date_now (fun n => Op.queue_add opts (Some (Js.sub d (Js.Num n))))
                    else mret tt) ≫= fun _ => mret d)
               (fun retry => if Js.truthy retry then mret tt else rest))).
  { destruct (Js.truthy d) eqn:Ht; cbn; rewrite ?Ht; [|exact Hrest]. prov. }
  constructor. intros [|]; cbn.
  - constructor. intros o. destruct (Js.gt d (Js.toNumber o)); cbn.
    + constructor. exact Htail.
    + exact Htail.
  - constructor. exact Htail.
Qed.

Lemma crawl_Prov opts : Prov opts false (crawl co opts).
Proof.
  pose proof (crawl_report_Prov opts) as Hrep.
  assert (Hretried : forall res failures o,
             Prov opts false (crawl_retried co opts res failures o)).
  { intros res failures o. unfold crawl_retried. destruct o; [|apply Hrep].
    apply shouldRetryAfter_Prov, Hrep. }
  assert (Hretry : forall res failures, Prov opts false (crawl_retry co opts res failures)).
  { intros res failures. unfold crawl_retry. destruct (_ && _); [|apply Hrep].
    prov. apply Hretried. }
  assert (Hfall : forall res o, Prov opts false (crawl_fallback co opts res o)).
  { intros res o. unfold crawl_fallback. destruct o; [|apply Hretry].
    apply shouldRetryAfter_Prov, Hretry. }
  assert (Hreqd : forall o, Prov opts false (crawl_requested co opts o)).
  { intros o. unfold crawl_requested. destruct o; [|apply Hretry].
    apply shouldRetryAfter_Prov. destruct (_ =? _); [|apply Hretry].
    prov. apply Hfall. }
  assert (Hreq : Prov opts false (crawl_request co opts)).
  { unfold crawl_request. prov. apply Hreqd. }
  assert (Hdelay : Prov opts false (crawl_delay co opts)).
  { unfold crawl_delay. prov. }
  assert (Hfil : forall b, Prov opts false (crawl_filtered co opts b)).
  { intros b. unfold crawl_filtered, skipped_result. prov. }
  unfold crawl. prov; apply Hfil.
Qed.

Lemma page_started_mono x sh sh' :
  (forall u, In u (pagestart_events (events sh)) -> In u (pagestart_events (events sh'))) ->
  page_started x sh -> page_started x sh'.
Proof. intros Hsub (u & Hin & Hu). exists u. auto. Qed.

Lemma started_sub_refl sh : started_sub sh sh.
Proof. intros u Hu. exact Hu. Qed.

Lemma started_sub_trans sh1 sh2 sh3 :
  started_sub sh1 sh2 -> started_sub sh2 sh3 -> started_sub sh1 sh3.
Proof. intros H12 H23 u Hu. auto. Qed.

Lemma started_sub_events sh sh' : events sh' = events sh -> started_sub sh sh'.
Proof. intros He u Hu. now rewrite He. Qed.

Lemma started_sub_emit sh sh' e : events sh' = (events sh ++ [e])%list -> started_sub sh sh'.
Proof.
  intros He u Hu. rewrite He. unfold pagestart_events. rewrite omap_app.
  apply in_or_app. now left.
Qed.

Lemma task_parent_started_mono t sh sh' :
  started_sub sh sh' -> task_parent_started t sh -> task_parent_started t sh'.
Proof. intros Hsub Ht x Hx. eapply page_started_mono; [exact Hsub | now apply Ht]. Qed.

Lemma provenance_mono sh sh' :
  started_sub sh sh' -> results sh' = results sh -> queue sh' = queue sh ->
  provenance sh -> provenance sh'.
Proof.
  intros Hsub Hr Hq [H1 H2]. split.
  - rewrite Hr. eapply Forall_impl; [exact H1|]. intros r Hp x Hx.
    eapply page_started_mono; [exact Hsub | now apply Hp].
  - rewrite Hq. eapply Forall_impl; [exact H2|]. intros e.
    now apply task_parent_started_mono.
Qed.

(** The parent that [Prov] allows is a page that has started. *)
Lemma allowed_parent_started opts b sh (parent : option string) :
  task_parent_started opts sh ->
  (b = true -> page_started (href (CrawlOptions.url opts)) sh) ->
  parent = CrawlOptions.parent opts
  \/ (b = true /\ parent = Some (href (CrawlOptions.url opts))) ->
  forall x, parent = Some x -> page_started x sh.
Proof.
  intros Hself Hb [-> | [Ht ->]] x Hx; [now apply Hself|].
  injection Hx as <-. now apply Hb.
Qed.

Lemma run_sync_Prov opts b (p : Prog unit) :
  Prov opts b p ->
  forall clk i sh,
    task_parent_started opts sh ->
    (b = true -> page_started (href (CrawlOptions.url opts)) sh) ->
    provenance sh ->
    provenance (fst (run_sync p clk i sh))
    /\ Prov opts false (snd (run_sync p clk i sh))
    /\ started_sub sh (fst (run_sync p clk i sh)).
Proof.
  induction 1 as [b a | b r k Hor Hk IH | b t d k Hor Hk IH | b k Hk IH | b r k Hk IH
                 | b rq k Hk IH | b h k Hk IH | b k Hk IH | b s k Hk IH | b s k Hk IH
                 | b h k Hk IH | b h k Hk IH | b h v k Hk IH | b h k Hk IH];
    intros clk i sh Hself Hb Hprov; simpl.
  - split; [exact Hprov|]. split; [constructor | apply started_sub_refl].
  - set (sh1 := {| results := results sh ++ [r]; cache := cache sh;
                   delayCache := delayCache sh; queue := queue sh; events := events sh |}).
    assert (Hsub : started_sub sh sh1) by now apply started_sub_events.
    destruct (IH clk i sh1) as (H1 & H2 & H3).
    + exact Hself.
    + exact Hb.
    + destruct Hprov as [Hres Hq]. split; [|exact Hq]. simpl.
      apply Forall_app. split; [exact Hres|]. constructor; [|constructor].
      exact (allowed_parent_started opts b sh _ Hself Hb Hor).
    + split; [exact H1|]. split; [exact H2|]. exact H3.
  - set (sh1 := {| results := results sh; cache := cache sh;
                   delayCache := delayCache sh; queue := queue sh ++ [(t, d)];
                   events := events sh |}).
    destruct (IH clk i sh1) as (H1 & H2 & H3).
    + exact Hself.
    + exact Hb.
    + destruct Hprov as [Hres Hq]. split; [exact Hres|]. simpl.
      apply Forall_app. split; [exact Hq|]. constructor; [|constructor].
      exact (allowed_parent_started opts b sh _ Hself Hb Hor).
    + split; [exact H1|]. split; [exact H2|]. exact H3.
  - set (sh1 := {| results := results sh; cache := cache sh;
                   delayCache := delayCache sh; queue := queue sh;
                   events := events sh ++ [PageStart (CrawlOptions.url opts)] |}).
    assert (Hsub : started_sub sh sh1) by (eapply started_sub_emit; reflexivity).
    destruct (IH clk i sh1) as (H1 & H2 & H3).
    + now apply (task_parent_started_mono opts sh sh1).
    + intros _. exists (CrawlOptions.url opts). split; [|reflexivity].
      simpl. unfold pagestart_events. rewrite omap_app. apply in_or_app. right.
      simpl. now left.
    + now apply (provenance_mono sh sh1).
    + split; [exact H1|]. split; [exact H2|].
      eapply started_sub_trans; [exact Hsub | exact H3].
  - set (sh1 := {| results := results sh; cache := cache sh;
                   delayCache := delayCache sh; queue := queue sh;
                   events := events sh ++ [Link r] |}).
    assert (Hsub : started_sub sh sh1) by (eapply started_sub_emit; reflexivity).
    destruct (IH clk i sh1) as (H1 & H2 & H3).
    + now apply (task_parent_started_mono opts sh sh1).
    + intros Ht. eapply page_started_mono; [exact Hsub | now apply Hb].
    + now apply (provenance_mono sh sh1).
    + split; [exact H1|]. split; [exact H2|].
      eapply started_sub_trans; [exact Hsub | exact H3].
  - split; [exact Hprov|]. split; [now constructor | apply started_sub_refl].
  - split; [exact Hprov|]. split; [now constructor | apply started_sub_refl].
  - now apply IH.
  - now apply IH.
  - apply (IH clk i {| results := results sh; cache := {[s]} ∪ cache sh;
                       delayCache := delayCache sh; queue := queue sh;
                       events := events sh |}); [exact Hself | exact Hb | exact Hprov].
  - now apply IH.
  - now apply IH.
  - apply (IH clk i {| results := results sh; cache := cache sh;
                       delayCache := <[h:=v]> (delayCache sh); queue := queue sh;
                       events := events sh |}); [exact Hself | exact Hb | exact Hprov].
  - apply (IH clk i {| results := results sh; cache := cache sh;
                       delayCache := delete h (delayCache sh); queue := queue sh;
                       events := events sh |}); [exact Hself | exact Hb | exact Hprov].
Qed.

Lemma check_enqueue_provenance paths sh sh' :
  check_enqueue paths sh = Some sh' ->
  Forall (fun e => task_parent_started (fst e) sh) (queue sh) ->
  Forall (fun e => task_parent_started (fst e) sh') (queue sh').
Proof.
  revert sh. induction paths as [|path paths IH]; intros sh; simpl.
  - now intros [= ->].
  - destruct (URL_new path None) as [url|]; [|discriminate].
    intros Hc Hq. apply IH in Hc; [exact Hc|]. simpl.
    apply Forall_app. split.
    + eapply Forall_impl; [exact Hq|]. intros e He x Hx.
      destruct (He x Hx) as (u & Hu & Hh). exists u. split; [exact Hu | exact Hh].
    + constructor; [|constructor]. intros x Hx. discriminate Hx.
Qed.

End Provenance.

(** X10: in every configuration a run reaches, a result that has a parent
    has as parent the [href] of a URL for which a [pagestart] event was
    fired before, and so has every task waiting in the queue: no result is
    attributed to a page that was not scanned. *)
Theorem parents_are_started_pages `{Platform} `{Extractor}
    (co : CheckOptions.t) (paths : list string) (acts : list Action) (sh : Shared) (c : Config) :
  check_enqueue paths empty_shared = Some sh ->
  run co acts {| shared := sh; running := [] |} = Some c ->
  Forall (parent_started (shared c)) (results (shared c))
  /\ Forall (fun e => task_parent_started (fst e) (shared c)) (queue (shared c)).
Proof.
  intros Hstart Hrun.
  pose (T := fun (t : CrawlOptions.t) (p : Prog unit) => Prov t false p).
  pose (K := task_parent_started).
  pose (J := fun s : Shared => Forall (parent_started s) (results s)).
  assert (Hinit : keeps T K J {| shared := sh; running := [] |}).
  { split; [|split]; simpl; [| |constructor].
    - unfold J. rewrite (check_enqueue_results _ _ _ Hstart). constructor.
    - apply (check_enqueue_provenance paths empty_shared sh Hstart). constructor. }
  assert (Hfin : keeps T K J c); [|split; apply Hfin].
  eapply (run_keeps co T K J); [ | | | | | | exact Hinit | exact Hrun].
  - intros t. apply crawl_Prov.
  - intros t rq k o Hp. unfold T in *. inversion Hp; subst. auto.
  - intros t h k b Hp. unfold T in *. inversion Hp; subst. auto.
  - intros t s q Ht. exact Ht.
  - intros s q Hs. exact Hs.
  - intros t p clk i s Hp Ht Hs Hqs.
    destruct (run_sync_Prov t false p Hp clk i s Ht) as ([H1 H2] & H3 & H4);
      [discriminate | split; assumption |].
    split; [exact H1|]. split; [exact H2|]. split; [exact H3|].
    intros t' Ht'. now apply (task_parent_started_mono t' s).
Qed.

(** [parents_are_started_pages] on the run of the two-page site: the four
    results with a parent come after the [pagestart] of that parent. *)
Lemma parents_are_started_pages_witness :
  count_if (fun r => bool_decide (is_Some (LinkResult.parent r)))
    (results (shared Examples.site_final)) = 4%nat
  /\ Forall (parent_started (shared Examples.site_final))
       (results (shared Examples.site_final)).
Proof.
  split; [vm_compute; reflexivity|].
  apply (@parents_are_started_pages Node.platform Node.extractor Examples.site_options
           ["http://h/"] Examples.site_run Examples.site_start Examples.site_final);
    vm_compute; reflexivity.
Defined.

(* ===================================================================== *)
(** * [shouldRetryAfter] and the deadlines already recorded *)
(* ===================================================================== *)

(** X11: whatever the response and whatever the delay cache holds,
    [shouldRetryAfter] leaves the entries of the other hosts, the results,
    the visit cache and the events as they are, and adds at most one task to
    the queue, the task it was called for; and it never lowers, removes or
    replaces by [NaN] a numeric deadline that the delay cache holds. *)
Theorem shouldRetryAfter_keeps_deadlines `{Platform}
    (res : option Gaxios.Response) (opts : CrawlOptions.t) clk i sh :
  let sh' := fst (run_sync (shouldRetryAfter res opts) clk i sh) in
  (forall h', h' <> Url.host (CrawlOptions.url opts) ->
     delayCache sh' !! h' = delayCache sh !! h')
  /\ results sh' = results sh /\ cache sh' = cache sh /\ events sh' = events sh
  /\ (queue sh' = queue sh \/ exists delay, queue sh' = (queue sh ++ [(opts, delay)])%list)
  /\ (forall (h : string) (d : Z),
        delayCache sh !! h = Some (Js.Num d) ->
        exists d', delayCache sh' !! h = Some (Js.Num d') /\ d <= d').
Proof.
  cbv zeta. set (host := Url.host (CrawlOptions.url opts)).
  assert (Hgen : forall (dc : gmap string Js.num) (q : list (CrawlOptions.t * option Js.num)),
            dc = delayCache sh
            \/ (exists v, dc = <[host := v]> (delayCache sh)
                  /\ forall d, delayCache sh !! host = Some (Js.Num d) ->
                       exists z, v = Js.Num z /\ d <= z) ->
            q = queue sh \/ (exists delay, q = (queue sh ++ [(opts, delay)])%list) ->
            (forall h', h' <> host -> dc !! h' = delayCache sh !! h')
            /\ results sh = results sh /\ cache sh = cache sh /\ events sh = events sh
            /\ (q = queue sh \/ exists delay, q = (queue sh ++ [(opts, delay)])%list)
            /\ (forall (h : string) (d : Z),
                  delayCache sh !! h = Some (Js.Num d) ->
                  exists d', dc !! h = Some (Js.Num d') /\ d <= d')).
  { intros dc q Hdc Hq.
    split; [|split; [reflexivity|split; [reflexivity|split; [reflexivity|split; [exact Hq|]]]]].
    - intros h' Hh'. destruct Hdc as [-> | (v & -> & _)]; [reflexivity|].
      now rewrite lookup_insert_ne by congruence.
    - intros h d Hd. destruct Hdc as [-> | (v & -> & Hv)].
      + exists d. split; [exact Hd | lia].
      + destruct (decide (h = host)) as [->|Hne].
        * destruct (Hv d Hd) as (z & -> & Hle).
          rewrite lookup_insert, decide_True by reflexivity.
          exists z. split; [reflexivity | exact Hle].
        * rewrite lookup_insert_ne by congruence. exists d. split; [exact Hd | lia]. }
  unfold shouldRetryAfter.
  destruct res as [res|]; [|apply Hgen; auto].
  destruct (negb _ || negb _); [apply Hgen; auto|].
  fold host.
  cbn -[bool_decide lookup insert Js.isNaN Js.gt Js.truthy Js.add Js.mul Js.sub].
  set (ra := if Js.isNaN _ then _ else _).
  destruct (bool_decide (is_Some (delayCache sh !! host))) eqn:Hhas.
  - apply bool_decide_eq_true in Hhas. destruct Hhas as [cur Hcur].
    cbn -[lookup insert Js.gt Js.truthy Js.sub]. rewrite Hcur.
    destruct (Js.gt ra (Js.toNumber (Some cur))) eqn:Hgt.
    + destruct ra as [|z]; [discriminate Hgt|].
      assert (Hle : forall d, delayCache sh !! host = Some (Js.Num d) ->
                      exists z', Js.Num z = Js.Num z' /\ d <= z').
      { intros d Hd. rewrite Hcur in Hd. injection Hd as ->.
        simpl in Hgt. apply Z.ltb_lt in Hgt. exists z. split; [reflexivity | lia]. }
      destruct (Js.truthy (Js.Num z)); cbn -[lookup insert];
        apply Hgen; eauto.
    + destruct (Js.truthy ra); cbn -[lookup insert Js.sub]; apply Hgen; eauto.
  - apply bool_decide_eq_false in Hhas.
    cbn -[lookup insert Js.gt Js.truthy Js.sub].
    assert (Hfree : forall d, delayCache sh !! host = Some (Js.Num d) ->
                      exists z', ra = Js.Num z' /\ d <= z').
    { intros d Hd. exfalso. apply Hhas. rewrite Hd. eauto. }
    destruct (Js.truthy ra); cbn -[lookup insert Js.sub]; apply Hgen; eauto.
Qed.

(** [shouldRetryAfter_keeps_deadlines] on a 429 whose [retry-after] of one
    second ends before the deadline already recorded for the host. *)
Lemma shouldRetryAfter_keeps_deadlines_witness :
  let opts := Examples.task "http://h/a" false in
  let sh := {| results := []; cache := ∅; delayCache := {[ "h" := Js.Num 5000 ]};
               queue := []; events := [] |} in
  let res := Examples.response 429 [("retry-after", "1")] "" in
  exists d',
    delayCache (fst (run_sync (@shouldRetryAfter Node.platform (Some res) opts)
                       (Examples.clock 1200) 0 sh)) !! "h" = Some (Js.Num d')
    /\ 5000 <= d'.
Proof.
  intros opts sh res.
  destruct (@shouldRetryAfter_keeps_deadlines Node.platform (Some res) opts
              (Examples.clock 1200) 0%nat sh) as (_ & _ & _ & _ & _ & Hkeep).
  apply (Hkeep "h" 5000). reflexivity.
Defined.

(* ===================================================================== *)
(** * The tasks [check] starts from *)
(* ===================================================================== *)

Section Start.
Context `{Platform} `{Extractor}.

Lemma check_enqueue_None paths sh :
  check_enqueue paths sh = None <-> Exists (fun path => URL_new path None = None) paths.
Proof.
  revert sh. induction paths as [|path paths IH]; intros sh; simpl.
  - split; [discriminate | intros Hex; inversion Hex].
  - destruct (URL_new path None) as [url|] eqn:Hu.
    + rewrite IH. split; [intros Hex; now right|].
      intros Hex. inversion Hex as [? ? Hp | ? ? Hr]; subst; [congruence | exact Hr].
    + split; [intros _; now left | reflexivity].
Qed.

Lemma check_enqueue_Some paths sh sh' :
  check_enqueue paths sh = Some sh' ->
  queue sh' = (queue sh ++ map (fun t => (t, None)) (omap start_task paths))%list
  /\ length (omap start_task paths) = length paths
  /\ (forall s, s ∈ cache sh' <-> s ∈ start_hrefs paths \/ s ∈ cache sh)
  /\ results sh' = results sh /\ delayCache sh' = delayCache sh /\ events sh' = events sh.
Proof.
  revert sh. induction paths as [|path paths IH]; intros sh; simpl.
  - intros [= ->]. rewrite app_nil_r.
    split; [reflexivity|]. split; [reflexivity|]. split; [|auto].
    intros s. split; [intros Hs; now right|].
    intros [Hs | Hs]; [inversion Hs | exact Hs].
  - destruct (URL_new path None) as [url|] eqn:Hu; [|discriminate].
    intros Hc. apply IH in Hc as (Hq & Hl & Hca & Hr & Hd & He). simpl in *.
    assert (Hst : start_task path
                  = Some {| CrawlOptions.url := url; CrawlOptions.crawl := true;
                            CrawlOptions.parent := None; CrawlOptions.rootPath := path |}).
    { unfold start_task. rewrite Hu. reflexivity. }
    rewrite Hst. unfold start_hrefs in *. simpl.
    split; [rewrite Hq, <- app_assoc; reflexivity|].
    split; [f_equal; exact Hl|].
    split; [|auto].
    intros s. rewrite Hca, elem_of_cons, elem_of_union, elem_of_singleton. tauto.
Qed.

End Start.

(** X12: [check] rejects exactly when one of the starting paths is not a
    URL ([new URL(path)] throws in the loop that fills the queue): then no
    sequence of turns of the event loop makes it return a result. *)
Theorem check_rejects_unparseable_start `{Platform} `{Extractor}
    (co : CheckOptions.t) (paths : list string) :
  (check_enqueue paths empty_shared = None
   <-> Exists (fun path => URL_new path None = None) paths)
  /\ (Exists (fun path => URL_new path None = None) paths ->
      forall acts, check co paths acts = None).
Proof.
  split; [apply check_enqueue_None|].
  intros Hex acts. unfold check.
  now rewrite (proj2 (check_enqueue_None paths empty_shared) Hex).
Qed.

(** [check_rejects_unparseable_start] on a list whose second path is not a
    URL. *)
Lemma check_rejects_unparseable_start_witness :
  @check Node.platform Node.extractor Examples.site_options ["http://h/"; "nope"]
    Examples.site_run = None.
Proof.
  apply (proj2 (@check_rejects_unparseable_start Node.platform Node.extractor
                  Examples.site_options ["http://h/"; "nope"])).
  right. left. vm_compute. reflexivity.
Defined.

(** X13: when every starting path is a URL, [check] starts from empty
    results, events and delay cache, with one task per path, in the order of
    the paths and without delay, a path that occurs twice giving two tasks;
    each task crawls, has no parent and has the path as given for root; the
    visit cache holds the [href]s of the starting URLs and nothing else. *)
Theorem check_starts_one_task_per_path `{Platform}
    (paths : list string) (sh : Shared) :
  check_enqueue paths empty_shared = Some sh ->
  queue sh = map (fun t => (t, None)) (omap start_task paths)
  /\ length (queue sh) = length paths
  /\ (forall s, s ∈ cache sh <-> s ∈ start_hrefs paths)
  /\ results sh = [] /\ delayCache sh = ∅ /\ events sh = [].
Proof.
  intros Hc. apply check_enqueue_Some in Hc as (Hq & Hl & Hca & Hr & Hd & He).
  simpl in *. split; [exact Hq|].
  split; [now rewrite Hq, length_map|].
  split; [|auto].
  intros s. rewrite Hca. split; [intros [Hs | Hs]; [exact Hs | set_solver] | now left].
Qed.

(** [check_starts_one_task_per_path] on the same URL given twice: two
    tasks, one entry in the visit cache. *)
Lemma check_starts_one_task_per_path_witness :
  length (queue Examples.twice_start) = 2%nat
  /\ (forall s, s ∈ cache Examples.twice_start
        <-> s ∈ @start_hrefs Node.platform ["http://h/a"; "http://h/a"]).
Proof.
  pose proof (@check_starts_one_task_per_path Node.platform
                ["http://h/a"; "http://h/a"] Examples.twice_start) as Hthm.
  destruct Hthm as (_ & Hl & Hc & _); [vm_compute; reflexivity|].
  split; [exact Hl | exact Hc].
Defined.

(* ===================================================================== *)
(** * What the extractor collects from a document *)
(* ===================================================================== *)

Lemma selected_spec a tags e :
  Links.selected a tags e = true
  <-> In (Dom.tag e) tags /\ is_Some (Dom.attr a (Dom.attribs e)).
Proof.
  unfold Links.selected. rewrite andb_true_iff, bool_decide_eq_true, existsb_exists.
  split.
  - intros [(t & Ht & Heq) Hs]. apply String.eqb_eq in Heq. subst t. auto.
  - intros [Ht Hs]. split; [|exact Hs]. exists (Dom.tag e). split; [exact Ht|].
    apply String.eqb_refl.
Qed.

Lemma flat_map_swap {A B C : Type} (f : A -> B -> list C) (la : list A) (lb : list B) :
  flat_map (fun a => flat_map (fun b => f a b) lb) la
  ≡ₚ flat_map (fun b => flat_map (fun a => f a b) la) lb.
Proof.
  induction lb as [|b lb IH]; simpl.
  - induction la as [|a la IHa]; simpl; [reflexivity | exact IHa].
  - rewrite <- IH. clear IH. induction la as [|a la IHa]; simpl; [reflexivity|].
    rewrite IHa. rewrite !app_assoc. apply Permutation_app_tail.
    rewrite <- !app_assoc. apply Permutation_app_head. apply Permutation_app_comm.
Qed.

Lemma map_filter_flat_map {A B : Type} (f : A -> B) (p : A -> bool) (l : list A) :
  map f (List.filter p l) = flat_map (fun x => if p x then [f x] else []) l.
Proof.
  induction l as [|x l IH]; simpl; [reflexivity|].
  destruct (p x); simpl; now rewrite IH.
Qed.

(** X14: the extractor collects the value of attribute [a] on element [e]
    exactly when [a] is an attribute of the table [linksAttr], the tag of
    [e] is listed for [a], and [e] carries [a]; an attribute on a tag that
    the table does not list for it (an [href] on an [img], a [src] on an
    [a]) is not collected, and no [undefined] enters the list. *)
Theorem collect_iff (doc : list Dom.Element) (v : option string) :
  In v (Links.collect doc)
  <-> exists e a tags,
        In e doc /\ In (a, tags) Links.linksAttr /\ In (Dom.tag e) tags
        /\ is_Some v /\ Dom.attr a (Dom.attribs e) = v.
Proof.
  unfold Links.collect. rewrite in_flat_map. split.
  - intros ([a tags] & Hrow & Hin). apply in_map_iff in Hin as (e & Hv & He).
    apply filter_In in He as [He Hsel]. apply selected_spec in Hsel as [Ht Hs].
    exists e, a, tags. rewrite <- Hv. auto.
  - intros (e & a & tags & He & Hrow & Ht & Hs & Hv).
    exists (a, tags). split; [exact Hrow|]. apply in_map_iff. exists e.
    split; [exact Hv|]. apply filter_In. split; [exact He|].
    apply selected_spec. rewrite Hv. auto.
Qed.

(** X15: the extractor neither drops nor merges values: what it collects
    is, up to order, what the elements contribute one by one, an element
    that carries several attributes of the table (an [embed] with [href] and
    [src]) or a value that occurs twice being collected as often.  The order
    is by attribute of the table first, by position in the document
    second. *)
Theorem collect_is_a_rearrangement (doc : list Dom.Element) :
  Links.collect doc ≡ₚ flat_map links_of doc.
Proof.
  pose (f := fun (row : string * list string) (e : Dom.Element) =>
               let '(a, tags) := row in
               if Links.selected a tags e then [Dom.attr a (Dom.attribs e)] else []).
  transitivity (flat_map (fun row => flat_map (fun e => f row e) doc) Links.linksAttr).
  - assert (Heq : Links.collect doc
                  = flat_map (fun row => flat_map (fun e => f row e) doc) Links.linksAttr).
    { unfold Links.collect. apply flat_map_ext. intros [a tags].
      apply map_filter_flat_map. }
    rewrite Heq. reflexivity.
  - rewrite (flat_map_swap f Links.linksAttr doc).
    assert (Heq : flat_map (fun e => flat_map (fun row => f row e) Links.linksAttr) doc
                  = flat_map links_of doc).
    { apply flat_map_ext. intros e. unfold links_of, f. apply flat_map_ext.
      intros [a tags]. reflexivity. }
    rewrite Heq. reflexivity.
Qed.

(** The order of [collect] is not the order of the document: the [src] of
    an image comes after the [href] of a link that follows the image. *)
Example collect_orders_by_attribute :
  Links.collect [Dom.mkElement "img" [("src", "/i")]; Dom.mkElement "a" [("href", "/l")]]
  = [Some "/l"; Some "/i"].
Proof. reflexivity. Qed.

(* ===================================================================== *)
(** * The configuration file *)
(* ===================================================================== *)

Section ConfigFileFacts.
Import ConfigFile.

Lemma lastIndexOf_from_range c s i :
  lastIndexOf_from c s i = -1 \/ i <= lastIndexOf_from c s i.
Proof.
  revert i. induction s as [|a s IH]; intros i; simpl; [now left|].
  destruct (IH (i + 1)) as [Hr | Hr].
  - rewrite Hr. simpl. destruct (Ascii.eqb a c); [right; lia | now left].
  - destruct (lastIndexOf_from c s (i + 1) =? -1) eqn:He.
    + destruct (Ascii.eqb a c); [right; lia | now left].
    + right. lia.
Qed.

Lemma lastIndexOf_from_absent c s i :
  ~ In c (list_ascii_of_string s) -> lastIndexOf_from c s i = -1.
Proof.
  revert i. induction s as [|a s IH]; intros i Hn; simpl; [reflexivity|].
  rewrite IH by (intros Hin; apply Hn; now right). simpl.
  destruct (Ascii.eqb a c) eqn:He; [|reflexivity].
  apply Ascii.eqb_eq in He. exfalso. apply Hn. now left.
Qed.

Lemma lastIndexOf_from_last c base ext i :
  0 <= i ->
  ~ In c (list_ascii_of_string ext) ->
  lastIndexOf_from c (base +:+ String c ext) i = i + Z.of_nat (String.length base).
Proof.
  revert i. induction base as [|a base IH]; intros i Hi Hn.
  - change ("" +:+ String c ext) with (String c ext). simpl.
    rewrite lastIndexOf_from_absent by exact Hn. simpl.
    rewrite Ascii.eqb_refl. lia.
  - rewrite append_cons. cbn [lastIndexOf_from String.length].
    rewrite IH by (try lia; exact Hn).
    destruct (_ =? -1) eqn:He; [apply Z.eqb_eq in He; lia | lia].
Qed.

Lemma drop_app base s : drop (String.length base) (base +:+ s) = s.
Proof.
  induction base as [|a base IH]; [reflexivity|].
  rewrite append_cons. simpl. exact IH.
Qed.

End ConfigFileFacts.

(** X16: [getTypeOfConfig] looks only at what follows the last dot of the
    path: a path without any dot is taken for JSON; otherwise the text after
    the last dot must be one of [js], [mjs], [cjs], [json], and is the type;
    any other text, also the empty one and one that runs through a directory
    separator, is an error. *)
Theorem getTypeOfConfig_by_suffix (base ext : string) :
  ~ In "."%char (list_ascii_of_string ext) ->
  ConfigFile.getTypeOfConfig ext = inr "json"
  /\ ConfigFile.getTypeOfConfig (base +:+ String "." ext)
     = if bool_decide (ext ∈ ConfigFile.validConfigExtensions)
       then inr ext else inl ConfigFile.BadExtension.
Proof.
  intros Hn. unfold ConfigFile.getTypeOfConfig, ConfigFile.lastIndexOf. split.
  - now rewrite lastIndexOf_from_absent.
  - rewrite lastIndexOf_from_last by (try lia; exact Hn).
    destruct (_ =? -1) eqn:He; [apply Z.eqb_eq in He; lia|].
    unfold ConfigFile.slice.
    replace (Z.to_nat (0 + Z.of_nat (String.length base) + 1))
      with (String.length (base +:+ ".")).
    + replace (base +:+ String "." ext) with ((base +:+ ".") +:+ ext).
      * rewrite drop_app.
        assert (Hiff : existsb (String.eqb ext) ConfigFile.validConfigExtensions
                       = bool_decide (ext ∈ ConfigFile.validConfigExtensions)).
        { apply eq_true_iff_eq. rewrite existsb_exists, bool_decide_eq_true. split.
          - intros (x & Hx & Heq). apply String.eqb_eq in Heq. subst x.
            now apply list_elem_of_In.
          - intros Hin. exists ext. split; [now apply list_elem_of_In | apply String.eqb_refl]. }
        rewrite Hiff. reflexivity.
      * clear. induction base as [|a base IH]; [reflexivity|].
        rewrite !append_cons. now rewrite IH.
    + clear. induction base as [|a base IH]; [reflexivity|].
      rewrite append_cons. cbn [String.length]. lia.
Qed.

(** [getTypeOfConfig_by_suffix] on a file without extension in a directory
    whose name has a dot: what follows the last dot is no extension. *)
Lemma getTypeOfConfig_by_suffix_witness :
  ConfigFile.getTypeOfConfig "d/linkinator" = inr "json"
  /\ ConfigFile.getTypeOfConfig "conf.d/linkinator" = inl ConfigFile.BadExtension.
Proof.
  apply (getTypeOfConfig_by_suffix "conf" "d/linkinator").
  simpl. intros Hin. repeat (destruct Hin as [Hin | Hin]; [discriminate Hin|]). exact Hin.
Defined.

(** X17: the error [Config file ... is invalid] at the end of
    [parseConfigFile] is never thrown: whenever [getTypeOfConfig] returns, a
    loader is called, the JSON reader for [json] and for a path without a
    dot, the importer otherwise; and no loader is called when
    [getTypeOfConfig] throws. *)
Theorem parseConfigFile_dispatch
    (readJsonConfigFile importConfigFile : string -> string + ConfigFile.Flags)
    (configPath : string) :
  ConfigFile.parseConfigFile readJsonConfigFile importConfigFile configPath
  = match ConfigFile.getTypeOfConfig configPath with
    | inl e => inl e
    | inr typeOfConfig =>
        if String.eqb typeOfConfig "json"
        then ConfigFile.loaded (readJsonConfigFile configPath)
        else ConfigFile.loaded (importConfigFile configPath)
    end
  /\ forall p, ConfigFile.parseConfigFile readJsonConfigFile importConfigFile configPath
               <> inl (ConfigFile.Invalid p).
Proof.
  assert (Hty : forall t, ConfigFile.getTypeOfConfig configPath = inr t ->
                  t ∈ ConfigFile.validConfigExtensions).
  { intros t. unfold ConfigFile.getTypeOfConfig.
    destruct (_ =? -1); [intros [= <-]; set_solver|].
    destruct (existsb _ _) eqn:He; [|discriminate]. intros [= <-].
    apply existsb_exists in He as (x & Hx & Heq). apply String.eqb_eq in Heq. subst x.
    now apply list_elem_of_In. }
  unfold ConfigFile.parseConfigFile.
  destruct (ConfigFile.getTypeOfConfig configPath) as [e | t] eqn:Hg.
  - split; [reflexivity|]. intros p. unfold ConfigFile.getTypeOfConfig in Hg.
    destruct (_ =? -1); [discriminate|]. destruct (existsb _ _); [discriminate|].
    injection Hg as <-. discriminate.
  - specialize (Hty t eq_refl). unfold ConfigFile.validConfigExtensions in Hty.
    assert (Hcases : t = "js" \/ t = "mjs" \/ t = "cjs" \/ t = "json").
    { repeat (apply elem_of_cons in Hty as [Hty | Hty]; [tauto|]). inversion Hty. }
    assert (Hl : forall r p, ConfigFile.loaded r <> inl (ConfigFile.Invalid p)).
    { intros [e | f] p; simpl; discriminate. }
    destruct Hcases as [-> | [-> | [-> | ->]]]; simpl; (split; [reflexivity | apply Hl]).
Qed.

(** X18: [getConfig] merges key by key, the command line first: a flag that
    is set (neither [undefined] nor an empty array) keeps its value; for
    every other key the value is the one of the configuration file, which is
    read only when the [config] flag names it: without that flag no file is
    read, not even the default [linkinator.config.json]. *)
Theorem getConfig_precedence
    (readJsonConfigFile importConfigFile : string -> string + ConfigFile.Flags)
    (flags c : ConfigFile.Flags) :
  ConfigFile.getConfig readJsonConfigFile importConfigFile flags = inr c ->
  exists file,
    match ConfigFile.config_flag flags with
    | None => file = ∅
    | Some configPath =>
        ConfigFile.parseConfigFile readJsonConfigFile importConfigFile configPath = inr file
    end
    /\ forall key,
         c !! key = match flags !! key with
                    | Some value => if ConfigFile.stripped value then file !! key else Some value
                    | None => file !! key
                    end.
Proof.
  unfold ConfigFile.getConfig. intros Hc.
  assert (Hmerge : forall file key,
            (filter (fun kv : string * ConfigFile.Value => ConfigFile.stripped kv.2 = false)
               flags ∪ file) !! key
            = match flags !! key with
              | Some value => if ConfigFile.stripped value then file !! key else Some value
              | None => file !! key
              end).
  { intros file key. unfold ConfigFile.Flags in *. rewrite lookup_union, map_lookup_filter.
    destruct (flags !! key) as [value|]; simpl.
    - destruct (ConfigFile.stripped value) eqn:Hs.
      + rewrite option_guard_False by (simpl; congruence). simpl.
        now rewrite (left_id_L None _).
      + rewrite option_guard_True by (simpl; congruence). simpl.
        now destruct (file !! key).
    - now rewrite (left_id_L None _). }
  destruct (ConfigFile.config_flag flags) as [configPath|]; simpl in Hc.
  - destruct (ConfigFile.parseConfigFile _ _ configPath) as [e | file]; [discriminate|].
    injection Hc as <-. exists file. split; [reflexivity | apply Hmerge].
  - injection Hc as <-. exists ∅. split; [reflexivity | apply Hmerge].
Qed.

(** [getConfig_precedence] on flags that set [recurse], leave [skip] empty
    and name a file that sets both. *)
Lemma getConfig_precedence_witness :
  let flags : ConfigFile.Flags :=
    {[ "config" := ConfigFile.V_str "c.json"; "recurse" := ConfigFile.V_bool true;
       "skip" := ConfigFile.V_arr [] ]} in
  let file : ConfigFile.Flags :=
    {[ "recurse" := ConfigFile.V_bool false; "skip" := ConfigFile.V_arr ["x"] ]} in
  let c : ConfigFile.Flags :=
    {[ "config" := ConfigFile.V_str "c.json"; "recurse" := ConfigFile.V_bool true;
       "skip" := ConfigFile.V_arr ["x"] ]} in
  exists file',
    match ConfigFile.config_flag flags with
    | None => file' = ∅
    | Some configPath =>
        ConfigFile.parseConfigFile (fun _ => inr file) (fun _ => inl "no module") configPath
        = inr file'
    end
    /\ forall key,
         c !! key = match flags !! key with
                    | Some value =>
                        if ConfigFile.stripped value then file' !! key else Some value
                    | None => file' !! key
                    end.
Proof.
  intros flags file c.
  apply (getConfig_precedence (fun _ => inr file) (fun _ => inl "no module") flags c).
  vm_compute. reflexivity.
Defined.

(* ===================================================================== *)
(** * The options of a check *)
(* ===================================================================== *)

Section PathFacts.
Variable sep : ascii.





End PathFacts.

Lemma prefix_append (p x : string) : String.prefix p (p +:+ x) = true.
Proof.
  apply prefix_occurs. exists x. reflexivity.
Qed.

Lemma startsWith_http_truthy (p : string) :
  Js.startsWith p "http" = true -> Js.truthy_str (Some p) = true.
Proof. destruct p; [discriminate | reflexivity]. Qed.

Section PreludeFacts.
Context `{FileSystem}.

Lemma scan_types_Some b l :
  scan_types (Some b) l
  = if forallb (fun q => Bool.eqb (Js.startsWith q "http") b) l
    then inr (Some b) else inl MixedPaths.
Proof.
  induction l as [|q l IH]; [reflexivity|]. cbn [scan_types forallb].
  destruct (Bool.eqb (Js.startsWith q "http") b); [exact IH | reflexivity].
Qed.

Lemma scan_types_None l :
  scan_types None l
  = match l with
    | [] => inr None
    | p :: l' =>
        if forallb (fun q => Bool.eqb (Js.startsWith q "http") (Js.startsWith p "http")) l'
        then inr (Some (Js.startsWith p "http")) else inl MixedPaths
    end.
Proof. destruct l as [|p l]; [reflexivity|]. cbn [scan_types]. apply scan_types_Some. Qed.

Lemma expand_error root l e :
  expand root l = inl e -> exists filePath, e = EmptyGlob filePath.
Proof.
  revert e. induction l as [|p l IH]; intros e; simpl; [discriminate|].
  destruct (_ =? 0)%nat; [intros [= <-]; eauto|].
  destruct (expand root l) as [e' | more]; [|discriminate].
  intros [= <-]. now apply IH.
Qed.

Lemma as_array_nonempty (p : Input.PathArg) :
  Input.path_length p <> 0%nat -> Input.as_array p <> [].
Proof. destruct p as [s | l]; simpl; [discriminate | now destruct l]. Qed.

(** The paths are of one kind: [scan_types] has returned. *)
Lemma scan_types_uniform l t :
  l <> [] ->
  (scan_types None l = inr t
   <-> exists b, t = Some b /\ Forall (fun q => Js.startsWith q "http" = b) l).
Proof.
  intros Hne. rewrite scan_types_None. destruct l as [|p l]; [congruence|]. split.
  - destruct (forallb _ l) eqn:Hall; [|discriminate]. intros [= <-].
    exists (Js.startsWith p "http"). split; [reflexivity|].
    constructor; [reflexivity|]. apply Forall_forall. intros q Hq.
    rewrite forallb_forall in Hall. apply Bool.eqb_prop, Hall.
    now apply list_elem_of_In.
  - intros (b & -> & Hall). inversion Hall as [|? ? Hp Hl]; subst.
    assert (Hf : forallb (fun q => Bool.eqb (Js.startsWith q "http") (Js.startsWith p "http")) l
                 = true).
    { apply forallb_forall. intros q Hq. rewrite Forall_forall in Hl.
      rewrite (Hl q) by now apply list_elem_of_In. apply Bool.eqb_reflx. }
    now rewrite Hf.
Qed.

Lemma scan_types_mixed l :
  scan_types None l = inl MixedPaths
  <-> exists p q, In p l /\ In q l /\ Js.startsWith p "http" <> Js.startsWith q "http".
Proof.
  rewrite scan_types_None. destruct l as [|p l].
  - split; [discriminate | intros (p & q & [] & _)].
  - destruct (forallb _ l) eqn:Hall.
    + split; [discriminate|]. intros (x & y & Hx & Hy & Hxy). exfalso.
      rewrite forallb_forall in Hall.
      assert (Hsame : forall z, In z (p :: l) ->
                        Js.startsWith z "http" = Js.startsWith p "http").
      { intros z [<- | Hz]; [reflexivity | apply Bool.eqb_prop, Hall, Hz]. }
      apply Hxy. now rewrite (Hsame x Hx), (Hsame y Hy).
    + split; [intros _ | reflexivity].
      assert (Hex : exists q, In q l
                      /\ Bool.eqb (Js.startsWith q "http") (Js.startsWith p "http") = false).
      { clear -Hall. induction l as [|q l IH]; simpl in Hall; [discriminate|].
        destruct (Bool.eqb (Js.startsWith q "http") (Js.startsWith p "http")) eqn:Hq.
        - destruct (IH Hall) as (q' & Hq' & Hne). exists q'. split; [now right | exact Hne].
        - exists q. split; [now left | exact Hq]. }
      destruct Hex as (q & Hq & Hne). exists p, q.
      split; [now left|]. split; [now right|].
      intros Heq. rewrite Heq, Bool.eqb_reflx in Hne. discriminate.
Qed.

Lemma processOptions_NoPath opts :
  Input.path_length (Input.path opts) = 0%nat -> processOptions opts = inl NoPath.
Proof. intros Hlen. unfold processOptions. now rewrite Hlen. Qed.

Lemma processOptions_scan opts e :
  Input.path_length (Input.path opts) <> 0%nat ->
  scan_types None (Input.as_array (Input.path opts)) = inl e ->
  processOptions opts = inl e.
Proof.
  intros Hlen Hscan. unfold processOptions.
  apply Nat.eqb_neq in Hlen. now rewrite Hlen, Hscan.
Qed.

Lemma processOptions_root opts t :
  Input.path_length (Input.path opts) <> 0%nat ->
  scan_types None (Input.as_array (Input.path opts)) = inr t ->
  Js.truthy_str (Input.serverRoot opts) && default false t = true ->
  processOptions opts = inl ServerRootWithUrl.
Proof.
  intros Hlen Hscan Hc. unfold processOptions.
  apply Nat.eqb_neq in Hlen. now rewrite Hlen, Hscan, Hc.
Qed.

(** Past the three tests, [processOptions] returns, or it throws for a
    glob without match or for a rejection of [stat]. *)
Lemma processOptions_late opts t :
  Input.path_length (Input.path opts) <> 0%nat ->
  scan_types None (Input.as_array (Input.path opts)) = inr t ->
  Js.truthy_str (Input.serverRoot opts) && default false t = false ->
  (exists o, processOptions opts = inr o)
  \/ (exists filePath, processOptions opts = inl (EmptyGlob filePath))
  \/ processOptions opts = inl StatRejected.
Proof.
  intros Hlen Hscan Hc. unfold processOptions.
  apply Nat.eqb_neq in Hlen. rewrite Hlen, Hscan, Hc.
  set (serverRoot := match truthy_root (Input.serverRoot opts) with
                     | Some root => Some (path_normalize root)
                     | None => Input.serverRoot opts
                     end).
  destruct (default false t).
  - rewrite andb_false_r. left. eauto.
  - destruct (expand (truthy_root serverRoot) (Input.as_array (Input.path opts)))
      as [e | ps] eqn:He.
    + apply expand_error in He as [f ->]. right. left. eauto.
    + destruct (negb (Js.truthy_str serverRoot) && negb false); [|left; eauto].
      destruct (1 <? length ps)%nat; [left; eauto|].
      destruct ps as [|p0 ps]; [now right; right|].
      destruct (stat_isFile p0) as [[|]|]; [left; eauto | left; eauto | now right; right].
Qed.

End PreludeFacts.

(** X19: the three refusals of [processOptions] that do not depend on the
    file system, in the order in which the code tests them.  An empty path
    (the empty array or the empty string) is refused first; then paths of
    which one starts with [http] and another does not, with or without a
    server root; then a server root given together with paths that all
    start with [http]. *)
Theorem processOptions_refusals `{FileSystem} (opts : Input.t) :
  let paths := Input.as_array (Input.path opts) in
  (processOptions opts = inl NoPath <-> Input.path_length (Input.path opts) = 0%nat)
  /\ (processOptions opts = inl MixedPaths
      <-> Input.path_length (Input.path opts) <> 0%nat
          /\ exists p q, In p paths /\ In q paths
                         /\ Js.startsWith p "http" <> Js.startsWith q "http")
  /\ (processOptions opts = inl ServerRootWithUrl
      <-> Input.path_length (Input.path opts) <> 0%nat
          /\ Forall (fun p => Js.startsWith p "http" = true) paths
          /\ Js.truthy_str (Input.serverRoot opts) = true).
Proof.
  intros paths.
  destruct (Nat.eq_dec (Input.path_length (Input.path opts)) 0%nat) as [Hlen | Hlen].
  - rewrite (processOptions_NoPath opts Hlen).
    split; [tauto|]. split; (split; [discriminate | intros [Hne _]; congruence]).
  - pose proof (as_array_nonempty _ Hlen) as Hne. fold paths in Hne.
    pose proof (scan_types_mixed paths) as Hmixed.
    destruct (scan_types None paths) as [e | t] eqn:Hscan.
    + assert (He : e = MixedPaths).
      { rewrite scan_types_None in Hscan. destruct paths as [|p l]; [discriminate|].
        destruct (forallb _ l); [discriminate | congruence]. }
      subst e. rewrite (processOptions_scan opts MixedPaths Hlen Hscan).
      destruct (proj1 Hmixed eq_refl) as (p & q & Hp & Hq & Hpq).
      split; [split; [discriminate | congruence]|].
      split; [split; [intros _; split; [exact Hlen | eauto] | reflexivity]|].
      split; [discriminate|]. intros (_ & Hall & _). exfalso.
      rewrite Forall_forall in Hall. apply Hpq.
      now rewrite (Hall p), (Hall q) by now apply list_elem_of_In.
    + destruct (proj1 (scan_types_uniform paths t Hne) Hscan) as (b & -> & Hall).
      assert (Hnotmixed : ~ exists p q, In p paths /\ In q paths
                            /\ Js.startsWith p "http" <> Js.startsWith q "http").
      { intros Hex. apply Hmixed in Hex. discriminate Hex. }
      assert (Hb : Forall (fun p => Js.startsWith p "http" = true) paths -> b = true).
      { intros Hhttp. destruct paths as [|p l]; [congruence|].
        inversion Hall; subst. inversion Hhttp; subst. congruence. }
      destruct (Js.truthy_str (Input.serverRoot opts) && default false (Some b)) eqn:Hc.
      * rewrite (processOptions_root opts (Some b) Hlen Hscan Hc).
        apply andb_true_iff in Hc as [Hroot Hbt]. simpl in Hbt. subst b.
        split; [split; [discriminate | congruence]|].
        split; [split; [discriminate | intros [_ Hex]; contradiction]|].
        split; [intros _; auto | reflexivity].
      * assert (Hout : processOptions opts <> inl NoPath
                       /\ processOptions opts <> inl MixedPaths
                       /\ processOptions opts <> inl ServerRootWithUrl).
        { destruct (processOptions_late opts (Some b) Hlen Hscan Hc)
            as [[o ->] | [[f ->] | ->]]; repeat split; discriminate. }
        destruct Hout as (H1 & H2 & H3).
        split; [split; [intros; contradiction | congruence]|].
        split; [split; [intros; contradiction | intros [_ Hex]; contradiction]|].
        split; [intros; contradiction|]. intros (_ & Hhttp & Hroot). exfalso.
        rewrite (Hb Hhttp), Hroot in Hc. discriminate Hc.
Qed.

(** X20: paths that all start with [http], given without server root, go
    through [processOptions] and the head of [check] as they are, whatever
    the file system holds: no glob is expanded, no web server is started.
    This holds also for a path that is no URL but the name of a local file
    that starts with [http]. *)
Theorem http_paths_pass_unchanged `{FileSystem} (opts : Input.t) (random : Z) :
  let paths := Input.as_array (Input.path opts) in
  Input.path_length (Input.path opts) <> 0%nat ->
  Forall (fun p => Js.startsWith p "http" = true) paths ->
  Js.truthy_str (Input.serverRoot opts) = false ->
  processOptions opts
  = inr {| Input.path := Input.Many paths;
           Input.port := Input.port opts;
           Input.markdown :=
             match Input.markdown opts with
             | None => if existsb is_md paths then Some true else None
             | Some b => Some b
             end;
           Input.serverRoot := Input.serverRoot opts;
           Input.directoryListing := Some (default false (Input.directoryListing opts)) |}
  /\ check_paths random opts = inr (paths, None).
Proof.
  intros paths Hlen Hhttp Hroot.
  pose proof (as_array_nonempty _ Hlen) as Hne. fold paths in Hne.
  assert (Hscan : scan_types None paths = inr (Some true)).
  { apply scan_types_uniform; [exact Hne|]. eauto. }
  assert (Hp : processOptions opts
               = inr {| Input.path := Input.Many paths;
                        Input.port := Input.port opts;
                        Input.markdown :=
                          match Input.markdown opts with
                          | None => if existsb is_md paths then Some true else None
                          | Some b => Some b
                          end;
                        Input.serverRoot := Input.serverRoot opts;
                        Input.directoryListing :=
                          Some (default false (Input.directoryListing opts)) |}).
  { unfold processOptions. fold paths. apply Nat.eqb_neq in Hlen.
    rewrite Hlen, Hscan. unfold truthy_root. rewrite Hroot. simpl.
    rewrite andb_false_r. reflexivity. }
  split; [exact Hp|].
  unfold check_paths. rewrite Hp. cbn [Input.as_array Input.path].
  destruct paths as [|p l]; [congruence|]. inversion Hhttp as [|? ? Hph Hl]; subst.
  cbn [List.find]. rewrite Hph. now rewrite (startsWith_http_truthy p Hph).
Qed.

(** [http_paths_pass_unchanged] on the name of a local file. *)
Lemma http_paths_pass_unchanged_witness :
  @check_paths Examples.posix 7 (Examples.input (Input.One "httpd/index.html") None)
  = inr (["httpd/index.html"], None).
Proof.
  apply (@http_paths_pass_unchanged Examples.posix
           (Examples.input (Input.One "httpd/index.html") None) 7).
  - simpl. discriminate.
  - constructor; [reflexivity | constructor].
  - reflexivity.
Defined.



(** A server root that ends with the separator counts one segment more than
    it has directories: for the match [site/docs/index.html] of a glob
    joined to the server root [site/], the directory [docs] is removed
    too. *)
Example contractedPath_trailing_separator :
  @contractedPath Examples.posix "site/" "site/docs/index.html" = "index.html".
Proof. reflexivity. Qed.

(** The server root [.] has one segment, and [path.join('.', p)] is [p]: for
    the match [site/docs/index.html] the directory [site] is removed. *)
Example contractedPath_dot_root :
  @contractedPath Examples.posix "." "site/docs/index.html" = "docs/index.html".
Proof. reflexivity. Qed.

(** X22: when the head of [check] starts a web server, every starting URL
    is [http://localhost:port/] followed by the path that [processOptions]
    returned, less one leading slash, and [port] is the port given to the
    server: the option [port] unless it is absent or [0], else [5000] plus
    the random number.  The server is started exactly when none of the
    paths returned by [processOptions] starts with [http]; otherwise these
    paths are the starting URLs. *)
Theorem server_paths_are_on_localhost `{FileSystem}
    (opts : Input.t) (random : Z) (starts : list string) (server : option WebServer) :
  check_paths random opts = inr (starts, server) ->
  exists options,
    processOptions opts = inr options
    /\ let paths := Input.as_array (Input.path options) in
       match server with
       | Some s =>
           Forall (fun p => Js.startsWith p "http" = false) paths
           /\ starts = map (localhost (server_port s)) paths
           /\ Forall (fun u => Js.startsWith u
                                 ("http://localhost:" +:+ pretty (server_port s) +:+ "/")
                               = true) starts
           /\ server_root s = Input.serverRoot options
           /\ server_port s = match Input.port options with
                              | Some p => if p =? 0 then 5000 + random else p
                              | None => 5000 + random
                              end
       | None =>
           starts = paths /\ Exists (fun p => Js.startsWith p "http" = true) paths
       end.
Proof.
  unfold check_paths. destruct (processOptions opts) as [e | options]; [discriminate|].
  intros Hc. exists options. split; [reflexivity|]. cbv zeta.
  set (paths := Input.as_array (Input.path options)) in *.
  destruct (List.find (fun x => Js.startsWith x "http") paths) as [x|] eqn:Hfind.
  - apply find_some in Hfind as [Hin Hx].
    rewrite (startsWith_http_truthy x Hx) in Hc. simpl in Hc. injection Hc as <- <-.
    split; [reflexivity|]. apply Exists_exists. exists x.
    split; [now apply list_elem_of_In | exact Hx].
  - simpl in Hc. injection Hc as <- <-. simpl.
    assert (Hnone : Forall (fun p => Js.startsWith p "http" = false) paths).
    { apply Forall_forall. intros p Hp. apply list_elem_of_In in Hp.
      exact (find_none _ _ Hfind p Hp). }
    split; [exact Hnone|]. split; [reflexivity|]. split; [|split; reflexivity].
    apply Forall_forall. intros u Hu. apply list_elem_of_In, in_map_iff in Hu as (p & <- & _).
    unfold localhost, Js.startsWith.
    set (port := match Input.port options with
                 | Some p => if p =? 0 then 5000 + random else p
                 | None => 5000 + random
                 end).
    set (q := match p with String "/" rest => rest | _ => p end).
    replace ("http://localhost:" +:+ pretty port +:+ "/" +:+ q)
      with (("http://localhost:" +:+ pretty port +:+ "/") +:+ q);
      [apply prefix_append|].
    generalize (pretty port). intros n. clear.
    change ("http://localhost:" +:+ n +:+ "/")
      with ("http://localhost:" +:+ (n +:+ "/")).
    change ("http://localhost:" +:+ n +:+ "/" +:+ q)
      with ("http://localhost:" +:+ (n +:+ ("/" +:+ q))).
    assert (Hassoc : forall a b c : string, (a +:+ b) +:+ c = a +:+ (b +:+ c)).
    { intros a b c. induction a as [|ch a IH]; [reflexivity|].
      rewrite !append_cons. now rewrite IH. }
    now rewrite !Hassoc.
Qed.

(** [server_paths_are_on_localhost] on a single local file. *)
Lemma server_paths_are_on_localhost_witness :
  @check_paths Examples.posix 7 (Examples.input (Input.One "site/index.html") None)
  = inr (["http://localhost:8080/index.html"],
         Some (mkWebServer (Some "site") 8080 None (Some false)))
  /\ exists options,
       @processOptions Examples.posix (Examples.input (Input.One "site/index.html") None)
       = inr options
       /\ Input.as_array (Input.path options) = ["/index.html"].
Proof.
  split; [vm_compute; reflexivity|].
  destruct (@server_paths_are_on_localhost Examples.posix
              (Examples.input (Input.One "site/index.html") None) 7
              ["http://localhost:8080/index.html"]
              (Some (mkWebServer (Some "site") 8080 None (Some false))))
    as (options & Hp & _); [vm_compute; reflexivity|].
  exists options. split; [exact Hp|].
  vm_compute in Hp. injection Hp as <-. reflexivity.
Defined.



(** A file directly under the root of the file system is served from the
    working directory. *)
Example file_under_the_root :
  @processOptions Examples.posix (Examples.input (Input.One "/index.html") None)
  = inr {| Input.path := Input.Many ["/index.html"];
           Input.port := Some 8080;
           Input.markdown := None;
           Input.serverRoot := Some ".";
           Input.directoryListing := Some false |}.
Proof. vm_compute. reflexivity. Qed.
